(** * pr-reviewer-action: risk classification and diff-complexity analysis

    A shallow embedding of [src/analyzers/risk.js] and
    [src/analyzers/complexity.js].

    Conventions of the embedding.
    - A JavaScript string is a [string]; one [ascii] stands for one code
      unit, so the model covers texts whose code units are below 256.
    - A thrown exception is the [Throw] outcome of the [Exc] monad.  The
      analyzers catch nothing, so the model records that an exception is
      thrown and not which: [TypeError] stands for any of them.
    - The [lastIndex] slot of the module-level [/g] regular expressions is
      the only mutable data that outlives a call; it is threaded explicitly
      through the complexity analyzer as a [Store].
    - [minimatch] is a third-party dependency: what it does with a file
      name and a pattern string (return a boolean, or throw) is the class
      [GlobMatcher], about which nothing is assumed; its argument check (a
      [TypeError] unless the pattern is a string of at most 65536
      characters) is written out in [minimatch].
    - Line counts are integers ([Z]); [Math.round] of a quotient is exact
      ([round_div]).  The sums of the code are sums of doubles, which are
      the integer sums as long as these stay within
      [MAX_SAFE_INTEGER]; the statements that give a total as a sum are
      made for such inputs ([safe_counts]).
    - The [summary] fields of both reports and the [details] of the risk
      report are renderings of the fields modelled here and are left out;
      the [details] of the complexity report are a function of the report
      ([complexity_details]). *)

From Stdlib Require Import ZArith Ascii String List Bool Lia.
From stdpp Require Import base option list gmap strings.

Local Open Scope string_scope.
Local Open Scope list_scope.

(** ** Characters *)

Definition code (c : ascii) : N := N_of_ascii c.

Definition in_range (lo hi : N) (c : ascii) : bool :=
  (N.leb lo (code c) && N.leb (code c) hi)%bool.

(** [\w] of a regular expression without the [u] flag: [[A-Za-z0-9_]]. *)
Definition is_word_char (c : ascii) : bool :=
  (in_range 97 122 c || in_range 65 90 c || in_range 48 57 c
   || N.eqb (code c) 95)%bool.

(** LineTerminator: LF, CR (U+2028 and U+2029 lie outside the model). *)
Definition is_line_terminator (c : ascii) : bool :=
  (N.eqb (code c) 10 || N.eqb (code c) 13)%bool.

(** WhiteSpace and LineTerminator below 256: TAB, LF, VT, FF, CR, SP, NBSP.
    This is [\s], and what [String.prototype.trim] strips. *)
Definition is_space (c : ascii) : bool :=
  (in_range 9 13 c || N.eqb (code c) 32 || N.eqb (code c) 160)%bool.

(** [toUpperCase] on one code unit, restricted to results that stay one
    code unit below 256 (the Canonicalize of an [/i] regular expression). *)
Definition upper_char (c : ascii) : ascii :=
  if (in_range 97 122 c
      || (in_range 224 254 c && negb (N.eqb (code c) 247)))%bool
  then ascii_of_N (code c - 32) else c.

(** [toLowerCase] on one code unit. *)
Definition lower_char (c : ascii) : ascii :=
  if (in_range 65 90 c
      || (in_range 192 222 c && negb (N.eqb (code c) 215)))%bool
  then ascii_of_N (code c + 32) else c.

(** ** JavaScript string primitives *)

Fixpoint toLowerCase (s : string) : string :=
  match s with
  | EmptyString => EmptyString
  | String c s' => String (lower_char c) (toLowerCase s')
  end.

Fixpoint startsWith (p s : string) : bool :=
  match p, s with
  | EmptyString, _ => true
  | String a p', String b s' => (Ascii.eqb a b && startsWith p' s')%bool
  | String _ _, EmptyString => false
  end.

Fixpoint includes (p s : string) : bool :=
  (startsWith p s ||
   match s with
   | EmptyString => false
   | String _ s' => includes p s'
   end)%bool.

(** [s.substring(n)] *)
Fixpoint substring_from (n : nat) (s : string) : string :=
  match n, s with
  | O, _ => s
  | S n', String _ s' => substring_from n' s'
  | S _, EmptyString => EmptyString
  end.

(** [s.substring(0, n)] *)
Fixpoint substring_to (n : nat) (s : string) : string :=
  match n, s with
  | S n', String c s' => String c (substring_to n' s')
  | _, _ => EmptyString
  end.

(** [s.split(sep)] for a one-character separator: never the empty list. *)
Fixpoint split_char (sep : ascii) (s : string) : list string :=
  match s with
  | EmptyString => [EmptyString]
  | String c s' =>
      if Ascii.eqb c sep then EmptyString :: split_char sep s'
      else match split_char sep s' with
           | [] => [String c EmptyString]
           | w :: ws => String c w :: ws
           end
  end.

(** [l.join(sep)] *)
Fixpoint join (sep : string) (l : list string) : string :=
  match l with
  | [] => EmptyString
  | [x] => x
  | x :: l' => x ++ sep ++ join sep l'
  end.

Fixpoint trimStart (s : string) : string :=
  match s with
  | EmptyString => EmptyString
  | String c s' => if is_space c then trimStart s' else s
  end.

Fixpoint trimEnd (s : string) : string :=
  match s with
  | EmptyString => EmptyString
  | String c s' =>
      match trimEnd s' with
      | EmptyString => if is_space c then EmptyString else String c EmptyString
      | t => String c t
      end
  end.

Definition trim (s : string) : string := trimEnd (trimStart s).

Definition is_empty (s : string) : bool :=
  match s with EmptyString => true | _ => false end.

(** ** Regular expressions

    The fragment of ECMAScript regular expressions that the two analyzers
    use, with the backtracking semantics of the language: alternatives are
    tried left to right, a quantifier is greedy or lazy, and an iteration
    of a quantifier that consumes nothing is rejected. *)

Inductive regex : Type :=
| Empty
| Chr (c : ascii)
| Cls (p : ascii -> bool)
| Cat (r1 r2 : regex)
| Alt (r1 r2 : regex)
| Rep (greedy : bool) (r : regex)
| Grp (r : regex)
| WordB
| Caret
| Dollar.

Record Flags : Type := mkFlags {
  fl_global : bool;
  fl_ignoreCase : bool;
  fl_multiline : bool
}.

Record RegExp : Type := mkRegExp {
  re_source : regex;
  re_flags : Flags
}.

Definition flags_none : Flags := mkFlags false false false.
Definition flags_g : Flags := mkFlags true false false.
Definition flags_gi : Flags := mkFlags true true false.
Definition flags_m : Flags := mkFlags false false true.

(** Regular-expression syntax. *)
Fixpoint Lit (s : string) : regex :=
  match s with
  | EmptyString => Empty
  | String c EmptyString => Chr c
  | String c s' => Cat (Chr c) (Lit s')
  end.

Fixpoint Alts (l : list regex) : regex :=
  match l with
  | [] => Empty
  | [r] => r
  | r :: l' => Alt r (Alts l')
  end.

Fixpoint Cats (l : list regex) : regex :=
  match l with
  | [] => Empty
  | [r] => r
  | r :: l' => Cat r (Cats l')
  end.

Definition Star (r : regex) : regex := Rep true r.
Definition Plus (r : regex) : regex := Cat r (Rep true r).
Definition LazyPlus (r : regex) : regex := Cat r (Rep false r).
Definition Opt (r : regex) : regex := Alt r Empty.

Definition Dot : regex := Cls (fun c => negb (is_line_terminator c)).
Definition Space : regex := Cls is_space.
Definition Word : regex := Cls is_word_char.
Definition NoneOf (s : string) : regex :=
  Cls (fun c => negb (existsb (Ascii.eqb c) (list_ascii_of_string s))).
Definition OneOf (s : string) : regex :=
  Cls (fun c => existsb (Ascii.eqb c) (list_ascii_of_string s)).

(** The matcher is written in continuation-passing style.  A position in
    the subject is the character before it (if any) and the text after it;
    the outcome of a match is the text left after it and the captures. *)
Definition MatchState : Type := (string * list string)%type.
Definition Continuation : Type :=
  option ascii -> string -> list string -> option MatchState.

Definition char_matches (fl : Flags) (c c' : ascii) : bool :=
  if fl_ignoreCase fl then Ascii.eqb (upper_char c) (upper_char c')
  else Ascii.eqb c c'.

Definition is_word_at (c : option ascii) : bool :=
  match c with Some x => is_word_char x | None => false end.

Definition next_char (s : string) : option ascii :=
  match s with EmptyString => None | String c _ => Some c end.

Definition at_line_start (fl : Flags) (prev : option ascii) : bool :=
  match prev with
  | None => true
  | Some c => (fl_multiline fl && is_line_terminator c)%bool
  end.

Definition at_line_end (fl : Flags) (s : string) : bool :=
  match s with
  | EmptyString => true
  | String c _ => (fl_multiline fl && is_line_terminator c)%bool
  end.

(** The loop of a quantifier over the matcher [step] of its body: at most
    [n] further rounds, each of which has to consume something.  A greedy
    quantifier tries another round first, a lazy one the continuation. *)
Fixpoint rep_loop
    (step : option ascii -> string -> list string -> Continuation -> option MatchState)
    (greedy : bool) (k : Continuation) (n : nat) (prev : option ascii)
    (s : string) (caps : list string) {struct n} : option MatchState :=
  let again (_ : unit) :=
    match n with
    | O => None
    | S n' =>
        step prev s caps (fun prev' s' caps' =>
          if Nat.ltb (String.length s') (String.length s)
          then rep_loop step greedy k n' prev' s' caps' else None)
    end in
  if greedy then
    match again tt with
    | Some res => Some res
    | None => k prev s caps
    end
  else
    match k prev s caps with
    | Some res => Some res
    | None => again tt
    end.

Fixpoint rmatch (fl : Flags) (r : regex) (prev : option ascii) (s : string)
    (caps : list string) (k : Continuation) {struct r} : option MatchState :=
  match r with
  | Empty => k prev s caps
  | Chr c =>
      match s with
      | String c' s' => if char_matches fl c c' then k (Some c') s' caps else None
      | EmptyString => None
      end
  | Cls p =>
      match s with
      | String c' s' => if p c' then k (Some c') s' caps else None
      | EmptyString => None
      end
  | Cat r1 r2 =>
      rmatch fl r1 prev s caps (fun prev' s' caps' => rmatch fl r2 prev' s' caps' k)
  | Alt r1 r2 =>
      match rmatch fl r1 prev s caps k with
      | Some res => Some res
      | None => rmatch fl r2 prev s caps k
      end
  | Rep greedy r1 =>
      rep_loop (rmatch fl r1) greedy k (String.length s) prev s caps
  | Grp r1 =>
      rmatch fl r1 prev s caps (fun prev' s' caps' =>
        k prev' s' (caps' ++ [substring_to (String.length s - String.length s') s]))
  | WordB =>
      if xorb (is_word_at prev) (is_word_at (next_char s))
      then k prev s caps else None
  | Caret => if at_line_start fl prev then k prev s caps else None
  | Dollar => if at_line_end fl s then k prev s caps else None
  end.

Definition accept : Continuation := fun _ s caps => Some (s, caps).

(** One successful match: where it starts and ends (indices into the
    subject), the matched text and the captures. *)
Record Match : Type := mkMatch {
  m_index : nat;
  m_end : nat;
  m_text : string;
  m_captures : list string
}.

(** Try the pattern at the current position, then at each later one. *)
Fixpoint search (fl : Flags) (r : regex) (prev : option ascii) (s : string)
    (i : nat) {struct s} : option Match :=
  match rmatch fl r prev s [] accept with
  | Some (rest, caps) =>
      let n := String.length s - String.length rest in
      Some (mkMatch i (i + n) (substring_to n s) caps)
  | None =>
      match s with
      | EmptyString => None
      | String c s' => search fl r (Some c) s' (S i)
      end
  end.

(** Search from index [from]; [None] when [from] is past the end. *)
Fixpoint search_from (fl : Flags) (r : regex) (prev : option ascii)
    (s : string) (i from : nat) {struct from} : option Match :=
  match from with
  | O => search fl r prev s i
  | S from' =>
      match s with
      | EmptyString => None
      | String c s' => search_from fl r (Some c) s' (S i) from'
      end
  end.

(** RegExpBuiltinExec: the result and the new value of [lastIndex].  Only a
    global expression reads and writes [lastIndex]. *)
Definition RegExpBuiltinExec (R : RegExp) (subject : string) (lastIndex : nat)
    : option Match * nat :=
  if fl_global (re_flags R) then
    match search_from (re_flags R) (re_source R) None subject 0 lastIndex with
    | Some m => (Some m, m_end m)
    | None => (None, 0)
    end
  else
    (search (re_flags R) (re_source R) None subject 0, lastIndex).

(** [RegExp.prototype[Symbol.match]] on a global expression: starting from
    [lastIndex = 0], call exec until it fails, stepping over an empty
    match.  Every round moves [lastIndex] forward, so [length subject + 2]
    rounds are enough (see [match_loop_fuel]). *)
Fixpoint match_loop (fuel : nat) (R : RegExp) (subject : string)
    (lastIndex : nat) (acc : list string) : list string * nat :=
  match fuel with
  | O => (rev acc, lastIndex)
  | S fuel' =>
      match RegExpBuiltinExec R subject lastIndex with
      | (None, li) => (rev acc, li)
      | (Some m, li) =>
          let li' := if is_empty (m_text m) then S li else li in
          match_loop fuel' R subject li' (m_text m :: acc)
      end
  end.

(** [subject.match(R)]: the array of results ([None] for [null]) and the
    value left in [R.lastIndex]. *)
Definition String_match (R : RegExp) (subject : string) (lastIndex : nat)
    : option (list string) * nat :=
  if fl_global (re_flags R) then
    let '(ms, li) := match_loop (String.length subject + 2) R subject 0 [] in
    (match ms with [] => None | _ => Some ms end, li)
  else
    let '(m, li) := RegExpBuiltinExec R subject lastIndex in
    (option_map (fun m => m_text m :: m_captures m) m, li).

(** A regular-expression literal evaluated in place is a fresh object, so
    its [lastIndex] is 0 and is dropped afterwards. *)
Definition match_literal (R : RegExp) (subject : string) : option (list string) :=
  fst (String_match R subject 0).

Definition truthy {A} (o : option A) : bool :=
  match o with Some _ => true | None => false end.

(** [subject.split(R)].  [cur] is the piece being collected and [skip] the
    number of characters of the current separator still to pass.  No match
    is tried at the end of the subject, and an empty match at the start of
    a piece does not split. *)
Fixpoint split_walk (fl : Flags) (r : regex) (prev : option ascii)
    (s : string) (cur : string) (skip : nat) {struct s} : list string :=
  match s with
  | EmptyString => [cur]
  | String c s' =>
      match skip with
      | S skip' => split_walk fl r (Some c) s' cur skip'
      | O =>
          match rmatch fl r prev s [] accept with
          | Some (rest, caps) =>
              match String.length s - String.length rest with
              | O =>
                  if is_empty cur
                  then split_walk fl r (Some c) s' (String c EmptyString) 0
                  else cur :: caps ++ split_walk fl r (Some c) s' (String c EmptyString) 0
              | S n => cur :: caps ++ split_walk fl r (Some c) s' EmptyString n
              end
          | None => split_walk fl r (Some c) s' (cur ++ String c EmptyString) 0
          end
      end
  end.

Definition String_split (R : RegExp) (subject : string) : list string :=
  match subject with
  | EmptyString =>
      if truthy (rmatch (re_flags R) (re_source R) None EmptyString [] accept)
      then [] else [EmptyString]
  | _ => split_walk (re_flags R) (re_source R) None subject EmptyString 0
  end.

(** ** [path.extname] (POSIX flavour of Node's [path] module)

    The loop of Node's implementation, scanning the path from its end. *)

Record ExtScan : Type := mkExtScan {
  startDot : Z;
  startPart : Z;
  scanEnd : Z;
  matchedSlash : bool;
  preDotState : Z
}.

Definition char_at (i : nat) (s : string) : ascii :=
  match String.get i s with Some c => c | None => Ascii.zero end.

Fixpoint extname_loop (path : string) (n : nat) (st : ExtScan) : ExtScan :=
  match n with
  | O => st
  | S i =>
      let c := char_at i path in
      if Ascii.eqb c "/" then
        if negb (matchedSlash st)
        then mkExtScan (startDot st) (Z.of_nat i + 1) (scanEnd st)
                       (matchedSlash st) (preDotState st)
        else extname_loop path i st
      else
        let st1 :=
          if Z.eqb (scanEnd st) (-1)
          then mkExtScan (startDot st) (startPart st) (Z.of_nat i + 1)
                         false (preDotState st)
          else st in
        let st2 :=
          if Ascii.eqb c "." then
            if Z.eqb (startDot st1) (-1)
            then mkExtScan (Z.of_nat i) (startPart st1) (scanEnd st1)
                           (matchedSlash st1) (preDotState st1)
            else if negb (Z.eqb (preDotState st1) 1)
            then mkExtScan (startDot st1) (startPart st1) (scanEnd st1)
                           (matchedSlash st1) 1
            else st1
          else if negb (Z.eqb (startDot st1) (-1))
          then mkExtScan (startDot st1) (startPart st1) (scanEnd st1)
                         (matchedSlash st1) (-1)
          else st1 in
        extname_loop path i st2
  end.

Definition extname (path : string) : string :=
  let st := extname_loop path (String.length path) (mkExtScan (-1) 0 (-1) true 0) in
  if (Z.eqb (startDot st) (-1) || Z.eqb (scanEnd st) (-1)
      || Z.eqb (preDotState st) 0
      || (Z.eqb (preDotState st) 1
          && Z.eqb (startDot st) (scanEnd st - 1)
          && Z.eqb (startDot st) (startPart st + 1)))%bool
  then EmptyString
  else substring_from (Z.to_nat (startDot st))
         (substring_to (Z.to_nat (scanEnd st)) path).

(** [s.replace] of a dot by nothing: only the first occurrence goes. *)
Fixpoint remove_first_dot (s : string) : string :=
  match s with
  | EmptyString => EmptyString
  | String c s' => if Ascii.eqb c "." then s' else String c (remove_first_dot s')
  end.

(** ** Exceptions *)

Inductive JsError : Type := TypeError.

Inductive Exc (A : Type) : Type :=
| Ret (a : A)
| Throw (e : JsError).
Arguments Ret {A} a.
Arguments Throw {A} e.

#[global] Instance Exc_ret : MRet Exc := fun A a => Ret a.
#[global] Instance Exc_bind : MBind Exc := fun A B f m =>
  match m with
  | Ret a => f a
  | Throw e => Throw e
  end.

(** [l.some(f)]: stops at the first element that satisfies [f]. *)
Fixpoint someM {A} (f : A -> Exc bool) (l : list A) : Exc bool :=
  match l with
  | [] => Ret false
  | x :: l' => b ← f x; if b : bool then Ret true else someM f l'
  end.

(** [l.filter(f)]: calls [f] on every element, in order. *)
Fixpoint filterM {A} (f : A -> Exc bool) (l : list A) : Exc (list A) :=
  match l with
  | [] => Ret []
  | x :: l' =>
      b ← f x;
      rest ← filterM f l';
      Ret (if b : bool then x :: rest else rest)
  end.

(** [l.map(f)] *)
Fixpoint mapM {A B} (f : A -> Exc B) (l : list A) : Exc (list B) :=
  match l with
  | [] => Ret []
  | x :: l' => y ← f x; ys ← mapM f l'; Ret (y :: ys)
  end.

(** [for (const x of l) body] over a loop-carried state. *)
Fixpoint for_of {A St} (body : A -> St -> Exc St) (l : list A) (st : St)
    : Exc St :=
  match l with
  | [] => Ret st
  | x :: l' => st' ← body x st; for_of body l' st'
  end.

(** ** Objects used as maps

    A property read on a plain object falls back to [Object.prototype]:
    these are its own property names. *)
Definition object_prototype_keys : list string :=
  [ "constructor"; "__defineGetter__"; "__defineSetter__"; "hasOwnProperty";
    "__lookupGetter__"; "__lookupSetter__"; "isPrototypeOf";
    "propertyIsEnumerable"; "toString"; "valueOf"; "__proto__";
    "toLocaleString" ].

Definition inherited (key : string) : bool :=
  bool_decide (key ∈ object_prototype_keys).

(** [[...new Set(l)]]: the distinct elements in order of first occurrence. *)
Definition set_add (acc : list string) (x : string) : list string :=
  if bool_decide (x ∈ acc) then acc else acc ++ [x].

Definition set_of (l : list string) : list string := fold_left set_add l [].

(** ** The glob matcher *)

(** What [new Minimatch(pattern).match(filename)] does with a file name and
    a pattern string: the library compiles the pattern and matches the name
    against it.  The call returns a boolean or throws (the parser of the
    library recurses on nested groups, and a nesting that is deep enough
    exhausts the stack). *)
Class GlobMatcher : Type := match_glob : string -> string -> Exc bool.

(** The call returns [true]. *)
Definition glob `{GlobMatcher} (filename pattern : string) : bool :=
  match match_glob filename pattern with
  | Ret b => b
  | Throw _ => false
  end.

(** A pattern as the configuration may supply it: a string, or a value of
    another type (a number, a boolean, [null], an array, an object). *)
Inductive JsPattern : Type :=
| PatString (s : string)
| PatOther.

Definition MAX_PATTERN_LENGTH : N := 65536.

Definition valid_pattern (p : JsPattern) : bool :=
  match p with
  | PatString s => N.leb (N.of_nat (String.length s)) MAX_PATTERN_LENGTH
  | PatOther => false
  end.

(** [minimatch(filename, pattern)]: the library asserts that the pattern is
    a string that is not too long before it matches. *)
Definition minimatch `{GlobMatcher} (filename : string) (p : JsPattern)
    : Exc bool :=
  match p with
  | PatString s => if valid_pattern p then match_glob filename s else Throw TypeError
  | PatOther => Throw TypeError
  end.

(** ** Data model *)

Module ChangedFile.
Record t : Type := mk {
  filename : string;
  status : string;
  additions : Z;
  deletions : Z
}.
End ChangedFile.

Module RiskRule.
Record t : Type := mk {
  pattern : JsPattern;
  category : string;
  severity : string;
  message : string
}.
End RiskRule.

Module RiskFinding.
Record t : Type := mk {
  filename : string;
  status : string;
  additions : Z;
  deletions : Z;
  severity : string;
  categories : list string;
  messages : list string;
  patterns : list JsPattern
}.
End RiskFinding.

Module RiskReport.
Record t : Type := mk {
  files : list RiskFinding.t;
  highRiskCount : nat;
  mediumRiskCount : nat;
  lowRiskCount : nat;
  byCategory : gmap string (list string)
}.
End RiskReport.

(** ** risk.js *)

Definition rule (p c s m : string) : RiskRule.t :=
  RiskRule.mk (PatString p) c s m.

Definition DEFAULT_RISK_PATTERNS : list RiskRule.t := [
  rule "**/.env*" "security" "high" "Environment configuration file";
  rule "**/secrets*" "security" "high" "Secrets file";
  rule "**/*credentials*" "security" "high" "Credentials file";
  rule "**/*password*" "security" "high" "Password-related file";
  rule "**/*.pem" "security" "high" "Private key file";
  rule "**/*.key" "security" "high" "Key file";
  rule "**/auth/**" "security" "high" "Authentication code";
  rule "**/security/**" "security" "high" "Security module";
  rule "**/migrations/**" "database" "high" "Database migration";
  rule "**/migrate/**" "database" "high" "Database migration";
  rule "**/*.sql" "database" "medium" "SQL file";
  rule "**/schema*" "database" "high" "Database schema";
  rule "**/config/**" "config" "medium" "Configuration file";
  rule "**/*.config.js" "config" "medium" "Configuration file";
  rule "**/*.config.ts" "config" "medium" "Configuration file";
  rule "**/settings.*" "config" "medium" "Settings file";
  rule "**/docker-compose*" "config" "medium" "Docker Compose configuration";
  rule "**/Dockerfile*" "config" "medium" "Dockerfile";
  rule "**/nginx*" "config" "medium" "Nginx configuration";
  rule "**/.github/workflows/**" "ci" "medium" "CI/CD workflow";
  rule "**/*.tf" "infrastructure" "high" "Terraform configuration";
  rule "**/*.tfvars" "infrastructure" "high" "Terraform variables";
  rule "**/cloudformation/**" "infrastructure" "high" "CloudFormation template";
  rule "**/k8s/**" "infrastructure" "high" "Kubernetes configuration";
  rule "**/kubernetes/**" "infrastructure" "high" "Kubernetes configuration";
  rule "**/helm/**" "infrastructure" "high" "Helm chart";
  rule "**/package.json" "dependencies" "medium" "Node.js dependencies";
  rule "**/package-lock.json" "dependencies" "low" "Node.js lockfile";
  rule "**/yarn.lock" "dependencies" "low" "Yarn lockfile";
  rule "**/requirements.txt" "dependencies" "medium" "Python dependencies";
  rule "**/Gemfile" "dependencies" "medium" "Ruby dependencies";
  rule "**/go.mod" "dependencies" "medium" "Go dependencies";
  rule "**/Cargo.toml" "dependencies" "medium" "Rust dependencies";
  rule "**/routes/**" "api" "medium" "API routes";
  rule "**/api/**" "api" "medium" "API code";
  rule "**/middleware/**" "api" "medium" "Middleware";
  rule "**/webpack*" "build" "medium" "Webpack configuration";
  rule "**/rollup*" "build" "medium" "Rollup configuration";
  rule "**/vite.config*" "build" "medium" "Vite configuration";
  rule "**/.gitlab-ci*" "ci" "medium" "GitLab CI configuration";
  rule "**/Jenkinsfile" "ci" "medium" "Jenkins pipeline"
].

(** An entry of [options.customPatterns], as [JSON.parse] may deliver it:
    a string, an object, [null], or a number, boolean or array.  In an
    object, an absent or falsy field is [None] (so [Some PatOther] is a
    truthy value that is not a string); the fields other than [pattern]
    are strings, as the configuration guide requires. *)
Inductive CustomPattern : Type :=
| CustomString (s : string)
| CustomObject (pattern : option JsPattern)
               (category severity message : option string)
| CustomNull
| CustomScalar.

(** [field || fallback] on a string field. *)
Definition or_else (field : option string) (fallback : string) : string :=
  match field with
  | Some s => if is_empty s then fallback else s
  | None => fallback
  end.

(** The arrow function mapped over [customPatterns].  [p.pattern || p] is
    [p] itself when [p] has no truthy [pattern]; reading a property of
    [null] throws. *)
Definition custom_rule (p : CustomPattern) : Exc RiskRule.t :=
  match p with
  | CustomString s =>
      Ret (RiskRule.mk (PatString s) "custom" "medium" "Custom risk pattern")
  | CustomObject pat cat sev msg =>
      let pattern :=
        match pat with
        | Some (PatString s) => if is_empty s then PatOther else PatString s
        | Some PatOther => PatOther
        | None => PatOther
        end in
      Ret (RiskRule.mk pattern (or_else cat "custom") (or_else sev "medium")
             (or_else msg "Custom risk pattern"))
  | CustomNull => Throw TypeError
  | CustomScalar =>
      Ret (RiskRule.mk PatOther "custom" "medium" "Custom risk pattern")
  end.

(** [severityOrder[s]]: a number for the three own keys; anything else reads
    [undefined] or an inherited function or object, all of which compare as
    [NaN]. *)
Definition severityOrder (s : string) : option nat :=
  if decide (s = "high") then Some 3
  else if decide (s = "medium") then Some 2
  else if decide (s = "low") then Some 1
  else None.

(** [a > b] where [None] is a value that converts to [NaN]. *)
Definition js_gt (a b : option nat) : bool :=
  match a, b with
  | Some x, Some y => Nat.ltb y x
  | _, _ => false
  end.

(** The body of the loop of [getHighestSeverity]. *)
Definition severity_step (highest : string) (p : RiskRule.t) : string :=
  if js_gt (severityOrder (RiskRule.severity p)) (severityOrder highest)
  then RiskRule.severity p else highest.

Definition getHighestSeverity (patterns : list RiskRule.t) : string :=
  fold_left severity_step patterns "low".

(** [if (!byCategory[c]) byCategory[c] = []; byCategory[c].push(filename)]:
    an inherited property is truthy and has no [push]. *)
Definition add_to_category (filename : string) (category : string)
    (byCategory : gmap string (list string)) : Exc (gmap string (list string)) :=
  match byCategory !! category with
  | Some l => Ret (<[category := l ++ [filename]]> byCategory)
  | None =>
      if inherited category then Throw TypeError
      else Ret (<[category := [filename]]> byCategory)
  end.

Section Risk.
Context `{GlobMatcher}.

(** The body of the loop over [files], for the rule list [patterns]. *)
Definition risk_file (patterns : list RiskRule.t)
    (ignorePatterns : list JsPattern) (file : ChangedFile.t)
    (result : RiskReport.t) : Exc RiskReport.t :=
  ignored ← someM (minimatch (ChangedFile.filename file)) ignorePatterns;
  if ignored : bool then Ret result else
  matchedPatterns ←
    filterM (fun p => minimatch (ChangedFile.filename file) (RiskRule.pattern p))
            patterns;
  match matchedPatterns with
  | [] => Ret result
  | _ =>
      let severity := getHighestSeverity matchedPatterns in
      let categories := set_of (map RiskRule.category matchedPatterns) in
      let messages := map RiskRule.message matchedPatterns in
      let riskFile :=
        RiskFinding.mk (ChangedFile.filename file) (ChangedFile.status file)
          (ChangedFile.additions file) (ChangedFile.deletions file)
          severity categories messages
          (map RiskRule.pattern matchedPatterns) in
      let files := RiskReport.files result ++ [riskFile] in
      let high := RiskReport.highRiskCount result in
      let medium := RiskReport.mediumRiskCount result in
      let low := RiskReport.lowRiskCount result in
      let '(high, medium, low) :=
        if decide (severity = "high") then (S high, medium, low)
        else if decide (severity = "medium") then (high, S medium, low)
        else (high, medium, S low) in
      byCategory ←
        for_of (add_to_category (ChangedFile.filename file)) categories
               (RiskReport.byCategory result);
      Ret (RiskReport.mk files high medium low byCategory)
  end.

Definition empty_risk_report : RiskReport.t := RiskReport.mk [] 0 0 0 ∅.

(** The classifier over an explicit rule list. *)
Definition classify (files : list ChangedFile.t) (patterns : list RiskRule.t)
    (ignorePatterns : list JsPattern) : Exc RiskReport.t :=
  for_of (risk_file patterns ignorePatterns) files empty_risk_report.

Definition analyzeRisk (files : list ChangedFile.t)
    (customPatterns : list CustomPattern) (ignorePatterns : list JsPattern)
    : Exc RiskReport.t :=
  custom ← mapM custom_rule customPatterns;
  classify files (DEFAULT_RISK_PATTERNS ++ custom) ignorePatterns.
End Risk.

(** ** complexity.js *)

Module THRESHOLDS.
Definition maxFileLines : nat := 500.
Definition maxFunctionLines : nat := 50.
Definition maxNestingDepth : nat := 4.
Definition maxLineLength : nat := 150.
Definition maxCyclomaticComplexity : nat := 10.
Definition largeAdditions : Z := 300.
End THRESHOLDS.

Definition keyword_pattern (words : list string) : RegExp :=
  mkRegExp (Cats [WordB; Grp (Alts (map Lit words)); WordB]) flags_g.

(** [CONTROL_FLOW_PATTERNS[lang]] *)
Definition CONTROL_FLOW_PATTERNS (lang : string) : option RegExp :=
  if decide (lang = "js") then
    Some (keyword_pattern
      ["if"; "else"; "for"; "while"; "do"; "switch"; "case"; "catch"; "&&"; "||"; "?"])
  else if decide (lang = "py") then
    Some (keyword_pattern
      ["if"; "elif"; "else"; "for"; "while"; "try"; "except"; "and"; "or"])
  else if decide (lang = "java") then
    Some (keyword_pattern
      ["if"; "else"; "for"; "while"; "do"; "switch"; "case"; "catch"; "&&"; "||"; "?"])
  else if decide (lang = "go") then
    Some (keyword_pattern ["if"; "else"; "for"; "switch"; "case"; "select"])
  else if decide (lang = "rb") then
    Some (keyword_pattern
      ["if"; "elsif"; "else"; "unless"; "case"; "when"; "while"; "until"; "for"; "rescue"])
  else None.

Module CodeSmellPattern.
Record t : Type := mk {
  pattern : RegExp;
  type : string;
  message : string
}.
End CodeSmellPattern.

(** The single and the double quote character. *)
Definition quotes : string := String "'" (String "034" EmptyString).

Definition CODE_SMELL_PATTERNS : list CodeSmellPattern.t := [
  CodeSmellPattern.mk
    (mkRegExp (Alts (map Lit ["TODO"; "FIXME"; "HACK"; "XXX"])) flags_gi)
    "todo" "Contains TODO/FIXME comments";
  CodeSmellPattern.mk
    (mkRegExp (Cats [Lit "console."; Grp (Alts (map Lit ["log"; "debug"; "info"; "warn"; "error"]))]) flags_g)
    "debug" "Contains console statements";
  CodeSmellPattern.mk
    (mkRegExp (Cats [Lit "debugger"; Opt (Chr ";")]) flags_g)
    "debug" "Contains debugger statement";
  CodeSmellPattern.mk
    (mkRegExp (Cats [Lit "print"; Star Space; Chr "("]) flags_g)
    "debug" "Contains print statements";
  CodeSmellPattern.mk
    (mkRegExp (Cats [Lit ".only"; Star Space; Chr "("]) flags_g)
    "test" "Contains .only() in tests (will skip other tests)";
  CodeSmellPattern.mk
    (mkRegExp (Alts (map Lit ["eslint-disable"; "@ts-ignore"; "@ts-nocheck"; "noqa"])) flags_g)
    "lint" "Contains lint disable comments";
  CodeSmellPattern.mk
    (mkRegExp (Cats [Lit "password"; Star Space; Chr "="; Star Space;
                     OneOf quotes; Plus (NoneOf quotes); OneOf quotes]) flags_gi)
    "security" "Possible hardcoded password";
  CodeSmellPattern.mk
    (mkRegExp (Cats [Lit "api"; Opt (OneOf "_-"); Lit "key"; Star Space; Chr "=";
                     Star Space; OneOf quotes; Plus (NoneOf quotes); OneOf quotes]) flags_gi)
    "security" "Possible hardcoded API key";
  CodeSmellPattern.mk
    (mkRegExp (Cats [Plus Word; Lit ".forEach("; Plus (NoneOf ")"); Chr ")";
                     Star Space; Chr "{"; Plus (NoneOf "}"); Lit "await"]) flags_g)
    "async" "Async operation in forEach (use for...of instead)"
].

(** The module-level [/g] expressions are shared objects; their [lastIndex]
    is the state that survives from one call to the next. *)
Inductive RegexId : Type :=
| ControlFlow (lang : string)
| CodeSmell (i : nat).

#[global] Instance RegexId_eq_dec : EqDecision RegexId.
Proof. solve_decision. Defined.

Definition Store : Type := RegexId -> nat.

Definition set_lastIndex (id : RegexId) (v : nat) (σ : Store) : Store :=
  fun id' => if decide (id' = id) then v else σ id'.

(** Computations that read and write the store and may throw. *)
Definition M (A : Type) : Type := Store -> Exc A * Store.

#[global] Instance M_ret : MRet M := fun A a σ => (Ret a, σ).
#[global] Instance M_bind : MBind M := fun A B f m σ =>
  match m σ with
  | (Ret a, σ') => f a σ'
  | (Throw e, σ') => (Throw e, σ')
  end.

Definition lift {A} (e : Exc A) : M A := fun σ => (e, σ).

(** [content.match(R)] where [R] is the shared object [id]. *)
Definition match_shared (id : RegexId) (R : RegExp) (content : string)
    : M (option (list string)) :=
  fun σ =>
    let '(res, li) := String_match R content (σ id) in
    (Ret res, set_lastIndex id li σ).

Fixpoint for_ofM {A St} (body : A -> St -> M St) (l : list A) (st : St)
    : M St :=
  match l with
  | [] => mret st
  | x :: l' => st' ← body x st; for_ofM body l' st'
  end.

(** Messages are kept as a template and its arguments. *)
Inductive Message : Type :=
| LargeFileChange (additions : Z)
| AddingLines (additions : Z)
| HighComplexity (complexity : nat)
| ComplexityExceeds (complexity threshold : nat)
| DeepNesting (levels : nat)
| LongLines (count limit : nat)
| Text (s : string).

Module Warning.
Record t : Type := mk {
  type : string;
  severity : string;
  filename : string;
  message : Message
}.
End Warning.

Module LargeFile.
Record t : Type := mk {
  filename : string;
  additions : Z;
  deletions : Z;
  message : Message
}.
End LargeFile.

Module ComplexFile.
Record t : Type := mk {
  filename : string;
  complexity : nat;
  message : Message
}.
End ComplexFile.

Module Smell.
Record t : Type := mk {
  type : string;
  count : nat;
  message : string
}.
End Smell.

Module CodeSmell.
Record t : Type := mk {
  filename : string;
  smell : Smell.t
}.
End CodeSmell.

Module Stats.
Record t : Type := mk {
  totalAdditions : Z;
  totalDeletions : Z;
  largestFile : option (string * Z);
  averageFileSize : Z
}.
End Stats.

Module ComplexityReport.
Record t : Type := mk {
  warnings : list Warning.t;
  largeFiles : list LargeFile.t;
  complexFiles : list ComplexFile.t;
  codeSmells : list CodeSmell.t;
  stats : Stats.t
}.
End ComplexityReport.

Module ComplexityEstimate.
Record t : Type := mk {
  complexity : nat;
  maxNesting : nat;
  longLines : nat
}.
End ComplexityEstimate.

(** The [diff] argument: a string, or anything else. *)
Inductive JsDiff : Type :=
| DiffUndefined
| DiffNonString
| DiffText (s : string).

Definition file_header : RegExp := mkRegExp (Cat Caret (Lit "diff --git")) flags_m.
Definition file_name : RegExp :=
  mkRegExp (Cats [Lit "a/"; Grp (LazyPlus Dot); Lit " b/"]) flags_none.

Definition is_added_line (line : string) : bool :=
  (startsWith "+" line && negb (startsWith "+++" line))%bool.

Definition added_lines (part : string) : string :=
  join (String "010" EmptyString)
    (map (substring_from 1) (filter (fun l => is_added_line l = true)
                                    (split_char "010" part))).

(** [files[filename] = text]: assigning a string to [__proto__] has no
    effect. *)
Definition set_property (filename text : string) (files : gmap string string)
    : gmap string string :=
  if decide (filename = "__proto__") then files else <[filename := text]> files.

(** The body of the loop over the parts of the diff. *)
Definition parse_part (files : gmap string string) (part : string)
    : gmap string string :=
  if is_empty (trim part) then files else
  match match_literal file_name part with
  | None => files
  | Some fileMatch =>
      let filename := nth 1 fileMatch EmptyString in
      set_property filename (added_lines part) files
  end.

Definition parseDiff (diff : JsDiff) : gmap string string :=
  match diff with
  | DiffUndefined | DiffNonString => ∅
  | DiffText s =>
      if is_empty s then ∅
      else fold_left parse_part (String_split file_header s) ∅
  end.

(** [langMap[ext]] *)
Definition langMap (ext : string) : option string :=
  if decide (ext = "js") then Some "js"
  else if decide (ext = "jsx") then Some "js"
  else if decide (ext = "ts") then Some "js"
  else if decide (ext = "tsx") then Some "js"
  else if decide (ext = "py") then Some "py"
  else if decide (ext = "java") then Some "java"
  else if decide (ext = "go") then Some "go"
  else if decide (ext = "rb") then Some "rb"
  else None.

Definition block_opener : RegExp := mkRegExp (Cats [Chr ":"; Star Space; Dollar]) flags_none.
Definition dedent_keyword : RegExp :=
  mkRegExp (Cat Caret (Grp (Alts (map Lit ["return"; "pass"; "break"; "continue"]))))
           flags_none.

(** One round of the loop over the lines; the state is
    [(maxNesting, currentNesting)]. *)
Definition nesting_step (lang : string) (st : nat * nat) (line : string)
    : nat * nat :=
  let '(maxNesting, currentNesting) := st in
  let trimmed := trim line in
  let '(maxNesting, currentNesting) :=
    if (includes "{" trimmed || truthy (match_literal block_opener trimmed))%bool
    then (Nat.max maxNesting (S currentNesting), S currentNesting)
    else (maxNesting, currentNesting) in
  if (includes "}" trimmed
      || (bool_decide (lang = "py")
          && truthy (match_literal dedent_keyword trimmed)))%bool
  then (maxNesting, Nat.max 0 (currentNesting - 1))
  else (maxNesting, currentNesting).

(** [analyzeFileComplexity(filename, content)].  An extension that names a
    property of [Object.prototype] makes [lang] a non-string, for which the
    code selects the [js] expression too and [lang === 'py'] is false: it
    behaves as [lang = "js"]. *)
Definition analyzeFileComplexity (filename content : string)
    : M ComplexityEstimate.t :=
  let ext := remove_first_dot (toLowerCase (extname filename)) in
  let lang := default "js" (langMap ext) in
  let '(id, pattern) :=
    match CONTROL_FLOW_PATTERNS lang with
    | Some R => (ControlFlow lang, R)
    | None => (ControlFlow "js", default (mkRegExp Empty flags_g) (CONTROL_FLOW_PATTERNS "js"))
    end in
  found ← match_shared id pattern content;
  let matches := default [] found in
  let complexity := length matches + 1 in
  let lines := split_char "010" content in
  let '(maxNesting, _) := fold_left (nesting_step lang) lines (0, 0) in
  let longLines :=
    length (filter (fun line => THRESHOLDS.maxLineLength < String.length line) lines) in
  mret (ComplexityEstimate.mk complexity maxNesting longLines).

(** [detectCodeSmells(content)]; [i] is the index of the next entry of the
    catalogue. *)
Fixpoint detect_from (i : nat) (catalogue : list CodeSmellPattern.t)
    (content : string) (smells : list Smell.t) : M (list Smell.t) :=
  match catalogue with
  | [] => mret smells
  | smell :: rest =>
      found ← match_shared (CodeSmell i) (CodeSmellPattern.pattern smell) content;
      let smells' :=
        match found with
        | Some ((_ :: _) as matches) =>
            smells ++ [Smell.mk (CodeSmellPattern.type smell) (length matches)
                                (CodeSmellPattern.message smell)]
        | _ => smells
        end in
      detect_from (S i) rest content smells'
  end.

Definition detectCodeSmells (content : string) : M (list Smell.t) :=
  detect_from 0 CODE_SMELL_PATTERNS content [].

Definition codeExtensions : list string :=
  [ ".js"; ".jsx"; ".ts"; ".tsx"; ".py"; ".java"; ".kt"; ".go";
    ".rb"; ".rs"; ".c"; ".cpp"; ".h"; ".cs"; ".php"; ".swift" ].

Definition isCodeFile (filename : string) : bool :=
  let ext := toLowerCase (extname filename) in
  bool_decide (ext ∈ codeExtensions).

(** [Math.round(a / n)] for an integer [a] and a positive integer [n]: the
    quotient rounded to the nearest integer, halves upwards.  (Exact as long
    as the operands stay below 2^52.) *)
Definition round_div (a n : Z) : Z := ((2 * a + n) / (2 * n))%Z.

(** [files.reduce((max, f) => f.additions > max.additions ? f : max, files[0])] *)
Definition largest_of (files : list ChangedFile.t) (first : ChangedFile.t)
    : ChangedFile.t :=
  fold_left
    (fun max f =>
       if (ChangedFile.additions max <? ChangedFile.additions f)%Z then f else max)
    files first.

(** [stats.totalAdditions += file.additions] and the like.  The counts are
    integers; the sums of the code are these sums as long as they stay
    within [Number.MAX_SAFE_INTEGER] in magnitude. *)
Definition add_totals (file : ChangedFile.t) (st : Stats.t) : Stats.t :=
  Stats.mk (Stats.totalAdditions st + ChangedFile.additions file)%Z
           (Stats.totalDeletions st + ChangedFile.deletions file)%Z
           (Stats.largestFile st) (Stats.averageFileSize st).

Section Complexity.
Context `{GlobMatcher}.

(** What the loop does with a file whose added text is [fileContent]. *)
Definition analyze_content (filename fileContent : string)
    (result : ComplexityReport.t) : M ComplexityReport.t :=
  complexityResult ← analyzeFileComplexity filename fileContent;
  let complexity := ComplexityEstimate.complexity complexityResult in
  let maxNesting := ComplexityEstimate.maxNesting complexityResult in
  let longLines := ComplexityEstimate.longLines complexityResult in
  let '(complexFiles, warnings) :=
    if decide (THRESHOLDS.maxCyclomaticComplexity < complexity)
    then (ComplexityReport.complexFiles result
            ++ [ComplexFile.mk filename complexity (HighComplexity complexity)],
          ComplexityReport.warnings result
            ++ [Warning.mk "complexity" "high" filename
                  (ComplexityExceeds complexity THRESHOLDS.maxCyclomaticComplexity)])
    else (ComplexityReport.complexFiles result, ComplexityReport.warnings result) in
  let warnings :=
    if decide (THRESHOLDS.maxNestingDepth < maxNesting)
    then warnings ++ [Warning.mk "nesting" "medium" filename (DeepNesting maxNesting)]
    else warnings in
  smells ← detectCodeSmells fileContent;
  let codeSmells :=
    ComplexityReport.codeSmells result ++ map (CodeSmell.mk filename) smells in
  let warnings :=
    if decide (0 < longLines)
    then warnings ++ [Warning.mk "formatting" "low" filename
                        (LongLines longLines THRESHOLDS.maxLineLength)]
    else warnings in
  mret (ComplexityReport.mk warnings (ComplexityReport.largeFiles result)
          complexFiles codeSmells (ComplexityReport.stats result)).

(** The body of the loop over [files].  A code file is never named like a
    property of [Object.prototype] ([code_file_not_inherited]), so
    [diffContent[file.filename]] is an own property or [undefined]. *)
Definition complexity_file (diffContent : gmap string string)
    (ignorePatterns : list JsPattern) (file : ChangedFile.t)
    (result : ComplexityReport.t) : M ComplexityReport.t :=
  let filename := ChangedFile.filename file in
  ignored ← lift (someM (minimatch filename) ignorePatterns);
  if ignored : bool then mret result else
  if negb (isCodeFile filename) then mret result else
  let result :=
    ComplexityReport.mk (ComplexityReport.warnings result)
      (ComplexityReport.largeFiles result) (ComplexityReport.complexFiles result)
      (ComplexityReport.codeSmells result)
      (add_totals file (ComplexityReport.stats result)) in
  let result :=
    if decide (THRESHOLDS.largeAdditions < ChangedFile.additions file)%Z
    then ComplexityReport.mk
           (ComplexityReport.warnings result
              ++ [Warning.mk "size" "medium" filename
                    (AddingLines (ChangedFile.additions file))])
           (ComplexityReport.largeFiles result
              ++ [LargeFile.mk filename (ChangedFile.additions file)
                    (ChangedFile.deletions file)
                    (LargeFileChange (ChangedFile.additions file))])
           (ComplexityReport.complexFiles result)
           (ComplexityReport.codeSmells result) (ComplexityReport.stats result)
    else result in
  match diffContent !! filename with
  | Some fileContent =>
      if is_empty fileContent then mret result
      else analyze_content filename fileContent result
  | None => mret result
  end.

Definition empty_complexity_report : ComplexityReport.t :=
  ComplexityReport.mk [] [] [] [] (Stats.mk 0 0 None 0).

(** The statistics computed after the loop. *)
Definition finish_stats (files : list ChangedFile.t)
    (result : ComplexityReport.t) : ComplexityReport.t :=
  match files with
  | [] => result
  | first :: _ =>
      let st := ComplexityReport.stats result in
      let average :=
        round_div (Stats.totalAdditions st) (Z.of_nat (length files)) in
      let largestFile := largest_of files first in
      ComplexityReport.mk (ComplexityReport.warnings result)
        (ComplexityReport.largeFiles result) (ComplexityReport.complexFiles result)
        (ComplexityReport.codeSmells result)
        (Stats.mk (Stats.totalAdditions st) (Stats.totalDeletions st)
           (Some (ChangedFile.filename largestFile,
                  ChangedFile.additions largestFile))
           average)
  end.

Definition analyzeComplexity (files : list ChangedFile.t) (diff : JsDiff)
    (ignorePatterns : list JsPattern) : M ComplexityReport.t :=
  let diffContent := parseDiff diff in
  result ← for_ofM (complexity_file diffContent ignorePatterns) files
                   empty_complexity_report;
  mret (finish_stats files result).
End Complexity.

(** ** Invocations

    The two analyzers as the action calls them, one after the other, on the
    state of the module. *)
Inductive Call : Type :=
| CallRisk (files : list ChangedFile.t) (customPatterns : list CustomPattern)
           (ignorePatterns : list JsPattern)
| CallComplexity (files : list ChangedFile.t) (diff : JsDiff)
                 (ignorePatterns : list JsPattern).

Inductive Outcome : Type :=
| RiskOutcome (r : Exc RiskReport.t)
| ComplexityOutcome (r : Exc ComplexityReport.t).

Definition run_call `{GlobMatcher} (c : Call) (σ : Store) : Outcome * Store :=
  match c with
  | CallRisk files customPatterns ignorePatterns =>
      (RiskOutcome (analyzeRisk files customPatterns ignorePatterns), σ)
  | CallComplexity files diff ignorePatterns =>
      let '(r, σ') := analyzeComplexity files diff ignorePatterns σ in
      (ComplexityOutcome r, σ')
  end.

Fixpoint run_calls `{GlobMatcher} (cs : list Call) (σ : Store)
    : list Outcome * Store :=
  match cs with
  | [] => ([], σ)
  | c :: cs' =>
      let '(o, σ') := run_call c σ in
      let '(os, σ'') := run_calls cs' σ' in
      (o :: os, σ'')
  end.

(** ** A matcher to run the analyzers on

    A glob matcher for the syntax of the default rule table: literal
    characters, [?] and [*] inside a path segment, and [**] for any number
    of segments; a segment that starts with a dot is matched only by a
    pattern segment that starts with a dot.  It never throws.  It serves
    to run the statements on examples; no statement depends on its
    agreeing with the library. *)
Fixpoint wildcard (p : list ascii) (s : list ascii) {struct p} : bool :=
  match p with
  | [] => match s with [] => true | _ => false end
  | c :: p' =>
      if Ascii.eqb c "*" then
        (fix star (s : list ascii) : bool :=
           (wildcard p' s ||
            match s with
            | [] => false
            | _ :: s' => star s'
            end)%bool) s
      else
        match s with
        | [] => false
        | d :: s' => ((Ascii.eqb c "?" || Ascii.eqb c d) && wildcard p' s')%bool
        end
  end.

Definition starts_with_dot (s : string) : bool := startsWith "." s.

Definition segment_matches (p f : string) : bool :=
  ((negb (starts_with_dot f) || starts_with_dot p)
   && wildcard (list_ascii_of_string p) (list_ascii_of_string f))%bool.

Fixpoint segments_match (ps : list string) (fs : list string) {struct ps} : bool :=
  match ps with
  | [] => match fs with [] => true | _ => false end
  | p :: ps' =>
      if decide (p = "**") then
        (fix globstar (fs : list string) : bool :=
           (segments_match ps' fs ||
            match fs with
            | [] => false
            | f :: fs' => (negb (starts_with_dot f) && globstar fs')%bool
            end)%bool) fs
      else
        match fs with
        | [] => false
        | f :: fs' => (segment_matches p f && segments_match ps' fs')%bool
        end
  end.

Definition simple_glob : GlobMatcher :=
  fun filename pattern =>
    Ret (segments_match (split_char "/" pattern) (split_char "/" filename)).

(** ** Vocabulary of the statements *)

(** The rank of a severity in [high > medium > low]; 0 for any other
    string. *)
Definition rank (s : string) : nat := default 0 (severityOrder s).

Definition severity_of_rank (n : nat) : string :=
  match n with
  | 3 => "high"
  | 2 => "medium"
  | _ => "low"
  end.

Definition known_severity (s : string) : Prop :=
  s = "high" \/ s = "medium" \/ s = "low".

(** The outcome of [minimatch] when it does not throw. *)
Definition matches `{GlobMatcher} (filename : string) (p : JsPattern) : bool :=
  match p with
  | PatString s => glob filename s
  | PatOther => false
  end.

(** [minimatch] returns for a file name and a pattern. *)
Definition returns `{GlobMatcher} (filename : string) (p : JsPattern) : bool :=
  match minimatch filename p with
  | Ret _ => true
  | Throw _ => false
  end.

(** The rules of a list that match a file name. *)
Definition matched_rules `{GlobMatcher} (filename : string)
    (rules : list RiskRule.t) : list RiskRule.t :=
  filter (fun p => matches filename (RiskRule.pattern p) = true) rules.

(** A file name is ignored when the [some] over the ignore patterns
    returns [true]. *)
Definition ignored `{GlobMatcher} (filename : string)
    (ignorePatterns : list JsPattern) : Prop :=
  someM (minimatch filename) ignorePatterns = Ret true.

Definition not_ignored `{GlobMatcher} (filename : string)
    (ignorePatterns : list JsPattern) : Prop :=
  someM (minimatch filename) ignorePatterns = Ret false.

(** The number of findings of a severity. *)
Definition count_severity (s : string) (fs : list RiskFinding.t) : nat :=
  length (filter (fun fd => RiskFinding.severity fd = s) fs).

(** What a permutation of the rule list leaves unchanged in a report. *)
Definition severities (r : RiskReport.t) : list (string * string) :=
  map (fun fd => (RiskFinding.filename fd, RiskFinding.severity fd))
      (RiskReport.files r).

(** A computation whose result does not depend on the store. *)
Definition store_independent {A} (m : M A) : Prop :=
  forall σ σ', fst (m σ) = fst (m σ').

(** A store in which every [lastIndex] is 0, as when the module is loaded. *)
Definition fresh_store : Store := fun _ => 0.

(** The finding that the classifier records for a file, and the report
    after recording it. *)
Definition finding_of `{GlobMatcher} (rules : list RiskRule.t)
    (file : ChangedFile.t) : RiskFinding.t :=
  let ms := matched_rules (ChangedFile.filename file) rules in
  RiskFinding.mk (ChangedFile.filename file) (ChangedFile.status file)
    (ChangedFile.additions file) (ChangedFile.deletions file)
    (getHighestSeverity ms) (set_of (map RiskRule.category ms))
    (map RiskRule.message ms) (map RiskRule.pattern ms).

Definition record_finding (fd : RiskFinding.t)
    (byCategory : gmap string (list string)) (r : RiskReport.t) : RiskReport.t :=
  let s := RiskFinding.severity fd in
  RiskReport.mk (RiskReport.files r ++ [fd])
    (if decide (s = "high") then S (RiskReport.highRiskCount r)
     else RiskReport.highRiskCount r)
    (if decide (s = "high") then RiskReport.mediumRiskCount r
     else if decide (s = "medium") then S (RiskReport.mediumRiskCount r)
     else RiskReport.mediumRiskCount r)
    (if decide (s = "high") then RiskReport.lowRiskCount r
     else if decide (s = "medium") then RiskReport.lowRiskCount r
     else S (RiskReport.lowRiskCount r))
    byCategory.

(** The counters of a report agree with its findings. *)
Definition counts_agree (r : RiskReport.t) : Prop :=
  RiskReport.highRiskCount r = count_severity "high" (RiskReport.files r) /\
  RiskReport.mediumRiskCount r = count_severity "medium" (RiskReport.files r) /\
  RiskReport.lowRiskCount r = count_severity "low" (RiskReport.files r).

(** Every finding of a report stems from a file that is not ignored and
    carries the severity computed from the rules matching its name. *)
Definition findings_sound `{GlobMatcher} (rules : list RiskRule.t)
    (ign : list JsPattern) (r : RiskReport.t) : Prop :=
  forall fd, fd ∈ RiskReport.files r ->
    not_ignored (RiskFinding.filename fd) ign /\
    matched_rules (RiskFinding.filename fd) rules <> [] /\
    RiskFinding.severity fd =
      getHighestSeverity (matched_rules (RiskFinding.filename fd) rules).

#[global] Instance JsError_eq_dec : EqDecision JsError.
Proof. solve_decision. Defined.

#[global] Instance Exc_eq_dec {A} `{EqDecision A} : EqDecision (Exc A).
Proof. solve_decision. Defined.

#[global] Instance JsPattern_eq_dec : EqDecision JsPattern.
Proof. solve_decision. Defined.

#[global] Instance RiskRule_eq_dec : EqDecision RiskRule.t.
Proof. solve_decision. Defined.

(** The files for which the classifier records a finding. *)
Definition reported `{GlobMatcher} (rules : list RiskRule.t)
    (ign : list JsPattern) (file : ChangedFile.t) : Prop :=
  not_ignored (ChangedFile.filename file) ign /\
  matched_rules (ChangedFile.filename file) rules <> [].

#[global] Instance reported_dec `{GlobMatcher} rules ign file :
  Decision (reported rules ign file).
Proof. unfold reported, not_ignored. apply _. Defined.

#[global] Instance ignored_dec `{GlobMatcher} filename ign :
  Decision (ignored filename ign).
Proof. unfold ignored. apply _. Defined.

(** The category index after a file has been added under the categories
    [cats], and the condition under which adding it throws. *)
Definition insert_all (g : string -> list string) (cats : list string)
    (base : gmap string (list string)) : gmap string (list string) :=
  foldr (fun c m => <[c := g c]> m) base cats.

Definition pushed (filename : string) (bc : gmap string (list string))
    (c : string) : list string :=
  default [] (bc !! c) ++ [filename].

Definition category_clash (bc : gmap string (list string)) (cats : list string)
    : bool :=
  existsb (fun c => bool_decide (bc !! c = None) && inherited c) cats.

(** Two reports that differ at most in the order in which the matched
    rules of each finding are listed. *)
Definition same_verdicts (r r' : RiskReport.t) : Prop :=
  severities r = severities r' /\
  RiskReport.highRiskCount r = RiskReport.highRiskCount r' /\
  RiskReport.mediumRiskCount r = RiskReport.mediumRiskCount r' /\
  RiskReport.lowRiskCount r = RiskReport.lowRiskCount r' /\
  RiskReport.byCategory r = RiskReport.byCategory r'.

(** Two outcomes that throw the same error, or return related results. *)
Definition Exc_rel {A} (R : A -> A -> Prop) (o o' : Exc A) : Prop :=
  match o, o' with
  | Ret r, Ret r' => R r r'
  | Throw e, Throw e' => e = e'
  | _, _ => False
  end.

(** For a file name, a rule on whose pattern [minimatch] returns and whose
    category, if the rule matches the name, is not the name of a property of
    [Object.prototype]. *)
Definition rule_ok `{GlobMatcher} (filename : string) (p : RiskRule.t) : bool :=
  returns filename (RiskRule.pattern p)
  && (negb (matches filename (RiskRule.pattern p))
      || negb (inherited (RiskRule.category p))).

(** The three counters partition the findings by severity. *)
Definition counts_partition (r : RiskReport.t) : Prop :=
  RiskReport.highRiskCount r + RiskReport.mediumRiskCount r
    + RiskReport.lowRiskCount r = length (RiskReport.files r) /\
  counts_agree r.

(** Inputs on which the statements are run. *)
Definition checkout_js : ChangedFile.t :=
  ChangedFile.mk "src/payments/checkout.js" "modified" 50 0.
Definition env_production : ChangedFile.t :=
  ChangedFile.mk ".env.production" "modified" 5 0.
Definition package_lock : ChangedFile.t :=
  ChangedFile.mk "package-lock.json" "modified" 120 80.
Definition vendor_settings : ChangedFile.t :=
  ChangedFile.mk "vendor/config/settings.json" "added" 10 0.

Definition payments_rule (severity : string) : RiskRule.t :=
  RiskRule.mk (PatString "**/payments/**") "financial" severity "Payment code".

Definition payment_rules : list RiskRule.t :=
  [payments_rule "low"; payments_rule "high"; payments_rule "medium"].
Definition payment_rules_swapped : list RiskRule.t :=
  [payments_rule "high"; payments_rule "low"; payments_rule "medium"].

(** A computation that leaves every [lastIndex] at 0 if it finds it so. *)
Definition resets {A} (m : M A) : Prop :=
  forall σ, (forall id, σ id = 0) -> forall id, snd (m σ) id = 0.

(** Every entry of a complexity report is about a file whose name
    satisfies [P]. *)
Definition entries_about (P : string -> Prop) (r : ComplexityReport.t) : Prop :=
  (forall w, w ∈ ComplexityReport.warnings r -> P (Warning.filename w)) /\
  (forall l, l ∈ ComplexityReport.largeFiles r -> P (LargeFile.filename l)) /\
  (forall c, c ∈ ComplexityReport.complexFiles r -> P (ComplexFile.filename c)) /\
  (forall s, s ∈ ComplexityReport.codeSmells r -> P (CodeSmell.filename s)).

(** The text whose lines are [ls], each ended by a line feed. *)
Definition unlines (ls : list string) : string :=
  fold_right (fun l rest => (l ++ String "010" rest)%string) EmptyString ls.

(** The number of non-overlapping occurrences of the words [words] in a
    text, found from left to right with no condition on what surrounds an
    occurrence. *)
Definition token_occurrences (words : list string) (text : string) : nat :=
  length (default [] (fst (String_match (mkRegExp (Alts (map Lit words)) flags_g) text 0))).

Definition js_tokens : list string :=
  ["if"; "else"; "for"; "while"; "do"; "switch"; "case"; "catch"; "&&"; "||"; "?"].

Definition app_js : ChangedFile.t := ChangedFile.mk "app.js" "modified" 11 0.

(** Eleven added lines with one [&&] each, written with spaces around the
    operator, and the diff that adds them to [app.js]. *)
Definition operators_text : string :=
  join (String "010" EmptyString) (repeat "x = a && b;" 11).

Definition operators_diff : string :=
  unlines (["diff --git a/app.js b/app.js"; "--- a/app.js"; "+++ b/app.js";
            "@@ -0,0 +1,11 @@"] ++ repeat "+x = a && b;" 11).

(** Eleven added lines with one [if] each. *)
Definition keywords_diff : string :=
  unlines (["diff --git a/app.js b/app.js"; "--- a/app.js"; "+++ b/app.js";
            "@@ -0,0 +1,11 @@"] ++ repeat "+if (ready) start();" 11).

Definition small_js : ChangedFile.t := ChangedFile.mk "src/a.js" "modified" 10 0.
Definition readme_md : ChangedFile.t := ChangedFile.mk "README.md" "modified" 100 0.
Definition vendor_big_js : ChangedFile.t :=
  ChangedFile.mk "vendor/lib/big.js" "added" 400 0.

(** The sections of a diff text are the pieces between the lines that
    start with [diff --git].  The name of a section is what the parser
    captures in it; a blank section and a section without [a/... b/] have
    none. *)
Definition sections (diff : string) : list string :=
  String_split file_header diff.

Definition section_name (part : string) : option string :=
  if is_empty (trim part) then None
  else match match_literal file_name part with
       | Some fileMatch => Some (nth 1 fileMatch EmptyString)
       | None => None
       end.

(** The last section of a list that is named [name]. *)
Definition last_section (name : string) (parts : list string) : option string :=
  fold_left
    (fun found part =>
       if decide (section_name part = Some name) then Some part else found)
    parts None.

Definition no_line_terminator (s : string) : bool :=
  forallb (fun c => negb (is_line_terminator c)) (list_ascii_of_string s).

(** A diff of three sections: a renamed file, a section whose header names
    no file, and an ordinary one. *)
Definition renamed_diff : string :=
  unlines ["diff --git a/old.js b/new.js"; "similarity index 90%";
           "rename from old.js"; "rename to new.js";
           "--- a/old.js"; "+++ b/new.js"; "@@ -1,2 +1,3 @@";
           " const a = 1;"; "+const b = 2;"; "-const c = 3;"; "+++counter;";
           "diff --git broken header"; "+lost line";
           "diff --git a/lib/util.js b/lib/util.js";
           "--- a/lib/util.js"; "+++ b/lib/util.js"; "@@ -0,0 +1,2 @@";
           "+first"; "+second"].

(** The continuation of the capture group of [file_name] on the text
    [whole]: the group is recorded and [ b/] has to follow. *)
Definition after_group (whole : string) : Continuation :=
  fun prev' s' caps' =>
    rmatch flags_none (Lit " b/") prev' s'
      (caps' ++ [substring_to (String.length whole - String.length s') whole]) accept.

(** A unified diff as [git] writes it: for each file a header line
    [diff --git a/old b/new] and the lines of the section (index and file
    markers, hunk headers, context, removed and added lines). *)
Module DiffSection.
Record t : Type := mk {
  old_path : string;
  new_path : string;
  body : list string
}.
End DiffSection.

(** What follows [diff --git] in the text of a section. *)
Definition section_text (sec : DiffSection.t) : string :=
  " a/" ++ DiffSection.old_path sec ++ " b/" ++ DiffSection.new_path sec
    ++ String "010" (unlines (DiffSection.body sec)).

Definition render_diff (secs : list DiffSection.t) : string :=
  fold_right (fun sec rest => ("diff --git" ++ section_text sec ++ rest)%string)
             EmptyString secs.

(** A line of a section: one line, and not itself a header. *)
Definition body_line (l : string) : bool :=
  no_line_terminator l && negb (startsWith "diff --git" l).

Definition well_formed_section (sec : DiffSection.t) : bool :=
  negb (is_empty (DiffSection.old_path sec))
  && no_line_terminator (DiffSection.old_path sec)
  && negb (includes " b/" (DiffSection.old_path sec))
  && no_line_terminator (DiffSection.new_path sec)
  && forallb body_line (DiffSection.body sec).

(** The last section of a diff whose old-file path is [name]. *)
Definition last_section_of (name : string) (secs : list DiffSection.t)
    : option DiffSection.t :=
  fold_left
    (fun found sec =>
       if decide (DiffSection.old_path sec = name) then Some sec else found)
    secs None.

(** The added lines of a section, as the parser returns them. *)
Definition added_text (sec : DiffSection.t) : string :=
  join (String "010" EmptyString)
    (map (substring_from 1)
         (filter (fun l => is_added_line l = true) (DiffSection.body sec))).

(** Whether [file_header] matches at a position. *)
Definition header_here (prev : option ascii) (s : string) : bool :=
  at_line_start flags_m prev && startsWith "diff --git" s.

(** A rendered diff of two sections, the first one a rename. *)
Definition renamed_sections : list DiffSection.t :=
  [ DiffSection.mk "old.js" "new.js"
      ["similarity index 90%"; "rename from old.js"; "rename to new.js";
       "--- a/old.js"; "+++ b/new.js"; "@@ -1,2 +1,3 @@";
       " const a = 1;"; "+const b = 2;"; "-const c = 3;"; "+++counter;"];
    DiffSection.mk "lib/util.js" "lib/util.js"
      ["--- a/lib/util.js"; "+++ b/lib/util.js"; "@@ -0,0 +1,2 @@";
       "+first"; "+second"] ].

(** The matches of the control-flow pattern selected for a file in its
    added text. *)
Definition control_flow_matches (filename content : string) : list string :=
  let lang := default "js" (langMap (remove_first_dot (toLowerCase (extname filename)))) in
  let pattern :=
    default (default (mkRegExp Empty flags_g) (CONTROL_FLOW_PATTERNS "js"))
            (CONTROL_FLOW_PATTERNS lang) in
  default [] (fst (String_match pattern content 0)).

(** The warning issued for a file of estimated complexity [c]. *)
Definition complexity_warning (filename : string) (c : nat) : Warning.t :=
  Warning.mk "complexity" "high" filename
    (ComplexityExceeds c THRESHOLDS.maxCyclomaticComplexity).

(** ** Vocabulary of the further statements *)

(** The file names that the findings [fs] file under the category [c], in
    the order of the findings. *)
Definition filed_under (c : string) (fs : list RiskFinding.t) : list string :=
  map RiskFinding.filename
      (filter (fun fd => c ∈ RiskFinding.categories fd) fs).

(** The category index that belongs to a list of findings: a category is a
    key when a finding carries it. *)
Definition category_index (fs : list RiskFinding.t) (c : string)
    : option (list string) :=
  match filed_under c fs with
  | [] => None
  | l => Some l
  end.

(** A file that the aggregator analyzes: it is not ignored and it is a
    code file. *)
Definition analyzed `{GlobMatcher} (ign : list JsPattern) (file : ChangedFile.t)
    : Prop :=
  not_ignored (ChangedFile.filename file) ign /\
  isCodeFile (ChangedFile.filename file) = true.

#[global] Instance analyzed_dec `{GlobMatcher} ign file :
  Decision (analyzed ign file).
Proof. unfold analyzed, not_ignored. apply _. Defined.

(** The language whose control-flow pattern is used for a file. *)
Definition language_of (filename : string) : string :=
  default "js" (langMap (remove_first_dot (toLowerCase (extname filename)))).

(** The estimate for a file with the added text [content], whatever the
    state of the shared expressions. *)
Definition estimate_of (filename content : string) : ComplexityEstimate.t :=
  let lines := split_char "010" content in
  ComplexityEstimate.mk
    (length (control_flow_matches filename content) + 1)
    (fst (fold_left (nesting_step (language_of filename)) lines (0, 0)))
    (length (filter (fun line => THRESHOLDS.maxLineLength < String.length line) lines)).

(** What one entry of the catalogue reports on a text, and what the
    catalogue reports. *)
Definition smell_of (content : string) (sm : CodeSmellPattern.t) : list Smell.t :=
  match fst (String_match (CodeSmellPattern.pattern sm) content 0) with
  | Some ((_ :: _) as found) =>
      [Smell.mk (CodeSmellPattern.type sm) (length found) (CodeSmellPattern.message sm)]
  | _ => []
  end.

Definition smells_of (content : string) : list Smell.t :=
  flat_map (smell_of content) CODE_SMELL_PATTERNS.

(** The added text that the aggregator finds for a file: the entry of the
    parsed diff, unless it is missing or empty. *)
Definition content_of (diffContent : gmap string string) (file : ChangedFile.t)
    : option string :=
  match diffContent !! ChangedFile.filename file with
  | Some content => if is_empty content then None else Some content
  | None => None
  end.

(** The entries that one analyzed file contributes to the report. *)
Definition size_warnings (file : ChangedFile.t) : list Warning.t :=
  if decide (THRESHOLDS.largeAdditions < ChangedFile.additions file)%Z
  then [Warning.mk "size" "medium" (ChangedFile.filename file)
          (AddingLines (ChangedFile.additions file))]
  else [].

Definition large_entries (file : ChangedFile.t) : list LargeFile.t :=
  if decide (THRESHOLDS.largeAdditions < ChangedFile.additions file)%Z
  then [LargeFile.mk (ChangedFile.filename file) (ChangedFile.additions file)
          (ChangedFile.deletions file)
          (LargeFileChange (ChangedFile.additions file))]
  else [].

Definition content_warnings (filename : string) (est : ComplexityEstimate.t)
    : list Warning.t :=
  (if decide (THRESHOLDS.maxCyclomaticComplexity < ComplexityEstimate.complexity est)
   then [Warning.mk "complexity" "high" filename
           (ComplexityExceeds (ComplexityEstimate.complexity est)
              THRESHOLDS.maxCyclomaticComplexity)]
   else [])
  ++ (if decide (THRESHOLDS.maxNestingDepth < ComplexityEstimate.maxNesting est)
      then [Warning.mk "nesting" "medium" filename
              (DeepNesting (ComplexityEstimate.maxNesting est))]
      else [])
  ++ (if decide (0 < ComplexityEstimate.longLines est)
      then [Warning.mk "formatting" "low" filename
              (LongLines (ComplexityEstimate.longLines est) THRESHOLDS.maxLineLength)]
      else []).

Definition complex_entries (filename : string) (est : ComplexityEstimate.t)
    : list ComplexFile.t :=
  if decide (THRESHOLDS.maxCyclomaticComplexity < ComplexityEstimate.complexity est)
  then [ComplexFile.mk filename (ComplexityEstimate.complexity est)
          (HighComplexity (ComplexityEstimate.complexity est))]
  else [].

Definition file_warnings (diffContent : gmap string string) (file : ChangedFile.t)
    : list Warning.t :=
  size_warnings file ++
  match content_of diffContent file with
  | Some content =>
      content_warnings (ChangedFile.filename file)
        (estimate_of (ChangedFile.filename file) content)
  | None => []
  end.

Definition file_complex (diffContent : gmap string string) (file : ChangedFile.t)
    : list ComplexFile.t :=
  match content_of diffContent file with
  | Some content =>
      complex_entries (ChangedFile.filename file)
        (estimate_of (ChangedFile.filename file) content)
  | None => []
  end.

Definition file_smells (diffContent : gmap string string) (file : ChangedFile.t)
    : list CodeSmell.t :=
  match content_of diffContent file with
  | Some content => map (CodeSmell.mk (ChangedFile.filename file)) (smells_of content)
  | None => []
  end.

(** One analyzed file adds its entries at the end of each list. *)
Definition add_file (diffContent : gmap string string) (file : ChangedFile.t)
    (res : ComplexityReport.t) : ComplexityReport.t :=
  ComplexityReport.mk
    (ComplexityReport.warnings res ++ file_warnings diffContent file)
    (ComplexityReport.largeFiles res ++ large_entries file)
    (ComplexityReport.complexFiles res ++ file_complex diffContent file)
    (ComplexityReport.codeSmells res ++ file_smells diffContent file)
    (add_totals file (ComplexityReport.stats res)).

(** The sum of a list of line counts. *)
Definition total (counts : list Z) : Z := foldr Z.add 0%Z counts.

(** [Number.MAX_SAFE_INTEGER]. *)
Definition MAX_SAFE_INTEGER : Z := 9007199254740991.

(** Line counts that are not negative and whose sums stay within
    [MAX_SAFE_INTEGER]: the sums that the code computes for them are the
    integer sums. *)
Definition safe_counts (fs : list ChangedFile.t) : Prop :=
  (forall f, f ∈ fs ->
     (0 <= ChangedFile.additions f)%Z /\ (0 <= ChangedFile.deletions f)%Z) /\
  (total (map ChangedFile.additions fs) <= MAX_SAFE_INTEGER)%Z /\
  (total (map ChangedFile.deletions fs) <= MAX_SAFE_INTEGER)%Z.

(** The report of the loop over [files], before the statistics over the
    whole input are filled in. *)
Definition loop_report `{GlobMatcher} (diffContent : gmap string string)
    (ign : list JsPattern) (files : list ChangedFile.t) : ComplexityReport.t :=
  let fs := filter (analyzed ign) files in
  ComplexityReport.mk
    (flat_map (file_warnings diffContent) fs)
    (flat_map large_entries fs)
    (flat_map (file_complex diffContent) fs)
    (flat_map (file_smells diffContent) fs)
    (Stats.mk (total (map ChangedFile.additions fs))
              (total (map ChangedFile.deletions fs)) None 0).

(** A line that opens a block for the nesting estimate. *)
Definition opens_block (line : string) : bool :=
  includes "{" (trim line) || truthy (match_literal block_opener (trim line)).

(** The type and message of an entry of the catalogue, and of a reported
    smell. *)
Definition catalogue_kinds : list (string * string) :=
  map (fun sm => (CodeSmellPattern.type sm, CodeSmellPattern.message sm))
      CODE_SMELL_PATTERNS.

Definition smell_kind (s : Smell.t) : string * string :=
  (Smell.type s, Smell.message s).

(** A character that is neither a dot nor a slash, and a text made of such
    characters. *)
Definition plain_char (c : ascii) : bool :=
  negb (Ascii.eqb c ".") && negb (Ascii.eqb c "/").

Definition plain (s : string) : bool :=
  forallb plain_char (list_ascii_of_string s).

(** The lines of [result.details] of a complexity report, kept as a
    template and its arguments like the messages.  [getSmellIcon] looks
    the type up in a plain object: a type that names a property of
    [Object.prototype] yields that property instead of an icon. *)
Inductive SmellIcon : Type :=
| Memo
| Bug
| TestTube
| MutedSpeaker
| LockWithKey
| Hourglass
| Nose
| InheritedProperty (key : string).

Definition getSmellIcon (type : string) : SmellIcon :=
  if decide (type = "todo") then Memo
  else if decide (type = "debug") then Bug
  else if decide (type = "test") then TestTube
  else if decide (type = "lint") then MutedSpeaker
  else if decide (type = "security") then LockWithKey
  else if decide (type = "async") then Hourglass
  else if inherited type then InheritedProperty type
  else Nose.

Inductive Detail : Type :=
| LargeChangesDetail (files : nat) (threshold : Z)
| HighComplexityDetail (files : nat)
| SmellsDetail (icon : SmellIcon) (count : nat) (type : string)
| NoIssuesDetail.

(** [byType[type] = (byType[type] || 0) + 1] on the entries of [byType] in
    the order of their insertion.  The types counted are those of the
    catalogue: none of them is an array index or names a property of
    [Object.prototype], so [Object.entries] lists them in this order. *)
Fixpoint count_type (type : string) (byType : list (string * nat))
    : list (string * nat) :=
  match byType with
  | [] => [(type, 1)]
  | (t, n) :: rest =>
      if decide (t = type) then (t, n + 1) :: rest
      else (t, n) :: count_type type rest
  end.

Definition by_type (codeSmells : list CodeSmell.t) : list (string * nat) :=
  fold_left (fun byType s => count_type (Smell.type (CodeSmell.smell s)) byType)
            codeSmells [].

(** The block that generates the details, after the loop and the
    statistics. *)
Definition complexity_details (result : ComplexityReport.t) : list Detail :=
  let details := [] in
  let details :=
    if Nat.ltb 0 (length (ComplexityReport.largeFiles result))
    then details ++ [LargeChangesDetail (length (ComplexityReport.largeFiles result))
                       THRESHOLDS.largeAdditions]
    else details in
  let details :=
    if Nat.ltb 0 (length (ComplexityReport.complexFiles result))
    then details ++ [HighComplexityDetail (length (ComplexityReport.complexFiles result))]
    else details in
  let details :=
    if Nat.ltb 0 (length (ComplexityReport.codeSmells result))
    then details ++ map (fun '(type, count) => SmellsDetail (getSmellIcon type) count type)
                        (by_type (ComplexityReport.codeSmells result))
    else details in
  if (Nat.eqb (length (ComplexityReport.warnings result)) 0
      && Nat.eqb (length (ComplexityReport.codeSmells result)) 0)%bool
  then details ++ [NoIssuesDetail]
  else details.

(** The number of smells of a type in a list, and a diff that adds five
    opening braces to [app.js]. *)
Definition smells_of_type (type : string) (codeSmells : list CodeSmell.t) : nat :=
  length (filter (fun s => Smell.type (CodeSmell.smell s) = type) codeSmells).

Definition braces_diff : string :=
  unlines (["diff --git a/app.js b/app.js"; "--- a/app.js"; "+++ b/app.js";
            "@@ -0,0 +1,5 @@"] ++ repeat "+{" 5).

(** ** Properties of the combinators *)

Lemma bind_Ret {A B} (m : Exc A) (f : A -> Exc B) (b : B) :
  (m ≫= f) = Ret b -> exists a, m = Ret a /\ f a = Ret b.
Proof. destruct m as [a|e]; simpl; [eauto | discriminate]. Qed.

Lemma minimatch_returns `{GlobMatcher} (f : string) (p : JsPattern) :
  minimatch f p = if returns f p then Ret (matches f p) else Throw TypeError.
Proof.
  unfold returns, matches, glob, minimatch. destruct p as [s|]; [|reflexivity].
  destruct (valid_pattern (PatString s)); [|reflexivity].
  destruct (match_glob f s) as [b|[]]; reflexivity.
Qed.


Lemma filterM_minimatch `{GlobMatcher} (f : string) (rules : list RiskRule.t) :
  filterM (fun p => minimatch f (RiskRule.pattern p)) rules =
  if forallb (fun p => returns f (RiskRule.pattern p)) rules
  then Ret (matched_rules f rules) else Throw TypeError.
Proof.
  induction rules as [|p rules IH]; [reflexivity|].
  cbn [filterM forallb]. rewrite minimatch_returns.
  destruct (returns f (RiskRule.pattern p)); [|reflexivity].
  cbn [mbind Exc_bind]. rewrite IH.
  destruct (forallb _ rules); [|reflexivity].
  cbn [mbind Exc_bind]. unfold matched_rules. rewrite filter_cons.
  cbn [andb].
  destruct (matches f (RiskRule.pattern p)); case_decide; congruence.
Qed.

Lemma someM_false `{GlobMatcher} (f : string) (ign : list JsPattern) :
  someM (minimatch f) ign = Ret false ->
  forall p, p ∈ ign -> minimatch f p = Ret false.
Proof.
  induction ign as [|q ign IH]; intros Hs p Hp; [by apply elem_of_nil in Hp|].
  cbn in Hs. destruct (minimatch f q) as [[|]|] eqn:Hq; simpl in Hs; try discriminate.
  apply elem_of_cons in Hp as [->|Hp]; [assumption | by apply IH].
Qed.

Lemma someM_returns `{GlobMatcher} (f : string) (ign : list JsPattern) :
  forallb (returns f) ign = true ->
  someM (minimatch f) ign = Ret (existsb (matches f) ign).
Proof.
  induction ign as [|q ign IH]; [reflexivity|].
  cbn [forallb someM existsb]. intros [Hq Hign]%andb_prop.
  rewrite minimatch_returns, Hq. cbn.
  destruct (matches f q); [reflexivity | by apply IH].
Qed.

(** ** The severity fold *)

Lemma severityOrder_known (s : string) (n : nat) :
  severityOrder s = Some n -> s = severity_of_rank n /\ 1 <= n <= 3.
Proof.
  unfold severityOrder.
  repeat case_decide; intros Heq; simplify_eq; simpl; split; (reflexivity || lia).
Qed.

Lemma known_severity_rank (s : string) :
  known_severity s <-> severityOrder s <> None.
Proof.
  unfold known_severity, severityOrder. split.
  - intros [-> | [-> | ->]]; discriminate.
  - repeat case_decide; auto. congruence.
Qed.

Lemma severity_of_rank_known (s : string) :
  known_severity s -> severity_of_rank (rank s) = s.
Proof. intros [-> | [-> | ->]]; reflexivity. Qed.

Lemma rank_known (s : string) : known_severity s -> 1 <= rank s <= 3.
Proof.
  intros [-> | [-> | ->]];
    [change (rank "high") with 3 | change (rank "medium") with 2
     | change (rank "low") with 1]; lia.
Qed.

Lemma rank_unknown (s : string) : severityOrder s = None -> rank s = 0.
Proof. unfold rank. by intros ->. Qed.

Lemma severity_step_spec (h : string) (p : RiskRule.t) :
  known_severity h ->
  known_severity (severity_step h p) /\
  rank (severity_step h p) = Nat.max (rank h) (rank (RiskRule.severity p)).
Proof.
  intros Hh. unfold severity_step, js_gt.
  destruct (severityOrder (RiskRule.severity p)) as [n|] eqn:Hp.
  - destruct (severityOrder h) as [k|] eqn:Hk;
      [|by apply known_severity_rank in Hh].
    unfold rank. rewrite Hp, Hk. simpl.
    destruct (Nat.ltb_spec k n).
    + split; [apply known_severity_rank; congruence | rewrite Hp; simpl; lia].
    + split; [assumption | rewrite Hk; simpl; lia].
  - rewrite (rank_unknown _ Hp). split; [assumption | lia].
Qed.

Lemma severity_fold_spec (l : list RiskRule.t) (h : string) :
  known_severity h ->
  known_severity (fold_left severity_step l h) /\
  rank (fold_left severity_step l h) =
    Nat.max (rank h) (max_list (map (fun p => rank (RiskRule.severity p)) l)).
Proof.
  revert h. induction l as [|p l IH]; intros h Hh; simpl.
  - split; [assumption | lia].
  - destruct (severity_step_spec h p Hh) as [Hk Hr].
    destruct (IH _ Hk) as [Hk' Hr']. split; [assumption|].
    rewrite Hr', Hr. lia.
Qed.

Lemma getHighestSeverity_known (l : list RiskRule.t) :
  known_severity (getHighestSeverity l).
Proof. apply (severity_fold_spec l "low"). right; right; reflexivity. Qed.

Lemma getHighestSeverity_rank (l : list RiskRule.t) :
  rank (getHighestSeverity l) =
  Nat.max 1 (max_list (map (fun p => rank (RiskRule.severity p)) l)).
Proof. apply (severity_fold_spec l "low"). right; right; reflexivity. Qed.

Lemma getHighestSeverity_closed_form (l : list RiskRule.t) :
  getHighestSeverity l =
  severity_of_rank (Nat.max 1 (max_list (map (fun p => rank (RiskRule.severity p)) l))).
Proof.
  rewrite <- getHighestSeverity_rank.
  symmetry. apply severity_of_rank_known, getHighestSeverity_known.
Qed.

Lemma max_list_perm (l l' : list nat) : l ≡ₚ l' -> max_list l = max_list l'.
Proof. induction 1; simpl; lia. Qed.

Lemma getHighestSeverity_perm (l l' : list RiskRule.t) :
  l ≡ₚ l' -> getHighestSeverity l = getHighestSeverity l'.
Proof.
  intros Hp. rewrite !getHighestSeverity_closed_form.
  f_equal. f_equal. apply max_list_perm. by apply fmap_Permutation.
Qed.

Lemma getHighestSeverity_upper (l : list RiskRule.t) (p : RiskRule.t) :
  p ∈ l -> rank (RiskRule.severity p) <= rank (getHighestSeverity l).
Proof.
  intros Hp. rewrite getHighestSeverity_rank.
  assert (rank (RiskRule.severity p) <=
          max_list (map (fun p => rank (RiskRule.severity p)) l)); [|lia].
  apply max_list_elem_of_le. apply list_elem_of_fmap. eauto.
Qed.

Lemma max_list_attained (l : list nat) :
  l <> [] -> max_list l ∈ l.
Proof.
  induction l as [|x l IH]; [congruence|]. intros _. simpl.
  destruct l as [|y l].
  - simpl. rewrite Nat.max_0_r. apply list_elem_of_here.
  - destruct (Nat.max_spec x (max_list (y :: l))) as [[_ ->]|[_ ->]].
    + apply list_elem_of_further, IH. congruence.
    + apply list_elem_of_here.
Qed.

Lemma getHighestSeverity_attained (l : list RiskRule.t) :
  (exists p, p ∈ l /\ known_severity (RiskRule.severity p)) ->
  exists p, p ∈ l /\ RiskRule.severity p = getHighestSeverity l.
Proof.
  intros (p0 & Hp0 & Hk0).
  set (ranks := map (fun p => rank (RiskRule.severity p)) l).
  assert (Hne : ranks <> []) by (destruct l; [by apply elem_of_nil in Hp0 | discriminate]).
  apply max_list_attained in Hne.
  apply list_elem_of_fmap in Hne as (p & Hrp & Hp).
  assert (1 <= max_list ranks).
  { pose proof (rank_known _ Hk0).
    assert (rank (RiskRule.severity p0) <= max_list ranks); [|lia].
    apply max_list_elem_of_le, list_elem_of_fmap. eauto. }
  exists p. split; [assumption|].
  rewrite getHighestSeverity_closed_form. fold ranks.
  replace (Nat.max 1 (max_list ranks)) with (rank (RiskRule.severity p)) by lia.
  symmetry. apply severity_of_rank_known, known_severity_rank.
  unfold rank in Hrp. destruct (severityOrder (RiskRule.severity p)); [discriminate|].
  simpl in Hrp. lia.
Qed.

Lemma getHighestSeverity_unknown (l : list RiskRule.t) :
  (forall p, p ∈ l -> severityOrder (RiskRule.severity p) = None) ->
  getHighestSeverity l = "low".
Proof.
  intros Hu. rewrite getHighestSeverity_closed_form.
  assert (Hz : max_list (map (fun p => rank (RiskRule.severity p)) l) = 0).
  { induction l as [|p l IH]; [reflexivity|]. simpl.
    rewrite (rank_unknown _ (Hu p (list_elem_of_here _ _))).
    rewrite IH; [reflexivity|]. intros q Hq. apply Hu. by apply list_elem_of_further. }
  rewrite Hz. reflexivity.
Qed.

(** ** The loop of the classifier *)

Lemma for_of_invariant {A St} (P : St -> Prop) (body : A -> St -> Exc St)
    (l : list A) (st r : St) :
  P st ->
  (forall x s s', x ∈ l -> P s -> body x s = Ret s' -> P s') ->
  for_of body l st = Ret r -> P r.
Proof.
  revert st. induction l as [|x l IH]; intros st Hst Hstep Hrun.
  - cbn in Hrun. by simplify_eq.
  - cbn in Hrun. apply bind_Ret in Hrun as (s' & Hb & Hrun).
    apply (IH s'); [| |assumption].
    + apply (Hstep x st); [apply list_elem_of_here | assumption..].
    + intros y s s'' Hy. apply Hstep. by apply list_elem_of_further.
Qed.

Section RiskLoop.
Context `{GlobMatcher}.
Variables (rules : list RiskRule.t) (ign : list JsPattern).

Lemma risk_file_unfold (file : ChangedFile.t) (res : RiskReport.t) :
  risk_file rules ign file res =
  match someM (minimatch (ChangedFile.filename file)) ign with
  | Throw e => Throw e
  | Ret true => Ret res
  | Ret false =>
      if forallb (fun p => returns (ChangedFile.filename file) (RiskRule.pattern p))
           rules then
        match matched_rules (ChangedFile.filename file) rules with
        | [] => Ret res
        | _ =>
            byCategory ←
              for_of (add_to_category (ChangedFile.filename file))
                (RiskFinding.categories (finding_of rules file))
                (RiskReport.byCategory res);
            Ret (record_finding (finding_of rules file) byCategory res)
        end
      else Throw TypeError
  end.
Proof.
  unfold risk_file.
  destruct (someM _ ign) as [[|]|e]; cbn [mbind Exc_bind]; try reflexivity.
  rewrite filterM_minimatch.
  destruct (forallb _ rules); cbn [mbind Exc_bind]; [|reflexivity].
  unfold finding_of, record_finding. cbn [RiskFinding.categories RiskFinding.severity].
  destruct (matched_rules _ rules) as [|m ms] eqn:Hm; [reflexivity|].
  destruct (for_of _ _ _) as [bc|e]; cbn [mbind Exc_bind];
    repeat case_decide; try reflexivity; congruence.
Qed.

(** What a round of the loop that returns has done. *)
Lemma risk_file_Ret (file : ChangedFile.t) (res res' : RiskReport.t) :
  risk_file rules ign file res = Ret res' ->
  res' = res \/
  (not_ignored (ChangedFile.filename file) ign /\
   matched_rules (ChangedFile.filename file) rules <> [] /\
   exists byCategory,
     res' = record_finding (finding_of rules file) byCategory res).
Proof.
  rewrite risk_file_unfold. unfold not_ignored.
  destruct (someM _ ign) as [[|]|e]; try discriminate.
  { intros; left; congruence. }
  destruct (forallb _ rules); [|discriminate].
  destruct (matched_rules _ rules) as [|m ms] eqn:Hm.
  { intros; left; congruence. }
  intros (bc & _ & Hr)%bind_Ret. right.
  split; [reflexivity|]. split; [congruence|].
  exists bc. congruence.
Qed.

Lemma count_severity_app (s : string) (fs : list RiskFinding.t) (fd : RiskFinding.t) :
  count_severity s (fs ++ [fd]) =
  count_severity s fs + (if decide (RiskFinding.severity fd = s) then 1 else 0).
Proof.
  unfold count_severity. rewrite filter_app, length_app, filter_cons, filter_nil.
  case_decide; reflexivity.
Qed.

Lemma record_finding_counts (fd : RiskFinding.t)
    (bc : gmap string (list string)) (res : RiskReport.t) :
  known_severity (RiskFinding.severity fd) ->
  counts_agree res -> counts_agree (record_finding fd bc res).
Proof.
  intros Hk (Hh & Hm & Hl). unfold counts_agree, record_finding.
  cbn [RiskReport.files RiskReport.highRiskCount RiskReport.mediumRiskCount
       RiskReport.lowRiskCount].
  rewrite !count_severity_app, Hh, Hm, Hl.
  destruct Hk as [-> | [-> | ->]]; repeat case_decide; try congruence;
    repeat split; lia.
Qed.

Lemma finding_of_filename (file : ChangedFile.t) :
  RiskFinding.filename (finding_of rules file) = ChangedFile.filename file.
Proof. reflexivity. Qed.

Lemma finding_of_severity (file : ChangedFile.t) :
  RiskFinding.severity (finding_of rules file) =
  getHighestSeverity (matched_rules (ChangedFile.filename file) rules).
Proof. reflexivity. Qed.

Lemma risk_file_counts (file : ChangedFile.t) (res res' : RiskReport.t) :
  counts_agree res -> risk_file rules ign file res = Ret res' ->
  counts_agree res'.
Proof.
  intros Hc [->|(_ & _ & bc & ->)]%risk_file_Ret; [assumption|].
  apply record_finding_counts; [|assumption].
  rewrite finding_of_severity. apply getHighestSeverity_known.
Qed.

Lemma risk_file_sound (file : ChangedFile.t) (res res' : RiskReport.t) :
  findings_sound rules ign res -> risk_file rules ign file res = Ret res' ->
  findings_sound rules ign res'.
Proof.
  intros Hs [->|(Hn & Hm & bc & ->)]%risk_file_Ret; [assumption|].
  intros fd [Hfd| ->%list_elem_of_singleton]%elem_of_app; [by apply Hs|].
  rewrite finding_of_filename, finding_of_severity. auto.
Qed.

Lemma classify_counts (files : list ChangedFile.t) (r : RiskReport.t) :
  classify files rules ign = Ret r -> counts_agree r.
Proof.
  apply (for_of_invariant counts_agree).
  - repeat split.
  - intros file s s' _. apply risk_file_counts.
Qed.

Lemma classify_sound (files : list ChangedFile.t) (r : RiskReport.t) :
  classify files rules ign = Ret r -> findings_sound rules ign r.
Proof.
  apply (for_of_invariant (findings_sound rules ign)).
  - intros fd Hfd. by apply elem_of_nil in Hfd.
  - intros file s s' _. apply risk_file_sound.
Qed.

Lemma count_severity_total (fs : list RiskFinding.t) :
  (forall fd, fd ∈ fs -> known_severity (RiskFinding.severity fd)) ->
  count_severity "high" fs + count_severity "medium" fs + count_severity "low" fs
  = length fs.
Proof.
  induction fs as [|fd fs IH]; intros Hk; [reflexivity|].
  unfold count_severity in *. rewrite !filter_cons. cbn [length].
  rewrite <- IH by (intros; apply Hk; by apply list_elem_of_further).
  destruct (Hk fd (list_elem_of_here _ _)) as [-> | [-> | ->]];
    repeat case_decide; try congruence; cbn [length]; lia.
Qed.
End RiskLoop.

Section RiskReportShape.
Context `{GlobMatcher}.
Variables (rules : list RiskRule.t) (ign : list JsPattern).

(** The findings of a report, in closed form. *)
Lemma for_of_risk_files (files : list ChangedFile.t) (acc r : RiskReport.t) :
  for_of (risk_file rules ign) files acc = Ret r ->
  RiskReport.files r =
  RiskReport.files acc ++ map (finding_of rules) (filter (reported rules ign) files).
Proof.
  revert acc. induction files as [|file files IH]; intros acc Hrun.
  - cbn in Hrun. simplify_eq. cbn. by rewrite app_nil_r.
  - cbn [for_of] in Hrun. apply bind_Ret in Hrun as (acc' & Hstep & Hrun).
    rewrite (IH _ Hrun), filter_cons.
    pose proof Hstep as Hstep'. rewrite risk_file_unfold in Hstep'.
    apply risk_file_Ret in Hstep as [->|(Hn & Hm & bc & ->)].
    + case_decide as Hrep; [|reflexivity].
      destruct Hrep as [Hn Hm]. unfold not_ignored in Hn. rewrite Hn in Hstep'.
      destruct (forallb _ rules); [|discriminate].
      destruct (matched_rules _ rules) as [|m ms] eqn:Hms; [congruence|].
      apply bind_Ret in Hstep' as (bc & _ & Heq). injection Heq as Heq.
      apply (f_equal RiskReport.files) in Heq. cbn in Heq.
      apply (f_equal length) in Heq. rewrite length_app in Heq. cbn in Heq. lia.
    + rewrite decide_True by (split; assumption).
      cbn [record_finding RiskReport.files map]. by rewrite <- app_assoc.
Qed.

Lemma classify_files (files : list ChangedFile.t) (r : RiskReport.t) :
  classify files rules ign = Ret r ->
  RiskReport.files r = map (finding_of rules) (filter (reported rules ign) files).
Proof. intros Hrun. by rewrite (for_of_risk_files _ _ _ Hrun). Qed.
End RiskReportShape.

(** ** The category index *)

Lemma set_of_acc_spec (l acc : list string) :
  NoDup acc ->
  NoDup (fold_left set_add l acc) /\
  forall x, x ∈ fold_left set_add l acc <-> x ∈ acc \/ x ∈ l.
Proof.
  revert acc. induction l as [|y l IH]; intros acc Hnd; cbn [fold_left].
  - split; [assumption|]. intros x. rewrite elem_of_nil. tauto.
  - unfold set_add at 2 4. case_bool_decide as Hy.
    + destruct (IH acc Hnd) as [Hn He]. split; [assumption|].
      intros x. rewrite He, elem_of_cons. split; [tauto|].
      intros [?|[->|?]]; auto.
    + assert (Hnd' : NoDup (acc ++ [y])).
      { apply NoDup_app. repeat split; [assumption| |apply NoDup_singleton].
        intros x Hx ->%list_elem_of_singleton. contradiction. }
      destruct (IH _ Hnd') as [Hn He]. split; [assumption|].
      intros x. rewrite He, elem_of_app, list_elem_of_singleton, elem_of_cons. tauto.
Qed.

Lemma set_of_NoDup (l : list string) : NoDup (set_of l).
Proof. apply (set_of_acc_spec l []), NoDup_nil_2. Qed.

Lemma elem_of_set_of (l : list string) (x : string) : x ∈ set_of l <-> x ∈ l.
Proof.
  destruct (set_of_acc_spec l [] (NoDup_nil_2)) as [_ He].
  unfold set_of. rewrite He, elem_of_nil. tauto.
Qed.

Lemma set_of_perm (l l' : list string) : l ≡ₚ l' -> set_of l ≡ₚ set_of l'.
Proof.
  intros Hp. apply NoDup_Permutation; [apply set_of_NoDup..|].
  intros x. rewrite !elem_of_set_of. by rewrite Hp.
Qed.

Lemma lookup_insert_all (g : string -> list string) (cats : list string)
    (base : gmap string (list string)) (k : string) :
  insert_all g cats base !! k =
  if decide (k ∈ cats) then Some (g k) else base !! k.
Proof.
  induction cats as [|c cats IH]; cbn [insert_all foldr].
  - rewrite decide_False; [reflexivity | apply not_elem_of_nil].
  - destruct (decide (k = c)) as [->|Hne].
    + rewrite lookup_insert_eq, decide_True; [reflexivity | apply list_elem_of_here].
    + rewrite lookup_insert_ne by congruence. fold (insert_all g cats base).
      rewrite IH. destruct (decide (k ∈ cats)) as [Hin|Hin].
      * rewrite decide_True; [reflexivity | by apply list_elem_of_further].
      * rewrite decide_False; [reflexivity|].
        rewrite elem_of_cons. tauto.
Qed.

Lemma insert_all_perm (g : string -> list string) (cats cats' : list string)
    (base : gmap string (list string)) :
  cats ≡ₚ cats' -> insert_all g cats base = insert_all g cats' base.
Proof.
  intros Hp. apply map_eq. intros k. rewrite !lookup_insert_all.
  destruct (decide (k ∈ cats)) as [Hin|Hin].
  - rewrite decide_True; [reflexivity | by rewrite <- Hp].
  - rewrite decide_False; [reflexivity | by rewrite <- Hp].
Qed.

Lemma existsb_perm {A} (f : A -> bool) (l l' : list A) :
  l ≡ₚ l' -> existsb f l = existsb f l'.
Proof.
  induction 1; cbn [existsb]; try congruence.
  destruct (f x), (f y); reflexivity.
Qed.

Lemma forallb_perm {A} (f : A -> bool) (l l' : list A) :
  l ≡ₚ l' -> forallb f l = forallb f l'.
Proof.
  induction 1; cbn [forallb]; try congruence.
  destruct (f x), (f y); reflexivity.
Qed.

(** The loop over the categories of a finding, in closed form. *)
Lemma for_of_add_to_category (fn : string) (bc0 : gmap string (list string))
    (cats : list string) (bc : gmap string (list string)) :
  NoDup cats ->
  (forall c, c ∈ cats -> bc !! c = bc0 !! c) ->
  for_of (add_to_category fn) cats bc =
  if category_clash bc0 cats then Throw TypeError
  else Ret (insert_all (pushed fn bc0) cats bc).
Proof.
  revert bc. induction cats as [|c cats IH]; intros bc Hnd Hagree; [reflexivity|].
  apply NoDup_cons in Hnd as [Hc Hnd].
  cbn [for_of category_clash existsb]. fold (category_clash bc0 cats).
  assert (Hstep : add_to_category fn c bc =
    match bc0 !! c with
    | Some l => Ret (<[c := l ++ [fn]]> bc)
    | None => if inherited c then Throw TypeError else Ret (<[c := [fn]]> bc)
    end).
  { unfold add_to_category. by rewrite (Hagree c (list_elem_of_here _ _)). }
  rewrite Hstep. clear Hstep.
  assert (Hnext : forall v c', c' ∈ cats -> <[c := v]> bc !! c' = bc0 !! c').
  { intros v c' Hc'. rewrite lookup_insert_ne by (intros ->; contradiction).
    apply Hagree. by apply list_elem_of_further. }
  assert (Hcomm : forall v,
    insert_all (pushed fn bc0) cats (<[c := v]> bc) =
    <[c := v]> (insert_all (pushed fn bc0) cats bc)).
  { intros v. apply map_eq. intros k. rewrite lookup_insert_all.
    destruct (decide (k = c)) as [->|Hne].
    - rewrite decide_False by assumption. by rewrite !lookup_insert_eq.
    - rewrite !lookup_insert_ne by congruence. by rewrite lookup_insert_all. }
  destruct (bc0 !! c) as [l|] eqn:Hl.
  - rewrite bool_decide_eq_false_2 by discriminate. cbn [andb orb mbind Exc_bind].
    rewrite (IH _ Hnd (Hnext _)). destruct (category_clash bc0 cats); [reflexivity|].
    cbn [insert_all foldr]. fold (insert_all (pushed fn bc0) cats bc).
    rewrite Hcomm. unfold pushed at 2. by rewrite Hl.
  - rewrite bool_decide_eq_true_2 by reflexivity. cbn [andb orb].
    destruct (inherited c); [reflexivity|]. cbn [orb mbind Exc_bind].
    rewrite (IH _ Hnd (Hnext _)). destruct (category_clash bc0 cats); [reflexivity|].
    cbn [insert_all foldr]. fold (insert_all (pushed fn bc0) cats bc).
    rewrite Hcomm. unfold pushed at 2. by rewrite Hl.
Qed.

Lemma for_of_add_to_category_perm (fn : string) (cats cats' : list string)
    (bc : gmap string (list string)) :
  NoDup cats -> cats ≡ₚ cats' ->
  for_of (add_to_category fn) cats bc = for_of (add_to_category fn) cats' bc.
Proof.
  intros Hnd Hp.
  rewrite (for_of_add_to_category fn bc cats bc), (for_of_add_to_category fn bc cats' bc);
    auto; [|by rewrite <- Hp].
  unfold category_clash. rewrite (existsb_perm _ _ _ Hp).
  by rewrite (insert_all_perm _ _ _ _ Hp).
Qed.

(** ** Permuting the rule list *)

Lemma for_of_related {A St} (R : St -> St -> Prop)
    (body body' : A -> St -> Exc St) (l : list A) (st st' : St) :
  R st st' ->
  (forall x s s', R s s' -> Exc_rel R (body x s) (body' x s')) ->
  Exc_rel R (for_of body l st) (for_of body' l st').
Proof.
  intros Hst Hstep. revert st st' Hst.
  induction l as [|x l IH]; intros st st' Hst; [exact Hst|].
  cbn [for_of]. specialize (Hstep x st st' Hst).
  destruct (body x st) as [s|e], (body' x st') as [s'|e'];
    cbn [mbind Exc_bind]; try contradiction; [by apply IH | exact Hstep].
Qed.

Section Permuted.
Context `{GlobMatcher}.
Variables (rules rules' : list RiskRule.t) (ign : list JsPattern).
Hypothesis Hperm : rules ≡ₚ rules'.

Lemma matched_rules_perm (fn : string) :
  matched_rules fn rules ≡ₚ matched_rules fn rules'.
Proof. unfold matched_rules. by rewrite Hperm. Qed.

Lemma finding_of_perm (file : ChangedFile.t) :
  RiskFinding.filename (finding_of rules file) = RiskFinding.filename (finding_of rules' file) /\
  RiskFinding.severity (finding_of rules file) = RiskFinding.severity (finding_of rules' file) /\
  RiskFinding.categories (finding_of rules file) ≡ₚ RiskFinding.categories (finding_of rules' file).
Proof.
  pose proof (matched_rules_perm (ChangedFile.filename file)) as Hm.
  split; [reflexivity|]. split.
  - by apply getHighestSeverity_perm.
  - cbn. apply set_of_perm. change (RiskRule.category <$> matched_rules (ChangedFile.filename file) rules
      ≡ₚ RiskRule.category <$> matched_rules (ChangedFile.filename file) rules').
    by rewrite Hm.
Qed.

Lemma record_finding_same (fd fd' : RiskFinding.t)
    (bc : gmap string (list string)) (res res' : RiskReport.t) :
  RiskFinding.filename fd = RiskFinding.filename fd' ->
  RiskFinding.severity fd = RiskFinding.severity fd' ->
  same_verdicts res res' ->
  same_verdicts (record_finding fd bc res) (record_finding fd' bc res').
Proof.
  intros Hf Hs (Hv & Hh & Hm & Hl & _).
  unfold same_verdicts, severities, record_finding in *.
  cbn [RiskReport.files RiskReport.highRiskCount RiskReport.mediumRiskCount
       RiskReport.lowRiskCount RiskReport.byCategory].
  rewrite !map_app. cbn [map]. rewrite Hv, Hh, Hm, Hl, Hf, Hs.
  repeat split; reflexivity.
Qed.

Lemma risk_file_perm (file : ChangedFile.t) (res res' : RiskReport.t) :
  same_verdicts res res' ->
  Exc_rel same_verdicts (risk_file rules ign file res)
                        (risk_file rules' ign file res').
Proof.
  intros Hres. rewrite !risk_file_unfold.
  destruct (someM _ ign) as [[|]|e]; [exact Hres| |reflexivity].
  rewrite <- (forallb_perm _ _ _ Hperm).
  destruct (forallb _ rules); [|reflexivity].
  pose proof (matched_rules_perm (ChangedFile.filename file)) as Hm.
  destruct (finding_of_perm file) as (Hf & Hs & Hc).
  destruct (matched_rules _ rules) as [|m ms] eqn:E,
           (matched_rules _ rules') as [|m' ms'] eqn:E'.
  - exact Hres.
  - by apply Permutation_nil_cons in Hm.
  - symmetry in Hm. by apply Permutation_nil_cons in Hm.
  - destruct Hres as (Hv & Hh & Hmd & Hl & Hbc).
    rewrite <- Hbc.
    rewrite <- (for_of_add_to_category_perm _ _ _ _ (set_of_NoDup _) Hc).
    destruct (for_of _ _ _) as [bc|e]; cbn [mbind Exc_bind]; [|reflexivity].
    apply record_finding_same; [assumption..|]. repeat split; assumption.
Qed.

Lemma classify_perm (files : list ChangedFile.t) :
  Exc_rel same_verdicts (classify files rules ign) (classify files rules' ign).
Proof.
  apply for_of_related; [repeat split|].
  intros file s s'. apply risk_file_perm.
Qed.
End Permuted.

(** ** The risk classifier: statements *)

Ltac run := vm_compute; reflexivity.

Lemma classify_known_severity `{GlobMatcher} files rules ign r fd :
  classify files rules ign = Ret r -> fd ∈ RiskReport.files r ->
  known_severity (RiskFinding.severity fd).
Proof.
  intros Hrun Hfd. destruct (classify_sound _ _ _ _ Hrun fd Hfd) as (_ & _ & ->).
  apply getHighestSeverity_known.
Qed.

Lemma classify_counts_partition `{GlobMatcher} files rules ign r :
  classify files rules ign = Ret r -> counts_partition r.
Proof.
  intros Hrun. pose proof (classify_counts _ _ _ _ Hrun) as Hc.
  split; [|assumption]. destruct Hc as (-> & -> & ->).
  apply count_severity_total. intros fd. by apply (classify_known_severity files rules ign).
Qed.

Lemma analyzeRisk_classify `{GlobMatcher} files cps ign r :
  analyzeRisk files cps ign = Ret r ->
  exists custom, mapM custom_rule cps = Ret custom /\
    classify files (DEFAULT_RISK_PATTERNS ++ custom) ign = Ret r.
Proof. intros (custom & Hc & Hr)%bind_Ret. eauto. Qed.

(** C2.  The severity of a finding is the greatest severity, in
    [high > medium > low], among the rules that match the file: it bounds
    the severity of every matching rule and is the severity of one of them.
    Every file of the input that is not ignored and matches a rule has a
    finding, which carries that severity.  Permuting the rule list changes
    neither the severity of any finding nor the counters (nor whether the
    run returns). *)
Theorem severity_is_max_and_order_independent `{GlobMatcher}
    (files : list ChangedFile.t) (rules rules' : list RiskRule.t)
    (ign : list JsPattern) :
  rules ≡ₚ rules' ->
  Exc_rel same_verdicts (classify files rules ign) (classify files rules' ign) /\
  (forall r fd,
     classify files rules ign = Ret r -> fd ∈ RiskReport.files r ->
     let ms := matched_rules (RiskFinding.filename fd) rules in
     RiskFinding.severity fd = getHighestSeverity ms /\
     known_severity (RiskFinding.severity fd) /\
     (forall p, p ∈ ms ->
        rank (RiskRule.severity p) <= rank (RiskFinding.severity fd)) /\
     ((exists p, p ∈ ms /\ known_severity (RiskRule.severity p)) ->
      exists p, p ∈ ms /\ RiskRule.severity p = RiskFinding.severity fd)) /\
  (forall r file,
     classify files rules ign = Ret r -> file ∈ files ->
     not_ignored (ChangedFile.filename file) ign ->
     matched_rules (ChangedFile.filename file) rules <> [] ->
     exists fd,
       fd ∈ RiskReport.files r /\
       RiskFinding.filename fd = ChangedFile.filename file /\
       RiskFinding.severity fd
         = getHighestSeverity (matched_rules (ChangedFile.filename file) rules) /\
       forall r',
         classify files rules' ign = Ret r' ->
         exists fd',
           fd' ∈ RiskReport.files r' /\
           RiskFinding.filename fd' = ChangedFile.filename file /\
           RiskFinding.severity fd' = RiskFinding.severity fd).
Proof.
  intros Hperm. split; [by apply classify_perm|]. split.
  - intros r fd Hrun Hfd ms.
    destruct (classify_sound _ _ _ _ Hrun fd Hfd) as (_ & _ & Hs).
    fold ms in Hs. rewrite Hs. repeat split.
    + apply getHighestSeverity_known.
    + intros p. apply getHighestSeverity_upper.
    + apply getHighestSeverity_attained.
  - intros r file Hrun Hfile Hn Hm.
    assert (Hin : forall rs r0, classify files rs ign = Ret r0 ->
              matched_rules (ChangedFile.filename file) rs <> [] ->
              finding_of rs file ∈ RiskReport.files r0).
    { intros rs r0 Hr0 Hms. rewrite (classify_files _ _ _ _ Hr0).
      change (finding_of rs file ∈ finding_of rs <$> filter (reported rs ign) files).
      apply list_elem_of_fmap_2, list_elem_of_filter. split; [split|]; assumption. }
    exists (finding_of rules file). split; [by apply Hin|].
    split; [reflexivity|]. split; [reflexivity|].
    intros r' Hrun'. exists (finding_of rules' file). split.
    + apply Hin; [assumption|]. intros Hnil. apply Hm.
      apply Permutation_nil_r. rewrite <- Hnil. by apply matched_rules_perm.
    + split; [reflexivity|]. symmetry. by apply finding_of_perm.
Qed.

Lemma severity_is_max_and_order_independent_witness :
  payment_rules ≡ₚ payment_rules_swapped /\
  Exc_rel same_verdicts
    (classify (H := simple_glob) [checkout_js; env_production] payment_rules [])
    (classify (H := simple_glob) [checkout_js; env_production]
       payment_rules_swapped []) /\
  exists r,
    classify (H := simple_glob) [checkout_js; env_production] payment_rules []
      = Ret r /\
    severities r = [("src/payments/checkout.js", "high")] /\
    exists fd,
      fd ∈ RiskReport.files r /\
      RiskFinding.filename fd = "src/payments/checkout.js" /\
      RiskFinding.severity fd = "high".
Proof.
  assert (Hp : payment_rules ≡ₚ payment_rules_swapped) by apply perm_swap.
  pose proof (severity_is_max_and_order_independent (H := simple_glob)
                [checkout_js; env_production] payment_rules
                payment_rules_swapped [] Hp) as (Hrel & _ & Hfinding).
  split; [exact Hp|]. split; [exact Hrel|].
  eexists. split; [run|]. split; [reflexivity|].
  destruct (Hfinding _ checkout_js eq_refl) as (fd & Hfd & Hname & Hsev & _).
  - apply list_elem_of_here.
  - reflexivity.
  - discriminate.
  - exists fd. split; [exact Hfd|]. split; [exact Hname|]. rewrite Hsev. reflexivity.
Defined.

(** C3.  In every report the classifier returns, the three counters add up
    to the number of findings, and each counter is the number of findings
    of its severity. *)
Theorem risk_counts_partition_findings `{GlobMatcher}
    (files : list ChangedFile.t) (rules : list RiskRule.t)
    (customPatterns : list CustomPattern) (ign : list JsPattern) :
  (forall r, classify files rules ign = Ret r -> counts_partition r) /\
  (forall r, analyzeRisk files customPatterns ign = Ret r -> counts_partition r).
Proof.
  split.
  - intros r. apply classify_counts_partition.
  - intros r (custom & _ & Hr)%analyzeRisk_classify.
    by apply classify_counts_partition in Hr.
Qed.

Lemma risk_counts_partition_findings_witness :
  exists r,
    analyzeRisk (H := simple_glob)
      [env_production; package_lock; vendor_settings; checkout_js]
      [CustomString "**/payments/**"] [PatString "**/vendor/**"] = Ret r /\
    RiskReport.highRiskCount r = 1 /\ RiskReport.mediumRiskCount r = 1 /\
    RiskReport.lowRiskCount r = 1 /\ counts_partition r.
Proof.
  eexists. split; [run|]. do 3 (split; [reflexivity|]).
  apply (proj2 (risk_counts_partition_findings (H := simple_glob)
                  [env_production; package_lock; vendor_settings; checkout_js]
                  [] [CustomString "**/payments/**"] [PatString "**/vendor/**"])).
  run.
Defined.

(** C10.  A file that is not ignored and whose matching rules all carry a
    severity outside [high], [medium], [low] gets a finding of severity
    [low], and that finding is counted by [lowRiskCount]. *)
Theorem unknown_severity_counts_as_low `{GlobMatcher}
    (files : list ChangedFile.t) (rules : list RiskRule.t)
    (ign : list JsPattern) (r : RiskReport.t) (file : ChangedFile.t) :
  classify files rules ign = Ret r ->
  file ∈ files ->
  not_ignored (ChangedFile.filename file) ign ->
  matched_rules (ChangedFile.filename file) rules <> [] ->
  (forall p, p ∈ matched_rules (ChangedFile.filename file) rules ->
     ~ known_severity (RiskRule.severity p)) ->
  finding_of rules file ∈ RiskReport.files r /\
  RiskFinding.severity (finding_of rules file) = "low" /\
  (forall fd, fd ∈ RiskReport.files r ->
     RiskFinding.filename fd = ChangedFile.filename file ->
     RiskFinding.severity fd = "low") /\
  RiskReport.lowRiskCount r = count_severity "low" (RiskReport.files r) /\
  1 <= RiskReport.lowRiskCount r.
Proof.
  intros Hrun Hfile Hn Hm Hunknown.
  assert (Hlow : getHighestSeverity (matched_rules (ChangedFile.filename file) rules) = "low").
  { apply getHighestSeverity_unknown. intros p Hp.
    destruct (severityOrder (RiskRule.severity p)) eqn:E; [|reflexivity].
    exfalso. apply (Hunknown p Hp), known_severity_rank. congruence. }
  assert (Hin : finding_of rules file ∈ RiskReport.files r).
  { rewrite (classify_files _ _ _ _ Hrun).
    change (finding_of rules file ∈ finding_of rules <$> filter (reported rules ign) files).
    apply list_elem_of_fmap_2, list_elem_of_filter. split; [split|]; assumption. }
  destruct (classify_counts _ _ _ _ Hrun) as (_ & _ & Hl).
  repeat split; try assumption.
  - intros fd Hfd Hname.
    destruct (classify_sound _ _ _ _ Hrun fd Hfd) as (_ & _ & ->). by rewrite Hname.
  - rewrite Hl. unfold count_severity.
    assert (Hf : finding_of rules file ∈
              filter (fun fd => RiskFinding.severity fd = "low") (RiskReport.files r))
      by (apply list_elem_of_filter; split; assumption).
    destruct (filter _ (RiskReport.files r)); [by apply elem_of_nil in Hf | cbn; lia].
Qed.

Lemma unknown_severity_counts_as_low_witness :
  exists r,
    classify (H := simple_glob) [env_production; checkout_js]
      (DEFAULT_RISK_PATTERNS ++ [payments_rule "critical"]) [] = Ret r /\
    RiskFinding.severity
      (finding_of (H := simple_glob)
         (DEFAULT_RISK_PATTERNS ++ [payments_rule "critical"]) checkout_js) = "low" /\
    RiskReport.lowRiskCount r = 1.
Proof.
  eexists. split; [run|].
  assert (Hm : matched_rules (H := simple_glob) (ChangedFile.filename checkout_js)
                 (DEFAULT_RISK_PATTERNS ++ [payments_rule "critical"])
               = [payments_rule "critical"]) by run.
  split; [|reflexivity].
  refine (proj1 (proj2 (unknown_severity_counts_as_low (H := simple_glob)
            [env_production; checkout_js]
            (DEFAULT_RISK_PATTERNS ++ [payments_rule "critical"]) [] _ checkout_js
            _ _ _ _ _))).
  - run.
  - apply list_elem_of_further, list_elem_of_here.
  - run.
  - rewrite Hm. discriminate.
  - rewrite Hm. intros p ->%list_elem_of_singleton [Hk | [Hk | Hk]]; discriminate Hk.
Defined.


(** ** The shared regular expressions *)

Lemma search_unfold (fl : Flags) (r : regex) (prev : option ascii) (s : string)
    (i : nat) :
  search fl r prev s i =
  match rmatch fl r prev s [] accept with
  | Some (rest, caps) =>
      let n := String.length s - String.length rest in
      Some (mkMatch i (i + n) (substring_to n s) caps)
  | None =>
      match s with
      | EmptyString => None
      | String c s' => search fl r (Some c) s' (S i)
      end
  end.
Proof. destruct s; reflexivity. Qed.

Lemma search_bounds (fl : Flags) (r : regex) (prev : option ascii) (s : string)
    (i : nat) (m : Match) :
  search fl r prev s i = Some m ->
  i <= m_index m <= m_end m /\
  (is_empty (m_text m) = false -> m_index m < m_end m).
Proof.
  revert prev i. induction s as [|c s IH]; intros prev i; rewrite search_unfold;
    destruct (rmatch fl r prev _ [] accept) as [[rest caps]|]; try discriminate.
  - intros Heq. cbv zeta in Heq. simplify_eq. cbn [m_index m_end m_text].
    split; [lia|]. cbn. discriminate.
  - intros Heq. cbv zeta in Heq. simplify_eq. cbn [m_index m_end m_text].
    split; [lia|].
    destruct (String.length (String c s) - String.length rest) eqn:E;
      [cbn; discriminate | intros _; lia].
  - intros Hm. apply IH in Hm as [Hi Hne]. split; [lia | exact Hne].
Qed.

Lemma search_from_bounds (fl : Flags) (r : regex) (from : nat) :
  forall (prev : option ascii) (s : string) (i : nat) (m : Match),
  search_from fl r prev s i from = Some m ->
  from <= String.length s /\
  i + from <= m_index m <= m_end m /\
  (is_empty (m_text m) = false -> m_index m < m_end m).
Proof.
  induction from as [|from IH]; intros prev s i m; cbn [search_from].
  - intros Hm%search_bounds. split; [lia|]. split; [lia|tauto].
  - destruct s as [|c s]; [discriminate|].
    intros Hm%IH. cbn [String.length]. split; [lia|]. split; [lia|tauto].
Qed.

(** Enough fuel: the loop of [match] ends because exec fails, which leaves
    [lastIndex] at 0. *)
Lemma match_loop_resets (R : RegExp) (subject : string) :
  fl_global (re_flags R) = true ->
  forall fuel lastIndex acc,
    1 <= fuel -> String.length subject + 2 <= fuel + lastIndex ->
    snd (match_loop fuel R subject lastIndex acc) = 0.
Proof.
  intros Hg. induction fuel as [|fuel IH]; intros li acc Hf Hbound; [lia|].
  cbn [match_loop]. unfold RegExpBuiltinExec. rewrite Hg.
  destruct (search_from _ _ None subject 0 li) as [m|] eqn:Hs; [|reflexivity].
  apply search_from_bounds in Hs as (Hli & Hidx & Hne).
  apply IH; [lia|].
  destruct (is_empty (m_text m)); [lia|]. specialize (Hne eq_refl). lia.
Qed.

(** More fuel than that changes nothing. *)
Lemma match_loop_fuel (R : RegExp) (subject : string) :
  fl_global (re_flags R) = true ->
  forall fuel fuel' lastIndex acc,
    1 <= fuel -> String.length subject + 2 <= fuel + lastIndex -> fuel <= fuel' ->
    match_loop fuel' R subject lastIndex acc = match_loop fuel R subject lastIndex acc.
Proof.
  intros Hg. induction fuel as [|fuel IH]; intros fuel' li acc Hf Hbound Hle; [lia|].
  destruct fuel' as [|fuel']; [lia|].
  cbn [match_loop]. unfold RegExpBuiltinExec. rewrite Hg.
  destruct (search_from _ _ None subject 0 li) as [m|] eqn:Hs; [|reflexivity].
  apply search_from_bounds in Hs as (Hli & Hidx & Hne).
  apply IH; [lia| |lia].
  destruct (is_empty (m_text m)); [lia|]. specialize (Hne eq_refl). lia.
Qed.

Lemma String_match_global (R : RegExp) (subject : string) (lastIndex : nat) :
  fl_global (re_flags R) = true ->
  String_match R subject lastIndex = (fst (String_match R subject 0), 0).
Proof.
  intros Hg. unfold String_match. rewrite Hg.
  pose proof (match_loop_resets R subject Hg (String.length subject + 2) 0 []) as Hz.
  destruct (match_loop _ R subject 0 []) as [ms li]. cbn in *.
  rewrite Hz; [reflexivity|lia..].
Qed.

Lemma String_match_result (R : RegExp) (subject : string) (li li' : nat) :
  fst (String_match R subject li) = fst (String_match R subject li').
Proof.
  unfold String_match, RegExpBuiltinExec.
  destruct (fl_global (re_flags R)); reflexivity.
Qed.

Lemma control_flow_global (lang : string) (R : RegExp) :
  CONTROL_FLOW_PATTERNS lang = Some R -> fl_global (re_flags R) = true.
Proof.
  unfold CONTROL_FLOW_PATTERNS.
  repeat case_decide; intros Heq; simplify_eq; reflexivity.
Qed.

Lemma code_smells_global :
  forallb (fun sm => fl_global (re_flags (CodeSmellPattern.pattern sm)))
          CODE_SMELL_PATTERNS = true.
Proof. reflexivity. Qed.

(** ** Computations on the store *)

Lemma M_bind_Ret {A B} (m : M A) (f : A -> M B) (σ σ' : Store) (b : B) :
  (m ≫= f) σ = (Ret b, σ') ->
  exists a σ1, m σ = (Ret a, σ1) /\ f a σ1 = (Ret b, σ').
Proof.
  unfold mbind, M_bind. destruct (m σ) as [[a|e] σ1]; [eauto|discriminate].
Qed.

Lemma independent_ret {A} (a : A) : store_independent (mret a : M A).
Proof. intros σ σ'. reflexivity. Qed.

Lemma independent_lift {A} (e : Exc A) : store_independent (lift e).
Proof. intros σ σ'. reflexivity. Qed.

Lemma independent_bind {A B} (m : M A) (f : A -> M B) :
  store_independent m -> (forall a, store_independent (f a)) ->
  store_independent (m ≫= f).
Proof.
  intros Hm Hf σ σ'. unfold mbind, M_bind. specialize (Hm σ σ').
  destruct (m σ) as [[a|e] σ1], (m σ') as [[a'|e'] σ1']; cbn in Hm;
    simplify_eq; [apply Hf | reflexivity].
Qed.

Lemma independent_match_shared (id : RegexId) (R : RegExp) (content : string) :
  store_independent (match_shared id R content).
Proof.
  intros σ σ'. unfold match_shared.
  pose proof (String_match_result R content (σ id) (σ' id)) as Hr.
  destruct (String_match R content (σ id)), (String_match R content (σ' id)).
  cbn in *. congruence.
Qed.

Lemma independent_for_ofM {A St} (body : A -> St -> M St) (l : list A) :
  (forall x st, store_independent (body x st)) ->
  forall st, store_independent (for_ofM body l st).
Proof.
  intros Hb. induction l as [|x l IH]; intros st; cbn [for_ofM].
  - apply independent_ret.
  - apply independent_bind; [apply Hb | apply IH].
Qed.

Lemma resets_ret {A} (a : A) : resets (mret a : M A).
Proof. intros σ Hσ id. apply Hσ. Qed.

Lemma resets_lift {A} (e : Exc A) : resets (lift e).
Proof. intros σ Hσ id. apply Hσ. Qed.

Lemma resets_bind {A B} (m : M A) (f : A -> M B) :
  resets m -> (forall a, resets (f a)) -> resets (m ≫= f).
Proof.
  intros Hm Hf σ Hσ. unfold mbind, M_bind. specialize (Hm σ Hσ).
  destruct (m σ) as [[a|e] σ1]; cbn in Hm; [by apply Hf | exact Hm].
Qed.

Lemma resets_match_shared (id : RegexId) (R : RegExp) (content : string) :
  fl_global (re_flags R) = true -> resets (match_shared id R content).
Proof.
  intros Hg σ Hσ id'. unfold match_shared.
  rewrite (String_match_global R content (σ id) Hg). cbn.
  unfold set_lastIndex. case_decide; [reflexivity | apply Hσ].
Qed.

Lemma resets_for_ofM {A St} (body : A -> St -> M St) (l : list A) :
  (forall x st, resets (body x st)) -> forall st, resets (for_ofM body l st).
Proof.
  intros Hb. induction l as [|x l IH]; intros st; cbn [for_ofM].
  - apply resets_ret.
  - apply resets_bind; [apply Hb | apply IH].
Qed.

(** ** The loop of the aggregator *)

Lemma for_ofM_invariant {A St} (P : St -> Prop) (body : A -> St -> M St)
    (l : list A) :
  (forall x s σ1 s' σ2, x ∈ l -> P s -> body x s σ1 = (Ret s', σ2) -> P s') ->
  forall st σ r σ', P st -> for_ofM body l st σ = (Ret r, σ') -> P r.
Proof.
  induction l as [|x l IH]; intros Hstep st σ r σ' Hst Hrun.
  - cbn [for_ofM] in Hrun. unfold mret, M_ret in Hrun. by simplify_eq.
  - cbn [for_ofM] in Hrun. apply M_bind_Ret in Hrun as (s' & σ1 & Hb & Hrun).
    eapply IH; [ | | exact Hrun].
    + intros y s0 σ2 s'' σ3 Hy. apply Hstep. by apply list_elem_of_further.
    + eapply (Hstep x); [apply list_elem_of_here | exact Hst | exact Hb].
Qed.

Lemma analyzeFileComplexity_pattern_global (lang : string) :
  fl_global (re_flags
    (snd (match CONTROL_FLOW_PATTERNS lang with
          | Some R => (ControlFlow lang, R)
          | None => (ControlFlow "js",
                     default (mkRegExp Empty flags_g) (CONTROL_FLOW_PATTERNS "js"))
          end))) = true.
Proof.
  destruct (CONTROL_FLOW_PATTERNS lang) as [R|] eqn:E; [|reflexivity].
  by apply (control_flow_global lang).
Qed.

Lemma independent_analyzeFileComplexity (filename content : string) :
  store_independent (analyzeFileComplexity filename content).
Proof.
  unfold analyzeFileComplexity.
  destruct (match CONTROL_FLOW_PATTERNS _ with Some R => _ | None => _ end) as [id R].
  apply independent_bind; [apply independent_match_shared|].
  intros found. destruct (fold_left _ _ _). apply independent_ret.
Qed.

Lemma resets_analyzeFileComplexity (filename content : string) :
  resets (analyzeFileComplexity filename content).
Proof.
  unfold analyzeFileComplexity.
  pose proof (analyzeFileComplexity_pattern_global
    (default "js" (langMap (remove_first_dot (toLowerCase (extname filename)))))) as Hg.
  destruct (match CONTROL_FLOW_PATTERNS _ with Some R => _ | None => _ end) as [id R].
  apply resets_bind; [by apply resets_match_shared|].
  intros found. destruct (fold_left _ _ _). apply resets_ret.
Qed.

Lemma independent_detect_from (catalogue : list CodeSmellPattern.t) (content : string) :
  forall i smells, store_independent (detect_from i catalogue content smells).
Proof.
  induction catalogue as [|sm cat IH]; intros i smells; cbn [detect_from].
  - apply independent_ret.
  - apply independent_bind; [apply independent_match_shared | intros found; apply IH].
Qed.

Lemma resets_detect_from (catalogue : list CodeSmellPattern.t) (content : string) :
  forallb (fun sm => fl_global (re_flags (CodeSmellPattern.pattern sm))) catalogue = true ->
  forall i smells, resets (detect_from i catalogue content smells).
Proof.
  induction catalogue as [|sm cat IH]; intros Hg i smells; cbn [detect_from].
  - apply resets_ret.
  - cbn [forallb] in Hg. apply andb_prop in Hg as [Hsm Hcat].
    apply resets_bind; [by apply resets_match_shared | intros found; by apply IH].
Qed.

Section ComplexityLoop.
Context `{GlobMatcher}.
Variables (diffContent : gmap string string) (ign : list JsPattern).

Lemma independent_analyze_content (fn content : string) (res : ComplexityReport.t) :
  store_independent (analyze_content fn content res).
Proof.
  unfold analyze_content.
  apply independent_bind; [apply independent_analyzeFileComplexity|]. intros est.
  destruct (decide (THRESHOLDS.maxCyclomaticComplexity < _)).
  all: apply independent_bind;
    [apply independent_detect_from | intros smells; apply independent_ret].
Qed.

Lemma resets_analyze_content (fn content : string) (res : ComplexityReport.t) :
  resets (analyze_content fn content res).
Proof.
  unfold analyze_content.
  apply resets_bind; [apply resets_analyzeFileComplexity|]. intros est.
  destruct (decide (THRESHOLDS.maxCyclomaticComplexity < _)).
  all: apply resets_bind;
    [apply resets_detect_from, code_smells_global | intros smells; apply resets_ret].
Qed.

Lemma independent_complexity_file (file : ChangedFile.t) (res : ComplexityReport.t) :
  store_independent (complexity_file diffContent ign file res).
Proof.
  unfold complexity_file.
  apply independent_bind; [apply independent_lift|]. intros [|]; [apply independent_ret|].
  destruct (negb _); [apply independent_ret|].
  destruct (diffContent !! _) as [content|]; [|apply independent_ret].
  destruct (is_empty content); [apply independent_ret|].
  apply independent_analyze_content.
Qed.

Lemma resets_complexity_file (file : ChangedFile.t) (res : ComplexityReport.t) :
  resets (complexity_file diffContent ign file res).
Proof.
  unfold complexity_file.
  apply resets_bind; [apply resets_lift|]. intros [|]; [apply resets_ret|].
  destruct (negb _); [apply resets_ret|].
  destruct (diffContent !! _) as [content|]; [|apply resets_ret].
  destruct (is_empty content); [apply resets_ret|].
  apply resets_analyze_content.
Qed.
End ComplexityLoop.

Lemma independent_analyzeComplexity `{GlobMatcher} files diff ign :
  store_independent (analyzeComplexity files diff ign).
Proof.
  unfold analyzeComplexity. apply independent_bind.
  - apply independent_for_ofM. intros file res. apply independent_complexity_file.
  - intros res. apply independent_ret.
Qed.

Lemma resets_analyzeComplexity `{GlobMatcher} files diff ign :
  resets (analyzeComplexity files diff ign).
Proof.
  unfold analyzeComplexity. apply resets_bind.
  - apply resets_for_ofM. intros file res. apply resets_complexity_file.
  - intros res. apply resets_ret.
Qed.

Lemma run_call_independent `{GlobMatcher} (c : Call) (σ σ' : Store) :
  fst (run_call c σ) = fst (run_call c σ').
Proof.
  destruct c as [files cps ign|files diff ign]; [reflexivity|].
  cbn [run_call].
  pose proof (independent_analyzeComplexity files diff ign σ σ') as Hi.
  destruct (analyzeComplexity files diff ign σ), (analyzeComplexity files diff ign σ').
  cbn in *. congruence.
Qed.

Lemma run_call_resets `{GlobMatcher} (c : Call) (σ : Store) :
  (forall id, σ id = 0) -> forall id, snd (run_call c σ) id = 0.
Proof.
  intros Hσ id. destruct c as [files cps ign|files diff ign]; [apply Hσ|].
  cbn [run_call].
  pose proof (resets_analyzeComplexity files diff ign σ Hσ id) as Hr.
  destruct (analyzeComplexity files diff ign σ). exact Hr.
Qed.

(** C9.  What a call of either analyzer returns (a report or an error) is
    a function of its arguments alone: it is the same after any sequence of
    earlier calls as on a freshly loaded module, so a call repeated on the
    same arguments returns the same report; and a call leaves the
    [lastIndex] of every shared regular expression at 0, as it found it. *)
Theorem analyzers_are_stateless `{GlobMatcher} (before : list Call) (c : Call)
    (σ : Store) :
  fst (run_call c (snd (run_calls before σ))) = fst (run_call c fresh_store) /\
  fst (run_calls [c; c] σ) = [fst (run_call c σ); fst (run_call c σ)] /\
  (forall id, snd (run_call c fresh_store) id = 0).
Proof.
  split; [apply run_call_independent|]. split.
  - cbn [run_calls].
    pose proof (run_call_independent c (snd (run_call c σ)) σ) as Hi.
    destruct (run_call c σ) as [o σ1]. cbn in Hi.
    destruct (run_call c σ1) as [o' σ2]. cbn in *. congruence.
  - apply run_call_resets. reflexivity.
Qed.

(** ** Ignored files *)

Lemma matching_ignore_pattern `{GlobMatcher} (name : string) (ign : list JsPattern) :
  (exists p, p ∈ ign /\ minimatch name p = Ret true) -> ~ not_ignored name ign.
Proof.
  intros (p & Hp & Hm) Hn. unfold not_ignored in Hn.
  rewrite (someM_false _ _ Hn p Hp) in Hm. discriminate.
Qed.

Section Ignored.
Context `{GlobMatcher}.
Variables (rules : list RiskRule.t) (ign : list JsPattern) (name : string).
Hypothesis Hname : ~ not_ignored name ign.

Lemma risk_file_ignored (file : ChangedFile.t) (res res' : RiskReport.t) :
  ChangedFile.filename file = name ->
  risk_file rules ign file res = Ret res' -> res' = res.
Proof.
  intros Hf [->|(Hn & _)]%risk_file_Ret; [reflexivity|].
  rewrite Hf in Hn. contradiction.
Qed.

Lemma for_of_risk_without (files : list ChangedFile.t) (acc r : RiskReport.t) :
  for_of (risk_file rules ign) files acc = Ret r ->
  for_of (risk_file rules ign)
    (filter (fun f => ChangedFile.filename f <> name) files) acc = Ret r.
Proof.
  revert acc. induction files as [|file files IH]; intros acc Hrun; [exact Hrun|].
  cbn [for_of] in Hrun. apply bind_Ret in Hrun as (acc' & Hstep & Hrun).
  rewrite filter_cons. case_decide as Hf.
  - cbn [for_of]. rewrite Hstep. cbn [mbind Exc_bind]. by apply IH.
  - apply (risk_file_ignored _ _ _ Hf) in Hstep as ->.
    by apply IH.
Qed.

Lemma classify_without_ignored (files : list ChangedFile.t) (r : RiskReport.t) :
  classify files rules ign = Ret r ->
  (forall fd, fd ∈ RiskReport.files r -> RiskFinding.filename fd <> name) /\
  classify (filter (fun f => ChangedFile.filename f <> name) files) rules ign = Ret r.
Proof.
  intros Hrun. split; [|by apply for_of_risk_without].
  intros fd Hfd Heq. destruct (classify_sound _ _ _ _ Hrun fd Hfd) as (Hn & _).
  rewrite Heq in Hn. contradiction.
Qed.
End Ignored.

Section Entries.
Context `{GlobMatcher}.
Variable P : string -> Prop.

Ltac entries Hres :=
  destruct Hres as (Hw & Hl & Hc & Hs);
  unfold entries_about;
  cbn [ComplexityReport.warnings ComplexityReport.largeFiles
       ComplexityReport.complexFiles ComplexityReport.codeSmells];
  repeat split; intros x Hx;
  repeat match type of Hx with
         | _ ∈ _ ++ _ => apply elem_of_app in Hx as [Hx|Hx]
         | _ ∈ [_] => apply list_elem_of_singleton in Hx as ->
         | _ ∈ map _ _ => apply list_elem_of_In, in_map_iff in Hx as (? & <- & _)
         end;
  auto.

Lemma analyze_content_entries (fn content : string)
    (res res' : ComplexityReport.t) (σ σ' : Store) :
  entries_about P res -> P fn ->
  analyze_content fn content res σ = (Ret res', σ') ->
  entries_about P res'.
Proof.
  intros Hres Hfn Hrun. unfold analyze_content in Hrun.
  apply M_bind_Ret in Hrun as (est & σ1 & _ & Hrun).
  destruct (decide (THRESHOLDS.maxCyclomaticComplexity < _));
    apply M_bind_Ret in Hrun as (smells & σ2 & _ & Hrun);
    unfold mret, M_ret in Hrun; simplify_eq;
    repeat case_decide; entries Hres.
Qed.

Lemma complexity_file_entries (diffContent : gmap string string)
    (ign : list JsPattern) (file : ChangedFile.t)
    (res res' : ComplexityReport.t) (σ σ' : Store) :
  entries_about P res ->
  (not_ignored (ChangedFile.filename file) ign -> P (ChangedFile.filename file)) ->
  complexity_file diffContent ign file res σ = (Ret res', σ') ->
  entries_about P res'.
Proof.
  intros Hres Hfn Hrun. unfold complexity_file in Hrun.
  apply M_bind_Ret in Hrun as (ignored & σ1 & Hig & Hrun).
  unfold lift in Hig. injection Hig as Hig <-.
  destruct ignored; [unfold mret, M_ret in Hrun; by simplify_eq|].
  specialize (Hfn Hig).
  destruct (negb _); [unfold mret, M_ret in Hrun; by simplify_eq|].
  match type of Hrun with
  | match _ with Some _ => _ | None => ?k end _ = _ =>
      assert (Hbase : forall r s, k σ = (Ret r, s) -> entries_about P r)
  end.
  { intros r s Hr. unfold mret, M_ret in Hr. simplify_eq.
    case_decide; entries Hres. }
  destruct (diffContent !! _) as [content|]; [|by eapply Hbase].
  destruct (is_empty content); [by eapply Hbase|].
  eapply analyze_content_entries; [|exact Hfn|exact Hrun].
  case_decide; entries Hres.
Qed.

Lemma analyzeComplexity_entries (files : list ChangedFile.t) (diff : JsDiff)
    (ign : list JsPattern) (r : ComplexityReport.t) (σ σ' : Store) :
  (forall file, file ∈ files ->
     not_ignored (ChangedFile.filename file) ign -> P (ChangedFile.filename file)) ->
  analyzeComplexity files diff ign σ = (Ret r, σ') ->
  entries_about P r.
Proof.
  intros HP Hrun. unfold analyzeComplexity in Hrun.
  apply M_bind_Ret in Hrun as (res & σ1 & Hloop & Hfin).
  unfold mret, M_ret in Hfin. simplify_eq.
  assert (Hres : entries_about P res).
  { revert Hloop. apply for_ofM_invariant.
    - intros file s σ2 s' σ3 Hfile Hs. apply complexity_file_entries; auto.
    - repeat split; intros x Hx; by apply elem_of_nil in Hx. }
  unfold finish_stats. destruct files; [assumption|]. entries Hres.
Qed.
End Entries.

(** C4.  A file whose name matches an ignore pattern has no finding in the
    report of the risk classifier, which is the report obtained without
    that file (so the file adds to no counter), and no warning, large-file,
    complex-file or code-smell entry in the report of the aggregator. *)
Theorem ignored_files_are_never_reported `{GlobMatcher}
    (files : list ChangedFile.t) (rules : list RiskRule.t)
    (customPatterns : list CustomPattern) (diff : JsDiff)
    (ign : list JsPattern) (name : string) :
  (exists p, p ∈ ign /\ minimatch name p = Ret true) ->
  let others := filter (fun f => ChangedFile.filename f <> name) files in
  (forall r, classify files rules ign = Ret r ->
     (forall fd, fd ∈ RiskReport.files r -> RiskFinding.filename fd <> name) /\
     classify others rules ign = Ret r) /\
  (forall r, analyzeRisk files customPatterns ign = Ret r ->
     (forall fd, fd ∈ RiskReport.files r -> RiskFinding.filename fd <> name) /\
     analyzeRisk others customPatterns ign = Ret r) /\
  (forall σ r σ', analyzeComplexity files diff ign σ = (Ret r, σ') ->
     entries_about (fun n => n <> name) r).
Proof.
  intros Hmatch%matching_ignore_pattern others. split; [|split].
  - intros r Hrun. by apply (classify_without_ignored rules ign name Hmatch files).
  - intros r (custom & Hc & Hr)%analyzeRisk_classify.
    destruct (classify_without_ignored _ ign name Hmatch files r Hr) as [Hno Hsame].
    split; [exact Hno|]. unfold analyzeRisk. rewrite Hc. exact Hsame.
  - intros σ r σ' Hrun.
    apply (analyzeComplexity_entries _ files diff ign r σ σ'); [|exact Hrun].
    intros file _ Hn Heq. rewrite Heq in Hn. contradiction.
Qed.

Lemma ignored_files_are_never_reported_witness :
  (exists p, p ∈ [PatString "**/vendor/**"] /\
     minimatch (H := simple_glob) "vendor/lib/big.js" p = Ret true) /\
  exists r σ',
    analyzeComplexity (H := simple_glob) [vendor_big_js; app_js]
      (DiffText keywords_diff) [PatString "**/vendor/**"] fresh_store = (Ret r, σ') /\
    map Warning.filename (ComplexityReport.warnings r) = ["app.js"] /\
    entries_about (fun n => n <> "vendor/lib/big.js") r.
Proof.
  assert (Hm : exists p, p ∈ [PatString "**/vendor/**"] /\
     minimatch (H := simple_glob) "vendor/lib/big.js" p = Ret true).
  { exists (PatString "**/vendor/**"). split; [apply list_elem_of_here | run]. }
  split; [exact Hm|].
  destruct (analyzeComplexity (H := simple_glob) [vendor_big_js; app_js]
              (DiffText keywords_diff) [PatString "**/vendor/**"] fresh_store)
    as [[r|e] σ'] eqn:Hrun.
  - exists r, σ'. split; [reflexivity|]. split.
    + vm_compute in Hrun. injection Hrun as <- _. reflexivity.
    + exact (proj2 (proj2 (ignored_files_are_never_reported (H := simple_glob)
               [vendor_big_js; app_js] [] [] (DiffText keywords_diff)
               [PatString "**/vendor/**"] "vendor/lib/big.js" Hm)) _ _ _ Hrun).
  - vm_compute in Hrun. discriminate Hrun.
Defined.

(** ** The complexity warning *)

Lemma analyzeFileComplexity_run (filename content : string) (σ : Store) :
  exists est σ',
    analyzeFileComplexity filename content σ = (Ret est, σ') /\
    ComplexityEstimate.complexity est
      = length (control_flow_matches filename content) + 1.
Proof.
  unfold analyzeFileComplexity, control_flow_matches.
  destruct (CONTROL_FLOW_PATTERNS
              (default "js" (langMap (remove_first_dot (toLowerCase (extname filename))))))
    as [R|]; cbn [default];
    unfold mbind, M_bind, match_shared;
    match goal with
    | |- context [String_match ?R content (σ ?id)] =>
        pose proof (String_match_result R content (σ id) 0) as Hres;
        destruct (String_match R content (σ id)) as [found li]
    end;
    cbn [fst] in Hres; subst found;
    destruct (fold_left _ _ _); eexists _, _; split; reflexivity.
Qed.

Lemma detect_from_run (catalogue : list CodeSmellPattern.t) (content : string) :
  forall i smells σ, exists smells' σ',
    detect_from i catalogue content smells σ = (Ret smells', σ').
Proof.
  induction catalogue as [|sm cat IH]; intros i smells σ; cbn [detect_from].
  - eexists _, _. reflexivity.
  - unfold mbind, M_bind, match_shared.
    destruct (String_match _ content _) as [found li]. apply IH.
Qed.

Lemma analyze_content_run (filename content : string)
    (res : ComplexityReport.t) (σ : Store) :
  exists res' σ',
    analyze_content filename content res σ = (Ret res', σ') /\
    (forall w, w ∈ ComplexityReport.warnings res -> w ∈ ComplexityReport.warnings res') /\
    (THRESHOLDS.maxCyclomaticComplexity
       < length (control_flow_matches filename content) + 1 ->
     complexity_warning filename (length (control_flow_matches filename content) + 1)
       ∈ ComplexityReport.warnings res').
Proof.
  unfold analyze_content.
  destruct (analyzeFileComplexity_run filename content σ) as (est & σ1 & Hest & Hc).
  unfold mbind at 1, M_bind at 1. rewrite Hest. rewrite Hc.
  set (c := length (control_flow_matches filename content) + 1).
  destruct (decide (THRESHOLDS.maxCyclomaticComplexity < c)) as [Hgt|Hle].
  all: unfold mbind, M_bind;
    destruct (detect_from_run CODE_SMELL_PATTERNS content 0 [] σ1) as (smells & σ2 & Hsm);
    unfold detectCodeSmells; rewrite Hsm;
    eexists _, _; (split; [reflexivity|]);
    cbn [ComplexityReport.warnings]; split.
  - intros w Hw. repeat case_decide; rewrite ?elem_of_app; tauto.
  - intros _. unfold complexity_warning.
    repeat case_decide; rewrite ?elem_of_app, ?list_elem_of_singleton; tauto.
  - intros w Hw. repeat case_decide; rewrite ?elem_of_app; tauto.
  - intros Hgt. contradiction.
Qed.

Section ComplexityWarning.
Context `{GlobMatcher}.
Variables (diffContent : gmap string string) (ign : list JsPattern).

(** A round of the loop keeps the warnings it found, and adds the
    complexity warning for a file it analyzes. *)
Lemma complexity_file_warnings (file : ChangedFile.t)
    (res res' : ComplexityReport.t) (σ σ' : Store) :
  complexity_file diffContent ign file res σ = (Ret res', σ') ->
  (forall w, w ∈ ComplexityReport.warnings res -> w ∈ ComplexityReport.warnings res') /\
  (forall content,
     not_ignored (ChangedFile.filename file) ign ->
     isCodeFile (ChangedFile.filename file) = true ->
     diffContent !! ChangedFile.filename file = Some content ->
     content <> EmptyString ->
     THRESHOLDS.maxCyclomaticComplexity
       < length (control_flow_matches (ChangedFile.filename file) content) + 1 ->
     complexity_warning (ChangedFile.filename file)
       (length (control_flow_matches (ChangedFile.filename file) content) + 1)
       ∈ ComplexityReport.warnings res').
Proof.
  intros Hrun. unfold complexity_file in Hrun.
  apply M_bind_Ret in Hrun as (ignored & σ1 & Hig & Hrun).
  unfold lift in Hig. injection Hig as Hig <-.
  destruct ignored.
  { unfold mret, M_ret in Hrun. simplify_eq. split; [auto|].
    intros content Hn. unfold not_ignored in Hn. congruence. }
  destruct (isCodeFile (ChangedFile.filename file)) eqn:Hcode; cbn [negb] in Hrun.
  2:{ unfold mret, M_ret in Hrun. simplify_eq. split; [auto|]. discriminate. }
  set (base := if decide (THRESHOLDS.largeAdditions < ChangedFile.additions file)%Z
               then _ else _) in Hrun.
  assert (Hbase : forall w, w ∈ ComplexityReport.warnings res ->
                            w ∈ ComplexityReport.warnings base).
  { intros w Hw. unfold base. case_decide; cbn [ComplexityReport.warnings];
      rewrite ?elem_of_app; tauto. }
  destruct (diffContent !! ChangedFile.filename file) as [content|] eqn:Hlook.
  2:{ unfold mret, M_ret in Hrun. simplify_eq. split; [assumption|]. discriminate. }
  destruct (is_empty content) eqn:Hempty.
  { unfold mret, M_ret in Hrun. simplify_eq. split; [assumption|].
    intros content' _ _ Heq Hne. simplify_eq. by destruct content'. }
  destruct (analyze_content_run (ChangedFile.filename file) content base σ)
    as (res1 & σ2 & Hrun1 & Hkeep & Hwarn).
  rewrite Hrun1 in Hrun. simplify_eq. split; [auto|].
  intros content' _ _ Heq _. simplify_eq. exact Hwarn.
Qed.

Lemma for_ofM_complexity_warnings (files : list ChangedFile.t) :
  forall (acc r : ComplexityReport.t) (σ σ' : Store),
    for_ofM (complexity_file diffContent ign) files acc σ = (Ret r, σ') ->
    (forall w, w ∈ ComplexityReport.warnings acc -> w ∈ ComplexityReport.warnings r) /\
    (forall file content,
       file ∈ files ->
       not_ignored (ChangedFile.filename file) ign ->
       isCodeFile (ChangedFile.filename file) = true ->
       diffContent !! ChangedFile.filename file = Some content ->
       content <> EmptyString ->
       THRESHOLDS.maxCyclomaticComplexity
         < length (control_flow_matches (ChangedFile.filename file) content) + 1 ->
       complexity_warning (ChangedFile.filename file)
         (length (control_flow_matches (ChangedFile.filename file) content) + 1)
         ∈ ComplexityReport.warnings r).
Proof.
  induction files as [|f files IH]; intros acc r σ σ' Hrun.
  - cbn [for_ofM] in Hrun. unfold mret, M_ret in Hrun. simplify_eq.
    split; [auto|]. intros file content Hin. by apply elem_of_nil in Hin.
  - cbn [for_ofM] in Hrun. apply M_bind_Ret in Hrun as (acc' & σ1 & Hstep & Hrun).
    destruct (complexity_file_warnings _ _ _ _ _ Hstep) as [Hkeep Hwarn].
    destruct (IH _ _ _ _ Hrun) as [Hkeep' Hwarn'].
    split; [auto|].
    intros file content [->|Hin]%elem_of_cons; [|by apply Hwarn'].
    intros. apply Hkeep'. by apply Hwarn.
Qed.
End ComplexityWarning.

(** A file that the aggregator analyzes (listed, not ignored, a code file,
    with added text in the diff) and in whose added text the selected
    pattern matches eleven times gets the estimate 12 and the [complexity]
    warning of severity [high]. *)
Lemma eleven_matches_give_a_warning `{GlobMatcher}
    (files : list ChangedFile.t) (diff : JsDiff) (ign : list JsPattern)
    (file : ChangedFile.t) (content : string)
    (r : ComplexityReport.t) (σ σ' : Store) :
  analyzeComplexity files diff ign σ = (Ret r, σ') ->
  file ∈ files ->
  not_ignored (ChangedFile.filename file) ign ->
  isCodeFile (ChangedFile.filename file) = true ->
  parseDiff diff !! ChangedFile.filename file = Some content ->
  content <> EmptyString ->
  length (control_flow_matches (ChangedFile.filename file) content) = 11 ->
  (exists est σ1,
     analyzeFileComplexity (ChangedFile.filename file) content σ = (Ret est, σ1) /\
     ComplexityEstimate.complexity est = 12) /\
  complexity_warning (ChangedFile.filename file) 12 ∈ ComplexityReport.warnings r.
Proof.
  intros Hrun Hin Hn Hcode Hlook Hne Hm. split.
  - destruct (analyzeFileComplexity_run (ChangedFile.filename file) content σ)
      as (est & σ1 & Hest & Hc).
    exists est, σ1. split; [assumption|]. by rewrite Hc, Hm.
  - unfold analyzeComplexity in Hrun.
    apply M_bind_Ret in Hrun as (res & σ1 & Hloop & Hfin).
    unfold mret, M_ret in Hfin. simplify_eq.
    destruct (for_ofM_complexity_warnings _ _ _ _ _ _ _ Hloop) as [_ Hwarn].
    specialize (Hwarn file content Hin Hn Hcode Hlook Hne).
    rewrite Hm in Hwarn.
    specialize (Hwarn ltac:(unfold THRESHOLDS.maxCyclomaticComplexity; lia)).
    unfold finish_stats. destruct files; assumption.
Qed.

(** ** The aggregator on concrete changes *)

Lemma finish_stats_all_files `{GlobMatcher} (first : ChangedFile.t)
    (rest : list ChangedFile.t) (res : ComplexityReport.t) :
  let files := first :: rest in
  let st := ComplexityReport.stats (finish_stats files res) in
  Stats.averageFileSize st =
    round_div (Stats.totalAdditions (ComplexityReport.stats res))
              (Z.of_nat (length files)) /\
  Stats.largestFile st =
    Some (ChangedFile.filename (largest_of files first),
          ChangedFile.additions (largest_of files first)).
Proof. split; reflexivity. Qed.

(** C1, where the code departs from it.  The text added to [app.js] holds
    eleven [&&] operators (and no other token of the pattern), each with a
    space on either side.  The pattern asks for a word boundary before and
    after a token, and there is none between a space and [&]: nothing is
    counted, the complexity is 1 and no warning is issued. *)
Theorem spaced_operators_are_not_counted `{GlobMatcher} :
  parseDiff (DiffText operators_diff) !! "app.js" = Some operators_text /\
  token_occurrences js_tokens operators_text = 11 /\
  fst (analyzeFileComplexity "app.js" operators_text fresh_store)
    = Ret (ComplexityEstimate.mk 1 0 0) /\
  exists r,
    fst (analyzeComplexity [app_js] (DiffText operators_diff) [] fresh_store) = Ret r /\
    ComplexityReport.warnings r = [] /\ ComplexityReport.complexFiles r = [].
Proof.
  split; [run|]. split; [run|]. split; [run|].
  eexists. split; [run|]. split; reflexivity.
Qed.

(** Eleven [if] keywords are counted: complexity 12 and a warning of
    severity [high]. *)
Lemma keywords_are_counted `{GlobMatcher} :
  exists r,
    fst (analyzeComplexity [app_js] (DiffText keywords_diff) [] fresh_store) = Ret r /\
    ComplexityReport.warnings r =
      [Warning.mk "complexity" "high" "app.js" (ComplexityExceeds 12 10)].
Proof. eexists. split; [run|reflexivity]. Qed.

(** C8, where the code departs from it.  Of the two changed files only
    [src/a.js] (10 additions) is analyzed; [README.md] (100 additions) is
    not a code file.  The average is nevertheless taken over both files
    (10 / 2 = 5, not 10 / 1), and the largest file is [README.md]. *)
Theorem stats_range_over_all_files `{GlobMatcher} :
  isCodeFile "src/a.js" = true /\ isCodeFile "README.md" = false /\
  exists r,
    fst (analyzeComplexity [small_js; readme_md] DiffUndefined [] fresh_store) = Ret r /\
    Stats.totalAdditions (ComplexityReport.stats r) = 10%Z /\
    Stats.averageFileSize (ComplexityReport.stats r) = 5%Z /\
    Stats.largestFile (ComplexityReport.stats r) = Some ("README.md", 100%Z).
Proof.
  split; [run|]. split; [run|].
  eexists. split; [run|]. repeat split; reflexivity.
Qed.

(** ** The diff parser *)

(** C7.  Without a diff text (an empty string, [undefined] or a value that
    is not a string) the parser returns the empty map. *)
Theorem parseDiff_without_text :
  parseDiff (DiffText "") = ∅ /\
  parseDiff DiffUndefined = ∅ /\
  parseDiff DiffNonString = ∅.
Proof. repeat split; reflexivity. Qed.

Lemma parse_part_section (files : gmap string string) (part : string) :
  parse_part files part =
  match section_name part with
  | Some name => set_property name (added_lines part) files
  | None => files
  end.
Proof.
  unfold parse_part, section_name.
  destruct (is_empty (trim part)); [reflexivity|].
  destruct (match_literal file_name part); reflexivity.
Qed.

Lemma last_section_snoc (name : string) (parts : list string) (part : string) :
  last_section name (parts ++ [part]) =
  if decide (section_name part = Some name) then Some part
  else last_section name parts.
Proof. unfold last_section. by rewrite fold_left_app. Qed.

Lemma fold_parse_part_lookup (name : string) (parts : list string)
    (files : gmap string string) :
  name <> "__proto__" ->
  fold_left parse_part parts files !! name =
  match last_section name parts with
  | Some part => Some (added_lines part)
  | None => files !! name
  end.
Proof.
  intros Hname. induction parts as [|part parts IH] using rev_ind; [reflexivity|].
  rewrite fold_left_app, last_section_snoc. cbn [fold_left].
  rewrite parse_part_section.
  destruct (section_name part) as [n|] eqn:Hn.
  - unfold set_property. case_decide as Hp.
    + subst n. rewrite decide_False by congruence. exact IH.
    + destruct (decide (n = name)) as [->|Hne].
      * rewrite decide_True by reflexivity. apply lookup_insert_eq.
      * rewrite decide_False by congruence.
        rewrite lookup_insert_ne by assumption. exact IH.
  - rewrite decide_False by discriminate. exact IH.
Qed.

Lemma fold_parse_part_skip (before after : list string) (part : string)
    (files : gmap string string) :
  section_name part = None ->
  fold_left parse_part (before ++ part :: after) files =
  fold_left parse_part (before ++ after) files.
Proof.
  intros Hn. rewrite !fold_left_app. cbn [fold_left].
  by rewrite (parse_part_section _ part), Hn.
Qed.

(** *** The header of a section *)

Lemma append_String (c : ascii) (s t : string) :
  (String c s ++ t)%string = String c (s ++ t).
Proof. reflexivity. Qed.

Lemma append_Empty (t : string) : (EmptyString ++ t)%string = t.
Proof. reflexivity. Qed.

Lemma includes_cons (w : string) (c : ascii) (s : string) :
  includes w (String c s) = false ->
  startsWith w (String c s) = false /\ includes w s = false.
Proof. cbn [includes]. by intros [? ?]%orb_false_elim. Qed.

(** A separator that starts inside a non-empty text [x] which has no
    separator at its start would have to end inside [x] as well. *)
Lemma no_separator_across (x rest : string) :
  x <> EmptyString -> startsWith " b/" x = false ->
  startsWith " b/" (x ++ " b/" ++ rest) = false.
Proof.
  intros Hx Hs.
  destruct x as [|c1 [|c2 [|c3 x]]]; [congruence| | |];
    rewrite ?append_String, ?append_Empty; cbn [startsWith] in *.
  - destruct (Ascii.eqb " " c1); reflexivity.
  - destruct (Ascii.eqb " " c1); [|reflexivity].
    destruct (Ascii.eqb "b" c2); reflexivity.
  - exact Hs.
Qed.

Section FileName.
Variable rest : string.

Lemma after_group_spec (whole : string) (prev : option ascii) (s : string)
    (caps : list string) :
  after_group whole prev s caps =
  if startsWith " b/" s
  then Some (substring_from 3 s,
             caps ++ [substring_to (String.length whole - String.length s) whole])
  else None.
Proof.
  unfold after_group. set (cap := substring_to _ whole). clearbody cap.
  change (Lit " b/") with (Cat (Chr " ") (Cat (Chr "b") (Chr "/"))).
  cbn [rmatch char_matches flags_none fl_ignoreCase startsWith].
  destruct s as [|c1 s]; [reflexivity|]. cbn [startsWith].
  destruct (Ascii.eqb " " c1); [|reflexivity].
  destruct s as [|c2 s]; [reflexivity|]. cbn [startsWith andb].
  destruct (Ascii.eqb "b" c2); [|reflexivity].
  destruct s as [|c3 s]; [reflexivity|]. cbn [startsWith andb].
  destruct (Ascii.eqb "/" c3); reflexivity.
Qed.

(** The lazy loop stops at the first separator. *)
Lemma lazy_dot_stops (whole : string) (q : string) :
  forall (n : nat) (prev : option ascii) (caps : list string),
  no_line_terminator q = true ->
  includes " b/" q = false ->
  String.length (q ++ " b/" ++ rest) <= n ->
  rep_loop (rmatch flags_none Dot) false (after_group whole) n prev
    (q ++ " b/" ++ rest) caps =
  Some (rest,
        caps ++ [substring_to (String.length whole - String.length (" b/" ++ rest)) whole]).
Proof.
  induction q as [|c q IH]; intros n prev caps Hlt Hinc Hlen.
  - destruct n; cbn [rep_loop]; rewrite after_group_spec; reflexivity.
  - apply includes_cons in Hinc as [Hstart Hinc].
    cbn [no_line_terminator list_ascii_of_string forallb] in Hlt.
    apply andb_prop in Hlt as [Hc Hlt].
    pose proof Hlen as Hlen'. rewrite append_String in Hlen'.
    cbn [String.length] in Hlen'.
    destruct n as [|n]; [lia|].
    cbn [rep_loop]. rewrite after_group_spec.
    rewrite (no_separator_across (String c q) rest) by (congruence || assumption).
    rewrite append_String.
    cbn [rmatch Dot]. rewrite Hc.
    cbn [String.length]. rewrite (proj2 (Nat.ltb_lt _ _)) by lia.
    apply IH; [assumption..|]. lia.
Qed.
End FileName.

Lemma length_append (a b : string) :
  String.length (a ++ b) = String.length a + String.length b.
Proof. induction a as [|c a IH]; [reflexivity|]. rewrite append_String. cbn. by rewrite IH. Qed.

Lemma append_assoc (a b c : string) : ((a ++ b) ++ c = a ++ (b ++ c))%string.
Proof. induction a as [|x a IH]; [reflexivity|]. rewrite !append_String. by rewrite IH. Qed.

Lemma substring_to_append (a b : string) :
  substring_to (String.length a) (a ++ b) = a.
Proof.
  induction a as [|c a IH]; [by destruct b|].
  rewrite append_String. cbn. by rewrite IH.
Qed.

Lemma trimEnd_first (c : ascii) (s : string) :
  is_space c = false -> is_empty (trimEnd (String c s)) = false.
Proof. intros Hc. cbn. destruct (trimEnd s); [by rewrite Hc | reflexivity]. Qed.

Lemma file_name_not_at (prev : option ascii) (c : ascii) (s : string) :
  Ascii.eqb "a" c = false ->
  rmatch flags_none (re_source file_name) prev (String c s) [] accept = None.
Proof.
  intros Hc.
  change (rmatch flags_none (re_source file_name) prev (String c s) [] accept)
    with (if Ascii.eqb "a" c
          then rmatch flags_none
                 (Cat (Chr "/") (Cat (Grp (Cat Dot (Rep false Dot))) (Lit " b/")))
                 (Some c) s [] accept
          else None).
  by rewrite Hc.
Qed.

Lemma file_name_at (prev : option ascii) (s1 : string) :
  rmatch flags_none (re_source file_name) prev (String "a" (String "/" s1)) [] accept
  = rmatch flags_none (Cat Dot (Rep false Dot)) (Some "/"%char) s1 [] (after_group s1).
Proof. reflexivity. Qed.

Lemma lazy_plus_dot (prev : option ascii) (c : ascii) (s : string)
    (caps : list string) (k : Continuation) :
  rmatch flags_none (Cat Dot (Rep false Dot)) prev (String c s) caps k
  = if negb (is_line_terminator c)
    then rep_loop (rmatch flags_none Dot) false k (String.length s) (Some c) s caps
    else None.
Proof. reflexivity. Qed.

(** In a section that starts with [ a/p b/], where the path [p] is not
    empty, stays on one line and holds no [ b/], the parser captures [p]. *)
Lemma file_name_match (p rest : string) :
  p <> EmptyString -> no_line_terminator p = true -> includes " b/" p = false ->
  match_literal file_name (" a/" ++ p ++ " b/" ++ rest)
  = Some [("a/" ++ p ++ " b/")%string; p].
Proof.
  intros Hp Hlt Hinc.
  destruct p as [|c p]; [congruence|].
  apply includes_cons in Hinc as [_ Hinc].
  cbn [no_line_terminator list_ascii_of_string forallb] in Hlt.
  apply andb_prop in Hlt as [Hc Hlt].
  unfold match_literal, String_match, RegExpBuiltinExec.
  change (fl_global (re_flags file_name)) with false. cbv iota.
  change (re_flags file_name) with flags_none.
  set (s1 := (String c p ++ " b/" ++ rest)%string).
  change (" a/" ++ s1)%string with (String " " (String "a" (String "/" s1))).
  rewrite search_unfold, file_name_not_at by reflexivity.
  rewrite search_unfold, file_name_at.
  unfold s1 at 1. rewrite append_String, lazy_plus_dot, Hc.
  rewrite (lazy_dot_stops rest s1 p _ _ _ Hlt Hinc) by reflexivity.
  cbv zeta. cbn [fst option_map m_text m_captures app].
  assert (Hcap : String.length s1 - String.length (" b/" ++ rest)
                 = String.length (String c p)).
  { unfold s1. rewrite !length_append. lia. }
  rewrite Hcap. unfold s1 at 3. rewrite substring_to_append.
  do 2 f_equal.
  replace (String.length (String "a" (String "/" s1)) - String.length rest)
    with (String.length ("a/" ++ String c p ++ " b/")).
  - replace (String "a" (String "/" s1))
      with (("a/" ++ String c p ++ " b/") ++ rest)%string
      by (unfold s1; by rewrite <- !append_assoc).
    apply substring_to_append.
  - unfold s1. cbn [String.length]. rewrite !length_append. cbn [String.length].
    lia.
Qed.

Lemma section_name_header (p rest : string) :
  p <> EmptyString -> no_line_terminator p = true -> includes " b/" p = false ->
  section_name (" a/" ++ p ++ " b/" ++ rest) = Some p.
Proof.
  intros Hp Hlt Hinc. unfold section_name.
  rewrite (file_name_match p rest Hp Hlt Hinc).
  change (" a/" ++ p ++ " b/" ++ rest)%string
    with (String " " (String "a" ("/" ++ p ++ " b/" ++ rest))).
  unfold trim.
  change (trimStart (String " " (String "a" ("/" ++ p ++ " b/" ++ rest))))
    with (String "a" ("/" ++ p ++ " b/" ++ rest)).
  rewrite trimEnd_first by reflexivity. reflexivity.
Qed.

Lemma parseDiff_lookup (diff name : string) :
  name <> "__proto__" ->
  parseDiff (DiffText diff) !! name =
  match last_section name (sections diff) with
  | Some part => Some (added_lines part)
  | None => None
  end.
Proof.
  intros Hname. unfold parseDiff. destruct (is_empty diff) eqn:He.
  - destruct diff; [reflexivity | discriminate].
  - rewrite (fold_parse_part_lookup name _ _ Hname). unfold sections.
    destruct (last_section _ _); [reflexivity | apply lookup_empty].
Qed.

(** ** The fuel of a quantifier

    The loop of a quantifier is given as many rounds as the subject has
    characters.  Since every round consumes a character, more rounds change
    nothing: the bound never cuts a match short. *)

Lemma rep_loop_ext
    (step : option ascii -> string -> list string -> Continuation -> option MatchState)
    (greedy : bool) (k1 k2 : Continuation) :
  (forall prev s caps c1 c2,
     (forall p s' c, c1 p s' c = c2 p s' c) ->
     step prev s caps c1 = step prev s caps c2) ->
  (forall p s' c, k1 p s' c = k2 p s' c) ->
  forall n prev s caps,
    rep_loop step greedy k1 n prev s caps = rep_loop step greedy k2 n prev s caps.
Proof.
  intros Hstep Hk. induction n as [|n IH]; intros prev s caps; cbn [rep_loop].
  - rewrite Hk. reflexivity.
  - rewrite Hk.
    rewrite (Hstep prev s caps _
               (fun prev' s' caps' =>
                  if Nat.ltb (String.length s') (String.length s)
                  then rep_loop step greedy k2 n prev' s' caps' else None));
      [reflexivity|].
    intros p s' c. destruct (Nat.ltb _ _); [apply IH | reflexivity].
Qed.

Lemma rmatch_ext (fl : Flags) (r : regex) :
  forall prev s caps (k1 k2 : Continuation),
    (forall p s' c, k1 p s' c = k2 p s' c) ->
    rmatch fl r prev s caps k1 = rmatch fl r prev s caps k2.
Proof.
  induction r as [|c|p|r1 IH1 r2 IH2|r1 IH1 r2 IH2|g r IH|r IH| | |];
    intros prev s caps k1 k2 Hk; cbn [rmatch]; rewrite ?Hk; try reflexivity.
  - destruct s as [|c' s]; [reflexivity|]. by rewrite Hk.
  - destruct s as [|c' s]; [reflexivity|]. by rewrite Hk.
  - apply IH1. intros p s' c. by apply IH2.
  - rewrite (IH1 prev s caps k1 k2 Hk), (IH2 prev s caps k1 k2 Hk). reflexivity.
  - apply rep_loop_ext; [|assumption]. intros p s0 c c1 c2. apply IH.
  - apply IH. intros p s' c. apply Hk.
Qed.

Lemma rep_loop_fails
    (step : option ascii -> string -> list string -> Continuation -> option MatchState)
    (greedy : bool) (k : Continuation) :
  (forall prev s caps c, (forall p s' c', c p s' c' = None) -> step prev s caps c = None) ->
  (forall p s' c, k p s' c = None) ->
  forall n prev s caps, rep_loop step greedy k n prev s caps = None.
Proof.
  intros Hstep Hk. induction n as [|n IH]; intros prev s caps; cbn [rep_loop].
  - rewrite Hk. by destruct greedy.
  - rewrite Hk, Hstep; [by destruct greedy|].
    intros p s' c'. destruct (Nat.ltb _ _); [apply IH | reflexivity].
Qed.

Lemma rmatch_fails (fl : Flags) (r : regex) :
  forall prev s caps (k : Continuation),
    (forall p s' c, k p s' c = None) -> rmatch fl r prev s caps k = None.
Proof.
  induction r as [|c|p|r1 IH1 r2 IH2|r1 IH1 r2 IH2|g r IH|r IH| | |];
    intros prev s caps k Hk; cbn [rmatch]; rewrite ?Hk; try reflexivity.
  - destruct s as [|c' s]; [reflexivity|]. by destruct (char_matches fl c c').
  - destruct s as [|c' s]; [reflexivity|]. by destruct (p c').
  - apply IH1. intros p s' c. by apply IH2.
  - rewrite (IH1 prev s caps k Hk). by apply IH2.
  - apply rep_loop_fails; [|assumption]. intros p s0 c c0. apply IH.
  - apply IH. intros p s' c. apply Hk.
  - by destruct (xorb _ _).
  - by destruct (at_line_start fl prev).
  - by destruct (at_line_end fl s).
Qed.

Lemma rep_loop_fuel (fl : Flags) (r : regex) (greedy : bool) (k : Continuation) :
  forall n prev s caps,
    String.length s <= n ->
    rep_loop (rmatch fl r) greedy k (S n) prev s caps =
    rep_loop (rmatch fl r) greedy k n prev s caps.
Proof.
  induction n as [|n IH]; intros prev s caps Hlen.
  - destruct s; [|cbn in Hlen; lia].
    cbn [rep_loop]. rewrite rmatch_fails; [reflexivity|].
    intros p s' c. reflexivity.
  - change (rep_loop (rmatch fl r) greedy k (S (S n)) prev s caps) with
      (let again (_ : unit) :=
         rmatch fl r prev s caps (fun prev' s' caps' =>
           if Nat.ltb (String.length s') (String.length s)
           then rep_loop (rmatch fl r) greedy k (S n) prev' s' caps' else None) in
       if greedy then
         match again tt with Some res => Some res | None => k prev s caps end
       else
         match k prev s caps with Some res => Some res | None => again tt end).
    change (rep_loop (rmatch fl r) greedy k (S n) prev s caps) with
      (let again (_ : unit) :=
         rmatch fl r prev s caps (fun prev' s' caps' =>
           if Nat.ltb (String.length s') (String.length s)
           then rep_loop (rmatch fl r) greedy k n prev' s' caps' else None) in
       if greedy then
         match again tt with Some res => Some res | None => k prev s caps end
       else
         match k prev s caps with Some res => Some res | None => again tt end).
    cbv zeta.
    rewrite (rmatch_ext fl r prev s caps
               (fun prev' s' caps' =>
                  if Nat.ltb (String.length s') (String.length s)
                  then rep_loop (rmatch fl r) greedy k (S n) prev' s' caps' else None)
               (fun prev' s' caps' =>
                  if Nat.ltb (String.length s') (String.length s)
                  then rep_loop (rmatch fl r) greedy k n prev' s' caps' else None));
      [reflexivity|].
    intros p s' c. destruct (Nat.ltb_spec (String.length s') (String.length s));
      [apply IH; lia | reflexivity].
Qed.

(** A quantifier with any larger bound matches as [rmatch] does. *)
Lemma rep_loop_enough (fl : Flags) (r : regex) (greedy : bool) (k : Continuation)
    (prev : option ascii) (s : string) (caps : list string) (extra : nat) :
  rep_loop (rmatch fl r) greedy k (String.length s + extra) prev s caps =
  rmatch fl (Rep greedy r) prev s caps k.
Proof.
  induction extra as [|extra IH]; cbn [rmatch].
  - by rewrite Nat.add_0_r.
  - rewrite Nat.add_succ_r, rep_loop_fuel by lia. exact IH.
Qed.

(** A code file is never named like a property of [Object.prototype]. *)
Lemma code_file_not_inherited (filename : string) :
  isCodeFile filename = true -> inherited filename = false.
Proof.
  intros Hcode. destruct (inherited filename) eqn:Hi; [|reflexivity].
  unfold inherited in Hi. apply bool_decide_eq_true in Hi.
  unfold object_prototype_keys in Hi.
  repeat (apply elem_of_cons in Hi as [->|Hi]; [vm_compute in Hcode; discriminate|]).
  by apply elem_of_nil in Hi.
Qed.

(** ** The sections of a rendered diff *)

Lemma rmatch_Lit (fl : Flags) (w : string) :
  fl_ignoreCase fl = false ->
  forall prev s caps (k : Continuation),
    (forall p p' s' c, k p s' c = k p' s' c) ->
    rmatch fl (Lit w) prev s caps k =
    if startsWith w s then k None (substring_from (String.length w) s) caps else None.
Proof.
  intros Hi. induction w as [|a w IH]; intros prev s caps k Hk.
  - cbn [Lit rmatch startsWith String.length substring_from]. apply Hk.
  - destruct w as [|b w].
    + cbn [Lit rmatch]. destruct s as [|c s]; [reflexivity|].
      unfold char_matches. rewrite Hi. cbn [startsWith String.length substring_from].
      destruct (Ascii.eqb a c); [apply Hk | reflexivity].
    + change (Lit (String a (String b w))) with (Cat (Chr a) (Lit (String b w))).
      cbn [rmatch]. destruct s as [|c s]; [reflexivity|].
      unfold char_matches. rewrite Hi.
      change (startsWith (String a (String b w)) (String c s))
        with (Ascii.eqb a c && startsWith (String b w) s).
      destruct (Ascii.eqb a c); [|reflexivity].
      rewrite (IH (Some c) s caps k Hk). reflexivity.
Qed.

Lemma rmatch_file_header (prev : option ascii) (s : string) :
  rmatch flags_m (re_source file_header) prev s [] accept =
  if header_here prev s then Some (substring_from 10 s, []) else None.
Proof.
  unfold header_here.
  change (rmatch flags_m (re_source file_header) prev s [] accept)
    with (if at_line_start flags_m prev
          then rmatch flags_m (Lit "diff --git") prev s [] accept else None).
  destruct (at_line_start flags_m prev); [|reflexivity].
  rewrite rmatch_Lit; reflexivity.
Qed.

Lemma startsWith_split (w s : string) :
  startsWith w s = true -> exists rest, s = (w ++ rest)%string.
Proof.
  revert s. induction w as [|a w IH]; intros s Hs; [by exists s|].
  destruct s as [|b s]; [discriminate|]. cbn [startsWith] in Hs.
  apply andb_prop in Hs as [Hab Hs]. apply Ascii.eqb_eq in Hab as ->.
  destruct (IH s Hs) as [rest ->]. by exists rest.
Qed.

(** One character of the subject of [split], when no separator is being
    passed over. *)
Lemma split_walk_char (prev : option ascii) (c : ascii) (s cur : string) :
  header_here prev (String c s) = false ->
  split_walk flags_m (re_source file_header) prev (String c s) cur 0 =
  split_walk flags_m (re_source file_header) (Some c) s (cur ++ String c EmptyString) 0.
Proof.
  intros Hh. cbn [split_walk]. rewrite rmatch_file_header, Hh. reflexivity.
Qed.

(** A header at the start of a line ends the current piece. *)
Lemma split_walk_header (prev : option ascii) (rest cur : string) :
  at_line_start flags_m prev = true ->
  split_walk flags_m (re_source file_header) prev ("diff --git" ++ rest) cur 0 =
  cur :: split_walk flags_m (re_source file_header) (Some "t"%char) rest EmptyString 0.
Proof.
  intros Hp.
  change ("diff --git" ++ rest)%string
    with (String "d" ("iff --git" ++ rest)).
  cbn [split_walk]. rewrite rmatch_file_header.
  unfold header_here. rewrite Hp.
  change (startsWith "diff --git" (String "d" ("iff --git" ++ rest))) with true.
  cbn [andb].
  change (substring_from 10 (String "d" ("iff --git" ++ rest))) with rest.
  replace (String.length (String "d" ("iff --git" ++ rest)) - String.length rest) with 10.
  - reflexivity.
  - change (String "d" ("iff --git" ++ rest)) with ("diff --git" ++ rest)%string.
    rewrite length_append. cbn [String.length]. lia.
Qed.

Lemma startsWith_before_line_feed (w l rest : string) :
  no_line_terminator w = true -> startsWith w l = false ->
  startsWith w (l ++ String "010" rest) = false.
Proof.
  revert l. induction w as [|a w IH]; intros l Hw Hs; [discriminate|].
  cbn [no_line_terminator list_ascii_of_string forallb] in Hw.
  apply andb_prop in Hw as [Ha Hw].
  destruct l as [|b l].
  - rewrite append_Empty. cbn [startsWith].
    destruct (Ascii.eqb_spec a "010") as [->|_]; [discriminate Ha | reflexivity].
  - rewrite append_String. cbn [startsWith] in *.
    destruct (Ascii.eqb a b); [by apply IH | reflexivity].
Qed.

(** A line without a header in it goes to the current piece. *)
Lemma split_walk_line (x : string) :
  forall (prev : option ascii) (cur rest : string),
    no_line_terminator x = true ->
    header_here prev (x ++ String "010" rest) = false ->
    split_walk flags_m (re_source file_header) prev (x ++ String "010" rest) cur 0 =
    split_walk flags_m (re_source file_header) (Some "010"%char) rest
      (cur ++ x ++ String "010" EmptyString) 0.
Proof.
  induction x as [|c x IH]; intros prev cur rest Hx Hh.
  - rewrite !append_Empty in *. by apply split_walk_char.
  - cbn [no_line_terminator list_ascii_of_string forallb] in Hx.
    apply andb_prop in Hx as [Hc Hx].
    rewrite append_String in *. rewrite (split_walk_char _ _ _ _ Hh).
    rewrite IH; [|assumption|].
    + f_equal. rewrite append_assoc. reflexivity.
    + unfold header_here, at_line_start.
      apply negb_true_iff in Hc. rewrite Hc. by rewrite andb_false_r.
Qed.

Lemma split_walk_lines (ls : list string) :
  forall (prev : option ascii) (cur rest : string),
    forallb body_line ls = true ->
    split_walk flags_m (re_source file_header) prev (unlines ls ++ rest) cur 0 =
    split_walk flags_m (re_source file_header)
      (match ls with [] => prev | _ => Some "010"%char end) rest
      (cur ++ unlines ls) 0.
Proof.
  induction ls as [|l ls IH]; intros prev cur rest Hls.
  - cbn [unlines fold_right]. rewrite append_Empty.
    replace (cur ++ EmptyString)%string with cur; [reflexivity|].
    clear. induction cur as [|c cur IH]; [reflexivity|].
    rewrite append_String. by rewrite <- IH.
  - cbn [forallb] in Hls. apply andb_prop in Hls as [Hl Hls].
    unfold body_line in Hl. apply andb_prop in Hl as [Hlt Hnh].
    apply negb_true_iff in Hnh.
    change (unlines (l :: ls)) with (l ++ String "010" (unlines ls))%string.
    rewrite append_assoc, append_String.
    rewrite split_walk_line; [|assumption|].
    + rewrite (IH (Some "010"%char) _ rest Hls).
      replace (match ls with [] => Some "010"%char | _ :: _ => Some "010"%char end)
        with (Some "010"%char) by (by destruct ls).
      f_equal. rewrite !append_assoc, append_String, append_Empty. reflexivity.
    + unfold header_here.
      rewrite (startsWith_before_line_feed "diff --git" l _ eq_refl Hnh).
      apply andb_false_r.
Qed.

Lemma no_line_terminator_append (a b : string) :
  no_line_terminator (a ++ b) = (no_line_terminator a && no_line_terminator b)%bool.
Proof.
  induction a as [|c a IH]; [reflexivity|].
  rewrite append_String. unfold no_line_terminator in *.
  cbn [list_ascii_of_string forallb]. rewrite IH. by rewrite andb_assoc.
Qed.

Lemma well_formed_section_spec (sec : DiffSection.t) :
  well_formed_section sec = true ->
  DiffSection.old_path sec <> EmptyString /\
  no_line_terminator (DiffSection.old_path sec) = true /\
  includes " b/" (DiffSection.old_path sec) = false /\
  no_line_terminator (DiffSection.new_path sec) = true /\
  forallb body_line (DiffSection.body sec) = true.
Proof.
  unfold well_formed_section.
  intros [[[[Hne Ho]%andb_prop Hi]%andb_prop Hn]%andb_prop Hb]%andb_prop.
  apply negb_true_iff in Hne, Hi. repeat split; try assumption.
  intros Heq. by rewrite Heq in Hne.
Qed.

Lemma section_text_lines (sec : DiffSection.t) :
  section_text sec =
  ((" a/" ++ DiffSection.old_path sec ++ " b/" ++ DiffSection.new_path sec)
     ++ String "010" (unlines (DiffSection.body sec)))%string.
Proof. unfold section_text. by rewrite !append_assoc. Qed.

Lemma header_line_no_terminator (sec : DiffSection.t) :
  well_formed_section sec = true ->
  no_line_terminator
    (" a/" ++ DiffSection.old_path sec ++ " b/" ++ DiffSection.new_path sec) = true.
Proof.
  intros (_ & Ho & _ & Hn & _)%well_formed_section_spec.
  rewrite !no_line_terminator_append, Ho, Hn. reflexivity.
Qed.

Lemma split_walk_render (secs : list DiffSection.t) :
  forallb well_formed_section secs = true ->
  forall (prev : option ascii) (cur : string),
    at_line_start flags_m prev = true ->
    split_walk flags_m (re_source file_header) prev (render_diff secs) cur 0 =
    cur :: map section_text secs.
Proof.
  induction secs as [|sec secs IH]; intros Hwf prev cur Hp; [reflexivity|].
  cbn [forallb] in Hwf. apply andb_prop in Hwf as [Hsec Hwf].
  pose proof (header_line_no_terminator sec Hsec) as Hline.
  destruct (well_formed_section_spec sec Hsec) as (_ & _ & _ & _ & Hbody).
  cbn [render_diff fold_right map]. fold (render_diff secs).
  rewrite (split_walk_header prev _ cur Hp). f_equal.
  rewrite section_text_lines at 1.
  rewrite append_assoc,
    (append_String "010" (unlines (DiffSection.body sec)) (render_diff secs)).
  rewrite split_walk_line; [|exact Hline|reflexivity].
  rewrite (split_walk_lines _ _ _ _ Hbody).
  rewrite IH; [|assumption|by destruct (DiffSection.body sec)].
  f_equal. rewrite section_text_lines, append_Empty, !append_assoc.
  reflexivity.
Qed.

(** The sections of a rendered diff: the empty text before the first
    header, then the text of each section. *)
Lemma sections_render (secs : list DiffSection.t) :
  forallb well_formed_section secs = true ->
  sections (render_diff secs) = EmptyString :: map section_text secs.
Proof.
  intros Hwf. unfold sections, String_split.
  destruct secs as [|sec secs]; [reflexivity|].
  change (render_diff (sec :: secs))
    with (String "d" ("iff --git" ++ section_text sec ++ render_diff secs)).
  cbv iota.
  change (String "d" ("iff --git" ++ section_text sec ++ render_diff secs))
    with (render_diff (sec :: secs)).
  by apply split_walk_render.
Qed.

Lemma split_char_line (x rest : string) :
  no_line_terminator x = true ->
  split_char "010" (x ++ String "010" rest) = x :: split_char "010" rest.
Proof.
  induction x as [|c x IH]; intros Hx; [reflexivity|].
  cbn [no_line_terminator list_ascii_of_string forallb] in Hx.
  apply andb_prop in Hx as [Hc Hx].
  rewrite append_String. cbn [split_char]. rewrite (IH Hx).
  destruct (Ascii.eqb_spec c "010") as [->|_]; [discriminate Hc | reflexivity].
Qed.

Lemma split_char_unlines (ls : list string) :
  forallb no_line_terminator ls = true ->
  split_char "010" (unlines ls) = ls ++ [EmptyString].
Proof.
  induction ls as [|l ls IH]; intros Hls; [reflexivity|].
  cbn [forallb] in Hls. apply andb_prop in Hls as [Hl Hls].
  change (unlines (l :: ls)) with (l ++ String "010" (unlines ls))%string.
  rewrite (split_char_line _ _ Hl), (IH Hls). reflexivity.
Qed.

Lemma body_lines_no_terminator (ls : list string) :
  forallb body_line ls = true -> forallb no_line_terminator ls = true.
Proof.
  rewrite !forallb_forall. intros Hb l Hl.
  apply Hb in Hl. unfold body_line in Hl. by apply andb_prop in Hl as [? _].
Qed.

Lemma added_lines_section (sec : DiffSection.t) :
  well_formed_section sec = true -> added_lines (section_text sec) = added_text sec.
Proof.
  intros Hsec. pose proof (header_line_no_terminator sec Hsec) as Hline.
  destruct (well_formed_section_spec sec Hsec) as (_ & _ & _ & _ & Hbody).
  unfold added_lines, added_text.
  rewrite section_text_lines, (split_char_line _ _ Hline).
  rewrite (split_char_unlines _ (body_lines_no_terminator _ Hbody)).
  rewrite filter_cons, decide_False.
  - rewrite filter_app, filter_cons, decide_False by discriminate.
    rewrite filter_nil, app_nil_r. reflexivity.
  - rewrite !append_String. discriminate.
Qed.

Lemma section_name_section (sec : DiffSection.t) :
  well_formed_section sec = true ->
  section_name (section_text sec) = Some (DiffSection.old_path sec).
Proof.
  intros (Hne & Ho & Hi & _)%well_formed_section_spec.
  by apply section_name_header.
Qed.

Lemma last_section_render (name : string) (secs : list DiffSection.t) :
  forallb well_formed_section secs = true ->
  last_section name (EmptyString :: map section_text secs) =
  option_map section_text (last_section_of name secs).
Proof.
  intros Hwf. unfold last_section, last_section_of. cbn [fold_left].
  change (if decide (section_name EmptyString = Some name) then Some EmptyString else None)
    with (option_map section_text None).
  generalize (@None DiffSection.t).
  induction secs as [|sec secs IH]; intros found; [reflexivity|].
  cbn [forallb] in Hwf. apply andb_prop in Hwf as [Hsec Hwf].
  cbn [map fold_left]. rewrite (section_name_section sec Hsec).
  rewrite <- (IH Hwf). f_equal.
  destruct (decide (DiffSection.old_path sec = name)) as [->|Hne].
  - rewrite decide_True by reflexivity. reflexivity.
  - rewrite decide_False by congruence. reflexivity.
Qed.

(** On a diff as [git] writes it, the parser maps a path to the added
    lines of the last section whose old-file path it is. *)
Lemma parseDiff_render (secs : list DiffSection.t) (name : string) :
  forallb well_formed_section secs = true -> name <> "__proto__" ->
  parseDiff (DiffText (render_diff secs)) !! name =
  option_map added_text (last_section_of name secs).
Proof.
  intros Hwf Hname.
  rewrite (parseDiff_lookup _ _ Hname), (sections_render _ Hwf).
  rewrite (last_section_render _ _ Hwf).
  assert (Hin : forall sec, last_section_of name secs = Some sec ->
                            well_formed_section sec = true).
  { unfold last_section_of.
    assert (Hgen : forall found : option DiffSection.t,
              (forall sec, found = Some sec -> well_formed_section sec = true) ->
              forall sec,
                fold_left (fun found sec =>
                  if decide (DiffSection.old_path sec = name) then Some sec else found)
                  secs found = Some sec ->
                well_formed_section sec = true).
    { induction secs as [|s0 secs IH]; intros found Hfound sec; cbn [fold_left].
      - apply Hfound.
      - cbn [forallb] in Hwf. apply andb_prop in Hwf as [Hs0 Hwf].
        apply (IH Hwf). intros sec'. case_decide; [|apply Hfound].
        intros Heq. by simplify_eq. }
    apply Hgen. discriminate. }
  destruct (last_section_of name secs) as [sec|]; [|reflexivity].
  cbn [option_map]. by rewrite (added_lines_section sec (Hin sec eq_refl)).
Qed.

(** C6 (as amended).  On a diff as [git] writes it (sections
    [diff --git a/old b/new] followed by their lines), the parser maps a
    path to the added lines (the lines that begin with [+] but not with
    [+++], without the [+], joined by line feeds) of the last section whose
    old-file path it is.  On any text, it maps a name to the added lines of
    the last section of that name, the name of a section being the text
    captured between [a/] and the next [ b/]; a section without a name is
    skipped, and the sections around it contribute as they do without it. *)
Theorem parseDiff_by_sections (name : string) :
  name <> "__proto__" ->
  (forall secs,
     forallb well_formed_section secs = true ->
     parseDiff (DiffText (render_diff secs)) !! name =
     option_map added_text (last_section_of name secs)) /\
  (forall diff,
     parseDiff (DiffText diff) !! name =
     option_map added_lines (last_section name (sections diff))) /\
  (forall before part after files,
     section_name part = None ->
     fold_left parse_part (before ++ part :: after) files =
     fold_left parse_part (before ++ after) files).
Proof.
  intros Hname. split; [|split].
  - intros secs Hwf. by apply parseDiff_render.
  - intros diff. rewrite (parseDiff_lookup _ _ Hname).
    by destruct (last_section name (sections diff)).
  - intros before part after files. apply fold_parse_part_skip.
Qed.

Lemma parseDiff_by_sections_witness :
  "lib/util.js" <> "__proto__" /\
  forallb well_formed_section renamed_sections = true /\
  parseDiff (DiffText (render_diff renamed_sections)) !! "lib/util.js"
    = Some (join (String "010" EmptyString) ["first"; "second"]) /\
  map section_name (sections renamed_diff)
    = [None; Some "old.js"; None; Some "lib/util.js"] /\
  parseDiff (DiffText renamed_diff) !! "lib/util.js"
    = Some (join (String "010" EmptyString) ["first"; "second"]).
Proof.
  assert (Hname : "lib/util.js" <> "__proto__") by discriminate.
  assert (Hwf : forallb well_formed_section renamed_sections = true) by run.
  split; [exact Hname|]. split; [exact Hwf|]. split; [|split; [run|]].
  - rewrite (proj1 (parseDiff_by_sections "lib/util.js" Hname) renamed_sections Hwf).
    run.
  - rewrite (proj1 (proj2 (parseDiff_by_sections "lib/util.js" Hname)) renamed_diff).
    run.
Defined.

(** C6 (as stated) fails on a renamed file: the section
    [diff --git a/old.js b/new.js] is stored under the old path, and the
    new-file path is not a key of the map. *)
Lemma renamed_file_is_stored_under_old_path :
  parseDiff (DiffText (render_diff renamed_sections)) !! "new.js" = None /\
  parseDiff (DiffText (render_diff renamed_sections)) !! "old.js"
    = Some "const b = 2;".
Proof. split; run. Qed.

(** * Further properties *)

(** ** The findings of a report *)

Lemma matched_rules_app `{GlobMatcher} (fn : string) (rules extra : list RiskRule.t) :
  matched_rules fn (rules ++ extra) = matched_rules fn rules ++ matched_rules fn extra.
Proof. unfold matched_rules. apply filter_app. Qed.

Lemma elem_of_matched_rules `{GlobMatcher} (fn : string) (rules : list RiskRule.t)
    (p : RiskRule.t) :
  p ∈ matched_rules fn rules <-> p ∈ rules /\ matches fn (RiskRule.pattern p) = true.
Proof. unfold matched_rules. rewrite list_elem_of_filter. tauto. Qed.

Lemma matches_string `{GlobMatcher} (fn : string) (p : JsPattern) :
  matches fn p = true -> exists s, p = PatString s /\ glob fn s = true.
Proof. destruct p as [s|]; [eauto | discriminate]. Qed.

Lemma classify_finding `{GlobMatcher} (files : list ChangedFile.t)
    (rules : list RiskRule.t) (ign : list JsPattern) (r : RiskReport.t)
    (fd : RiskFinding.t) :
  classify files rules ign = Ret r ->
  fd ∈ RiskReport.files r <->
  exists file, file ∈ files /\ reported rules ign file /\ fd = finding_of rules file.
Proof.
  intros Hrun. rewrite (classify_files _ _ _ _ Hrun), list_elem_of_fmap.
  split.
  - intros (file & -> & [Hrep Hin]%list_elem_of_filter). eauto.
  - intros (file & Hin & Hrep & ->). exists file. split; [done|].
    by apply list_elem_of_filter.
Qed.

(** X1.  The findings of a report are the findings of the files that are
    not ignored and match at least one rule, one for each such entry of the
    input and in the order of the input. *)
Theorem findings_follow_the_input `{GlobMatcher} (files : list ChangedFile.t)
    (rules : list RiskRule.t) (customPatterns : list CustomPattern)
    (ign : list JsPattern) :
  (forall r, classify files rules ign = Ret r ->
     RiskReport.files r = map (finding_of rules) (filter (reported rules ign) files) /\
     map RiskFinding.filename (RiskReport.files r)
       `sublist_of` map ChangedFile.filename files) /\
  (forall r, analyzeRisk files customPatterns ign = Ret r ->
     exists custom,
       mapM custom_rule customPatterns = Ret custom /\
       RiskReport.files r =
         map (finding_of (DEFAULT_RISK_PATTERNS ++ custom))
             (filter (reported (DEFAULT_RISK_PATTERNS ++ custom) ign) files)).
Proof.
  split.
  - intros r Hrun. pose proof (classify_files _ _ _ _ Hrun) as Hfiles.
    split; [done|]. rewrite Hfiles, <- list_fmap_compose.
    change (RiskFinding.filename ∘ finding_of rules) with ChangedFile.filename.
    apply fmap_sublist, sublist_filter.
  - intros r (custom & Hc & Hrun)%analyzeRisk_classify.
    exists custom. split; [done|]. by apply classify_files.
Qed.

Lemma findings_follow_the_input_witness :
  exists r,
    analyzeRisk (H := simple_glob)
      [env_production; package_lock; vendor_settings; checkout_js; env_production]
      [CustomString "**/payments/**"] [PatString "**/vendor/**"] = Ret r /\
    map RiskFinding.filename (RiskReport.files r) =
      [".env.production"; "package-lock.json"; "src/payments/checkout.js";
       ".env.production"] /\
    exists custom,
      mapM custom_rule [CustomString "**/payments/**"] = Ret custom /\
      RiskReport.files r =
        map (finding_of (H := simple_glob) (DEFAULT_RISK_PATTERNS ++ custom))
            (filter (reported (H := simple_glob) (DEFAULT_RISK_PATTERNS ++ custom)
                       [PatString "**/vendor/**"])
               [env_production; package_lock; vendor_settings; checkout_js;
                env_production]).
Proof.
  eexists. split; [run|]. split; [reflexivity|].
  apply (proj2 (findings_follow_the_input (H := simple_glob)
                  [env_production; package_lock; vendor_settings; checkout_js;
                   env_production]
                  [] [CustomString "**/payments/**"] [PatString "**/vendor/**"])).
  run.
Defined.

(** X2.  A finding copies the entry of the input it stems from; its
    patterns are string globs that match its file name, one message goes
    with each of them, and its categories are the categories of the
    matching rules, each listed once. *)
Theorem finding_lists_its_matching_rules `{GlobMatcher}
    (files : list ChangedFile.t) (rules : list RiskRule.t)
    (ign : list JsPattern) (r : RiskReport.t) (fd : RiskFinding.t) :
  classify files rules ign = Ret r ->
  fd ∈ RiskReport.files r ->
  (exists file, file ∈ files /\
     RiskFinding.filename fd = ChangedFile.filename file /\
     RiskFinding.status fd = ChangedFile.status file /\
     RiskFinding.additions fd = ChangedFile.additions file /\
     RiskFinding.deletions fd = ChangedFile.deletions file) /\
  (forall p, p ∈ RiskFinding.patterns fd ->
     exists s, p = PatString s /\ glob (RiskFinding.filename fd) s = true) /\
  length (RiskFinding.messages fd) = length (RiskFinding.patterns fd) /\
  1 <= length (RiskFinding.patterns fd) /\
  NoDup (RiskFinding.categories fd) /\
  (forall c, c ∈ RiskFinding.categories fd <->
     exists p, p ∈ rules /\ RiskRule.category p = c /\
               matches (RiskFinding.filename fd) (RiskRule.pattern p) = true).
Proof.
  intros Hrun Hfd.
  apply (classify_finding _ _ _ _ _ Hrun) in Hfd as (file & Hin & [_ Hms] & ->).
  cbn [finding_of RiskFinding.filename RiskFinding.status RiskFinding.additions
       RiskFinding.deletions RiskFinding.patterns RiskFinding.messages
       RiskFinding.categories].
  split; [by exists file|].
  split.
  { intros p (q & -> & [_ Hq]%elem_of_matched_rules)%list_elem_of_fmap.
    by apply matches_string. }
  split; [by rewrite !length_map|].
  split.
  { rewrite length_map. destruct (matched_rules _ rules); [done | cbn; lia]. }
  split; [apply set_of_NoDup|].
  intros c. rewrite elem_of_set_of, list_elem_of_fmap. split.
  - intros (p & -> & [Hp Hm]%elem_of_matched_rules). eauto.
  - intros (p & Hp & <- & Hm). exists p. split; [done|].
    by apply elem_of_matched_rules.
Qed.

Lemma finding_lists_its_matching_rules_witness :
  exists r fd,
    classify (H := simple_glob) [checkout_js; env_production]
      (DEFAULT_RISK_PATTERNS ++ payment_rules) [] = Ret r /\
    fd ∈ RiskReport.files r /\
    RiskFinding.filename fd = "src/payments/checkout.js" /\
    length (RiskFinding.patterns fd) = 3 /\
    RiskFinding.categories fd = ["financial"] /\
    NoDup (RiskFinding.categories fd).
Proof.
  eexists. eexists. split; [run|]. split; [apply list_elem_of_here|].
  do 3 (split; [reflexivity|]).
  refine (proj1 (proj2 (proj2 (proj2 (proj2
    (finding_lists_its_matching_rules (H := simple_glob)
       [checkout_js; env_production] (DEFAULT_RISK_PATTERNS ++ payment_rules) []
       _ _ _ _)))))).
  - run.
  - apply list_elem_of_here.
Defined.

(** ** The category index of a report *)

Lemma filed_under_snoc (c : string) (fs : list RiskFinding.t) (fd : RiskFinding.t) :
  filed_under c (fs ++ [fd]) =
  filed_under c fs ++
    (if decide (c ∈ RiskFinding.categories fd) then [RiskFinding.filename fd] else []).
Proof.
  unfold filed_under. rewrite filter_app, map_app. f_equal.
  rewrite filter_cons, filter_nil. by destruct (decide _).
Qed.

Lemma category_index_pushed (c : string) (fs : list RiskFinding.t)
    (bc : gmap string (list string)) (fn : string) :
  bc !! c = category_index fs c ->
  pushed fn bc c = filed_under c fs ++ [fn].
Proof.
  unfold pushed, category_index. intros ->.
  by destruct (filed_under c fs).
Qed.

Lemma risk_file_index `{GlobMatcher} (rules : list RiskRule.t)
    (ign : list JsPattern) (file : ChangedFile.t) (res res' : RiskReport.t) :
  (forall c, RiskReport.byCategory res !! c = category_index (RiskReport.files res) c) ->
  risk_file rules ign file res = Ret res' ->
  forall c, RiskReport.byCategory res' !! c = category_index (RiskReport.files res') c.
Proof.
  intros Hinv. rewrite risk_file_unfold.
  destruct (someM _ ign) as [[|]|]; [by intros; simplify_eq| |done].
  destruct (forallb _ rules); [|done].
  destruct (matched_rules _ rules) eqn:Hms; [by intros; simplify_eq|].
  rewrite (for_of_add_to_category _ (RiskReport.byCategory res));
    [|apply set_of_NoDup|done].
  destruct (category_clash _ _); [done|]. cbn [mbind Exc_bind]. intros Heq c.
  simplify_eq. cbn [record_finding RiskReport.byCategory RiskReport.files].
  rewrite lookup_insert_all. unfold category_index at 1.
  rewrite filed_under_snoc. destruct (decide _) as [Hin|Hnot].
  - rewrite (category_index_pushed _ _ _ _ (Hinv c)).
    by destruct (filed_under c (RiskReport.files res)).
  - rewrite app_nil_r. apply Hinv.
Qed.

(** X3.  The category index of a report lists, under every category, the
    names of the findings that carry the category, in the order of the
    findings, and has no other key. *)
Theorem category_index_of_report `{GlobMatcher} (files : list ChangedFile.t)
    (rules : list RiskRule.t) (customPatterns : list CustomPattern)
    (ign : list JsPattern) :
  (forall r c, classify files rules ign = Ret r ->
     RiskReport.byCategory r !! c = category_index (RiskReport.files r) c) /\
  (forall r c, analyzeRisk files customPatterns ign = Ret r ->
     RiskReport.byCategory r !! c = category_index (RiskReport.files r) c).
Proof.
  assert (Hc : forall rules r c, classify files rules ign = Ret r ->
     RiskReport.byCategory r !! c = category_index (RiskReport.files r) c).
  { intros rs r c Hrun. revert c.
    apply (for_of_invariant
             (fun res => forall c, RiskReport.byCategory res !! c
                                   = category_index (RiskReport.files res) c)
             (risk_file rs ign) files empty_risk_report r); [done| |done].
    intros file s s' _. apply risk_file_index. }
  split; [apply Hc|].
  intros r c (custom & _ & Hrun)%analyzeRisk_classify. exact (Hc _ r c Hrun).
Qed.

Lemma category_index_of_report_witness :
  exists r,
    analyzeRisk (H := simple_glob)
      [env_production; package_lock; vendor_settings; checkout_js]
      [CustomString "**/payments/**"] [] = Ret r /\
    category_index (RiskReport.files r) "config" = Some ["vendor/config/settings.json"] /\
    RiskReport.byCategory r !! "config" = category_index (RiskReport.files r) "config".
Proof.
  eexists. split; [run|]. split; [reflexivity|].
  apply (proj2 (category_index_of_report (H := simple_glob)
                  [env_production; package_lock; vendor_settings; checkout_js]
                  [] [CustomString "**/payments/**"] [])).
  run.
Defined.

(** ** Adding rules *)

Lemma rank_three (s : string) : known_severity s -> 3 <= rank s -> s = "high".
Proof. intros [-> | [-> | ->]]; [done | |]; vm_compute; lia. Qed.

Lemma max_list_append (l k : list nat) :
  max_list (l ++ k) = Nat.max (max_list l) (max_list k).
Proof. induction l as [|x l IH]; cbn; [done | rewrite IH; lia]. Qed.

Lemma severity_high_iff (ms : list RiskRule.t) :
  getHighestSeverity ms = "high" <->
  exists p, p ∈ ms /\ RiskRule.severity p = "high".
Proof.
  split.
  - intros Hhigh.
    destruct (getHighestSeverity_attained ms) as (p & Hp & Hsev).
    + assert (Hr : rank (getHighestSeverity ms) = 3) by (by rewrite Hhigh).
      rewrite getHighestSeverity_rank in Hr.
      assert (Hmax : max_list (map (fun p => rank (RiskRule.severity p)) ms) = 3) by lia.
      assert (Hne : map (fun p => rank (RiskRule.severity p)) ms <> []).
      { intros Hnil. rewrite Hnil in Hmax. cbn in Hmax. lia. }
      apply max_list_attained in Hne. rewrite Hmax in Hne.
      apply list_elem_of_fmap in Hne as (p & Hrank & Hp).
      exists p. split; [done|]. apply known_severity_rank.
      unfold rank in Hrank. destruct (severityOrder _); [done | cbn in Hrank; lia].
    + exists p. split; [done|]. by rewrite Hsev.
  - intros (p & Hp & Hsev). apply rank_three; [apply getHighestSeverity_known|].
    pose proof (getHighestSeverity_upper ms p Hp) as Hle.
    rewrite Hsev in Hle. exact Hle.
Qed.

Section MoreRules.
Context `{GlobMatcher}.
Variables (rules extra : list RiskRule.t) (ign : list JsPattern).

Lemma reported_more (file : ChangedFile.t) :
  reported rules ign file -> reported (rules ++ extra) ign file.
Proof.
  intros [Hign Hms]. split; [done|]. rewrite matched_rules_app.
  destruct (matched_rules _ rules); [done | discriminate].
Qed.

Lemma finding_of_more (file : ChangedFile.t) :
  rank (RiskFinding.severity (finding_of rules file))
    <= rank (RiskFinding.severity (finding_of (rules ++ extra) file)) /\
  RiskFinding.categories (finding_of rules file)
    ⊆ RiskFinding.categories (finding_of (rules ++ extra) file).
Proof.
  cbn [finding_of RiskFinding.severity RiskFinding.categories]. split.
  - rewrite !getHighestSeverity_rank, matched_rules_app, map_app, max_list_append. lia.
  - intros c. rewrite !elem_of_set_of, matched_rules_app, map_app, elem_of_app. tauto.
Qed.

Lemma count_high_more (files : list ChangedFile.t) :
  count_severity "high" (map (finding_of rules) (filter (reported rules ign) files))
  <= count_severity "high"
       (map (finding_of (rules ++ extra)) (filter (reported (rules ++ extra) ign) files)).
Proof.
  unfold count_severity. induction files as [|file files IH]; [done|].
  rewrite !filter_cons.
  destruct (decide (reported rules ign file)) as [Hrep|Hnot].
  - destruct (decide (reported (rules ++ extra) ign file)) as [_|[]];
      [|by apply reported_more].
    cbn [map]. rewrite !filter_cons.
    destruct (decide (RiskFinding.severity (finding_of rules file) = "high")) as [Hh|_].
    + destruct (decide (RiskFinding.severity (finding_of (rules ++ extra) file) = "high"))
        as [_|[]]; [cbn [length]; lia|].
      apply rank_three; [apply getHighestSeverity_known|].
      pose proof (proj1 (finding_of_more file)) as Hle. by rewrite Hh in Hle.
    + destruct (decide _); cbn [length]; lia.
  - destruct (decide (reported (rules ++ extra) ign file)); [|done].
    cbn [map]. rewrite filter_cons. destruct (decide _); cbn [length]; lia.
Qed.
End MoreRules.

(** X5.  The counter of high-risk files is positive exactly when some
    file of the input is not ignored and matches a rule of severity
    [high]. *)
Theorem high_risk_count_positive_iff `{GlobMatcher}
    (files : list ChangedFile.t) (rules : list RiskRule.t)
    (ign : list JsPattern) (r : RiskReport.t) :
  classify files rules ign = Ret r ->
  0 < RiskReport.highRiskCount r <->
  exists file p,
    file ∈ files /\ not_ignored (ChangedFile.filename file) ign /\
    p ∈ rules /\ matches (ChangedFile.filename file) (RiskRule.pattern p) = true /\
    RiskRule.severity p = "high".
Proof.
  intros Hrun. destruct (classify_counts _ _ _ _ Hrun) as [-> _].
  unfold count_severity. split.
  - intros Hpos.
    destruct (filter _ (RiskReport.files r)) as [|fd l] eqn:Hf; [cbn in Hpos; lia|].
    assert (Hfd : fd ∈ filter (fun fd => RiskFinding.severity fd = "high")
                          (RiskReport.files r)).
    { rewrite Hf. apply list_elem_of_here. }
    apply list_elem_of_filter in Hfd as [Hhigh Hin].
    apply (classify_finding _ _ _ _ _ Hrun) in Hin as (file & Hin & [Hign _] & ->).
    cbn [finding_of RiskFinding.severity] in Hhigh.
    apply severity_high_iff in Hhigh as (p & [Hp Hm]%elem_of_matched_rules & Hsev).
    exists file, p. done.
  - intros (file & p & Hin & Hign & Hp & Hm & Hsev).
    assert (Hmp : p ∈ matched_rules (ChangedFile.filename file) rules).
    { by apply elem_of_matched_rules. }
    assert (Hfd : finding_of rules file
                  ∈ filter (fun fd => RiskFinding.severity fd = "high")
                      (RiskReport.files r)).
    { apply list_elem_of_filter. split.
      - apply severity_high_iff. eauto.
      - apply (classify_finding _ _ _ _ _ Hrun). exists file.
        split; [done|]. split; [|done]. split; [done|].
        intros Hnil. rewrite Hnil in Hmp. by apply elem_of_nil in Hmp. }
    destruct (filter _ (RiskReport.files r)); [by apply elem_of_nil in Hfd|].
    cbn [length]. lia.
Qed.

Lemma high_risk_count_positive_iff_witness :
  exists r,
    classify (H := simple_glob) [package_lock; env_production]
      DEFAULT_RISK_PATTERNS [] = Ret r /\
    RiskReport.highRiskCount r = 1 /\
    (0 < RiskReport.highRiskCount r <->
     exists file p,
       file ∈ [package_lock; env_production] /\
       not_ignored (H := simple_glob) (ChangedFile.filename file) [] /\
       p ∈ DEFAULT_RISK_PATTERNS /\
       matches (H := simple_glob) (ChangedFile.filename file) (RiskRule.pattern p) = true /\
       RiskRule.severity p = "high").
Proof.
  eexists. split; [run|]. split; [reflexivity|].
  apply (high_risk_count_positive_iff (H := simple_glob)
           [package_lock; env_production] DEFAULT_RISK_PATTERNS []).
  run.
Defined.

(** ** Runs that throw *)

Lemma for_of_throws {A St} (P : St -> Prop) (body : A -> St -> Exc St)
    (l : list A) (x : A) :
  x ∈ l ->
  (forall s, P s -> body x s = Throw TypeError) ->
  (forall y s s', P s -> body y s = Ret s' -> P s') ->
  forall st, P st -> for_of body l st = Throw TypeError.
Proof.
  intros Hin Hx Hstep. induction l as [|y l IH]; intros st Hst.
  { by apply elem_of_nil in Hin. }
  cbn [for_of]. apply elem_of_cons in Hin as [<- | Hin].
  - by rewrite (Hx st Hst).
  - destruct (body y st) as [s'|[]] eqn:Hy; [|done]. cbn.
    apply IH; [done|]. by apply (Hstep y st).
Qed.

Lemma for_of_unchanged {A St} (body : A -> St -> Exc St) (l : list A) (st : St) :
  (forall x, x ∈ l -> body x st = Ret st) -> for_of body l st = Ret st.
Proof.
  induction l as [|x l IH]; intros Hl; [done|]. cbn [for_of].
  rewrite (Hl x) by apply list_elem_of_here. cbn.
  apply IH. intros y Hy. apply Hl. by apply list_elem_of_further.
Qed.

Lemma mapM_throws {A B} (f : A -> Exc B) (l : list A) (x : A) :
  x ∈ l -> f x = Throw TypeError -> mapM f l = Throw TypeError.
Proof.
  intros Hin Hx. induction l as [|y l IH]; [by apply elem_of_nil in Hin|].
  cbn [mapM]. apply elem_of_cons in Hin as [<- | Hin].
  - by rewrite Hx.
  - destruct (f y) as [b|[]]; [|done]. cbn. by rewrite (IH Hin).
Qed.

Lemma mapM_custom_rule (cps : list CustomPattern) :
  CustomNull ∉ cps ->
  exists custom,
    mapM custom_rule cps = Ret custom /\
    forall c, c ∈ cps -> exists p, p ∈ custom /\ custom_rule c = Ret p.
Proof.
  induction cps as [|c cps IH]; intros Hnull.
  { exists []. split; [done|]. by intros c Hc%elem_of_nil. }
  destruct IH as (custom & Hcustom & Hall).
  { intros Hin. apply Hnull. by apply list_elem_of_further. }
  assert (Hc : exists p, custom_rule c = Ret p).
  { destruct c; cbn; eauto. destruct Hnull. apply list_elem_of_here. }
  destruct Hc as [p Hp]. exists (p :: custom). split.
  - cbn [mapM]. by rewrite Hp, Hcustom.
  - intros c' [-> | Hin]%elem_of_cons.
    + exists p. split; [apply list_elem_of_here | done].
    + destruct (Hall c' Hin) as (p' & ? & ?). exists p'.
      split; [by apply list_elem_of_further | done].
Qed.

Lemma classify_non_string_rule `{GlobMatcher} (files : list ChangedFile.t)
    (rules : list RiskRule.t) (ign : list JsPattern) (p : RiskRule.t) :
  p ∈ rules -> RiskRule.pattern p = PatOther ->
  classify files rules ign =
  if forallb (fun file => bool_decide (ignored (ChangedFile.filename file) ign)) files
  then Ret empty_risk_report else Throw TypeError.
Proof.
  intros Hp Hpat.
  assert (Hrules : forall f,
            forallb (fun p => returns f (RiskRule.pattern p)) rules = false).
  { intros f. apply not_true_is_false. intros Hall. rewrite forallb_forall in Hall.
    apply list_elem_of_In, (Hall p) in Hp. by rewrite Hpat in Hp. }
  unfold classify. induction files as [|file files IH]; [done|].
  cbn [for_of forallb]. rewrite risk_file_unfold, Hrules.
  destruct (someM (minimatch (ChangedFile.filename file)) ign) as [[|]|[]] eqn:Hs.
  - rewrite bool_decide_eq_true_2 by exact Hs. exact IH.
  - rewrite bool_decide_eq_false_2; [done|]. unfold ignored. congruence.
  - rewrite bool_decide_eq_false_2; [done|]. unfold ignored. congruence.
Qed.

(** X6.  Malformed entries of [customPatterns].  A [null] entry makes the
    classifier throw whatever the files are, even for an empty list.  An
    entry that is neither a string nor an object with a glob string (a
    number, say) passes unnoticed as long as every file is ignored, and
    makes the classifier throw as soon as one file is not (a file for
    which an ignore pattern makes [minimatch] throw is not). *)
Theorem malformed_custom_patterns `{GlobMatcher} (files : list ChangedFile.t)
    (customPatterns : list CustomPattern) (ign : list JsPattern) :
  (CustomNull ∈ customPatterns ->
   analyzeRisk files customPatterns ign = Throw TypeError) /\
  (CustomNull ∉ customPatterns -> CustomScalar ∈ customPatterns ->
   analyzeRisk files customPatterns ign =
   if forallb (fun file => bool_decide (ignored (ChangedFile.filename file) ign)) files
   then Ret empty_risk_report else Throw TypeError).
Proof.
  split.
  - intros Hnull. unfold analyzeRisk.
    by rewrite (mapM_throws custom_rule customPatterns CustomNull Hnull).
  - intros Hnull Hscalar.
    destruct (mapM_custom_rule customPatterns Hnull) as (custom & Hcustom & Hall).
    unfold analyzeRisk. rewrite Hcustom. cbn [mbind Exc_bind].
    destruct (Hall _ Hscalar) as (p & Hp & Heq). cbn in Heq. simplify_eq.
    eapply classify_non_string_rule; [apply elem_of_app; right; exact Hp|].
    reflexivity.
Qed.

Lemma malformed_custom_patterns_witness :
  analyzeRisk (H := simple_glob) [] [CustomString "**/x"; CustomNull] []
    = Throw TypeError /\
  analyzeRisk (H := simple_glob) [vendor_settings] [CustomScalar]
    [PatString "**/vendor/**"] = Ret empty_risk_report /\
  analyzeRisk (H := simple_glob) [vendor_settings; checkout_js] [CustomScalar]
    [PatString "**/vendor/**"] = Throw TypeError.
Proof.
  split.
  { apply (proj1 (malformed_custom_patterns (H := simple_glob) []
                    [CustomString "**/x"; CustomNull] [])).
    apply list_elem_of_further, list_elem_of_here. }
  assert (Hnull : CustomNull ∉ [CustomScalar]).
  { intros Hin. apply list_elem_of_singleton in Hin. discriminate Hin. }
  split.
  - rewrite (proj2 (malformed_custom_patterns (H := simple_glob) [vendor_settings]
                      [CustomScalar] [PatString "**/vendor/**"]) Hnull);
      [reflexivity | apply list_elem_of_here].
  - rewrite (proj2 (malformed_custom_patterns (H := simple_glob)
                      [vendor_settings; checkout_js]
                      [CustomScalar] [PatString "**/vendor/**"]) Hnull);
      [reflexivity | apply list_elem_of_here].
Defined.

Lemma risk_file_no_inherited_key `{GlobMatcher} (rules : list RiskRule.t)
    (ign : list JsPattern) (file : ChangedFile.t) (res res' : RiskReport.t) :
  (forall c, inherited c = true -> RiskReport.byCategory res !! c = None) ->
  risk_file rules ign file res = Ret res' ->
  forall c, inherited c = true -> RiskReport.byCategory res' !! c = None.
Proof.
  intros Hinv. rewrite risk_file_unfold.
  destruct (someM _ ign) as [[|]|]; [intros Heq; simplify_eq; exact Hinv| |done].
  destruct (forallb _ rules); [|done].
  destruct (matched_rules _ rules) eqn:Hms; [intros Heq; simplify_eq; exact Hinv|].
  rewrite (for_of_add_to_category _ (RiskReport.byCategory res));
    [|apply set_of_NoDup|done].
  destruct (category_clash _ _) eqn:Hclash; [done|]. cbn [mbind Exc_bind].
  intros Heq c Hc. simplify_eq. cbn [record_finding RiskReport.byCategory].
  rewrite lookup_insert_all. destruct (decide _) as [Hin|_]; [|by apply Hinv].
  unfold category_clash in Hclash. apply not_true_iff_false in Hclash.
  destruct Hclash. apply existsb_exists. exists c. split.
  - by apply list_elem_of_In.
  - rewrite Hc, andb_true_r. apply bool_decide_eq_true. by apply Hinv.
Qed.

(** X7.  A category named like a property of [Object.prototype]
    ([constructor], [toString], ...) cannot be filed: once a file that is
    not ignored matches a rule of such a category, the classifier
    throws. *)
Theorem inherited_category_throws `{GlobMatcher} (files : list ChangedFile.t)
    (rules : list RiskRule.t) (ign : list JsPattern)
    (file : ChangedFile.t) (p : RiskRule.t) :
  file ∈ files ->
  not_ignored (ChangedFile.filename file) ign ->
  p ∈ rules ->
  matches (ChangedFile.filename file) (RiskRule.pattern p) = true ->
  inherited (RiskRule.category p) = true ->
  classify files rules ign = Throw TypeError.
Proof.
  intros Hin Hign Hp Hm Hinh. unfold classify.
  apply (for_of_throws
           (fun res => forall c, inherited c = true ->
                                 RiskReport.byCategory res !! c = None)
           _ files file Hin); [| |done].
  - intros res Hinv. rewrite risk_file_unfold. unfold not_ignored in Hign.
    rewrite Hign. destruct (forallb _ rules); [|done].
    assert (Hmp : p ∈ matched_rules (ChangedFile.filename file) rules).
    { by apply elem_of_matched_rules. }
    destruct (matched_rules _ rules) as [|q ms] eqn:Hms; [by apply elem_of_nil in Hmp|].
    rewrite (for_of_add_to_category _ (RiskReport.byCategory res));
      [|apply set_of_NoDup|done].
    assert (Hclash : category_clash (RiskReport.byCategory res)
                       (RiskFinding.categories (finding_of rules file)) = true).
    { apply existsb_exists. exists (RiskRule.category p). split.
      - apply list_elem_of_In. cbn [finding_of RiskFinding.categories].
        apply elem_of_set_of, list_elem_of_fmap. exists p. by rewrite Hms.
      - rewrite Hinh, andb_true_r. apply bool_decide_eq_true. by apply Hinv. }
    by rewrite Hclash.
  - intros y s s' Hinv Hy. by apply (risk_file_no_inherited_key rules ign y s).
Qed.

Lemma inherited_category_throws_witness :
  classify (H := simple_glob) [package_lock; checkout_js]
    [RiskRule.mk (PatString "**/payments/**") "constructor" "high" "Payment code"] []
  = Throw TypeError.
Proof.
  apply (inherited_category_throws (H := simple_glob) [package_lock; checkout_js]
           [RiskRule.mk (PatString "**/payments/**") "constructor" "high" "Payment code"]
           [] checkout_js
           (RiskRule.mk (PatString "**/payments/**") "constructor" "high" "Payment code")).
  - apply list_elem_of_further, list_elem_of_here.
  - reflexivity.
  - apply list_elem_of_here.
  - reflexivity.
  - reflexivity.
Defined.

(** ** Exceptions are raised file by file *)

Lemma category_clash_inherited (bc : gmap string (list string)) (cats : list string) :
  (forall c, inherited c = true -> bc !! c = None) ->
  category_clash bc cats = existsb inherited cats.
Proof.
  intros Hinv. unfold category_clash. induction cats as [|c cats IH]; [done|].
  cbn [existsb]. rewrite IH. f_equal.
  destruct (inherited c) eqn:Hc; [|apply andb_false_r].
  rewrite andb_true_r. apply bool_decide_eq_true. by apply Hinv.
Qed.

Lemma risk_file_returns `{GlobMatcher} (rules : list RiskRule.t)
    (ign : list JsPattern) (file : ChangedFile.t) (res res0 : RiskReport.t) :
  (forall c, inherited c = true -> RiskReport.byCategory res !! c = None) ->
  (forall c, inherited c = true -> RiskReport.byCategory res0 !! c = None) ->
  (exists r, risk_file rules ign file res = Ret r) ->
  exists r, risk_file rules ign file res0 = Ret r.
Proof.
  intros Hinv Hinv0. rewrite !risk_file_unfold.
  destruct (someM _ ign) as [[|]|]; [by eauto| |done].
  destruct (forallb _ rules); [|done].
  destruct (matched_rules _ rules) eqn:Hms; [by eauto|].
  rewrite (for_of_add_to_category _ (RiskReport.byCategory res));
    [|apply set_of_NoDup|done].
  rewrite (for_of_add_to_category _ (RiskReport.byCategory res0));
    [|apply set_of_NoDup|done].
  rewrite !category_clash_inherited by done.
  destruct (existsb inherited _); [done|]. cbn. eauto.
Qed.

Lemma empty_report_no_inherited_key (c : string) :
  inherited c = true -> RiskReport.byCategory empty_risk_report !! c = None.
Proof. done. Qed.

Lemma classify_single `{GlobMatcher} (rules : list RiskRule.t)
    (ign : list JsPattern) (file : ChangedFile.t) :
  classify [file] rules ign = risk_file rules ign file empty_risk_report.
Proof. unfold classify. cbn [for_of]. by destruct (risk_file _ _ _ _). Qed.

Lemma for_of_risk_returns `{GlobMatcher} (rules : list RiskRule.t)
    (ign : list JsPattern) (files : list ChangedFile.t) :
  forall acc,
    (forall c, inherited c = true -> RiskReport.byCategory acc !! c = None) ->
    (exists r, for_of (risk_file rules ign) files acc = Ret r) <->
    (forall file, file ∈ files -> exists r, classify [file] rules ign = Ret r).
Proof.
  induction files as [|f files IH]; intros acc Hinv.
  { split; [by intros _ file Hin%elem_of_nil | by eauto]. }
  cbn [for_of]. split.
  - intros [r Hrun]. apply bind_Ret in Hrun as (acc' & Hstep & Hrun).
    intros file [-> | Hin]%elem_of_cons.
    + rewrite classify_single.
      apply (risk_file_returns rules ign f acc); [done | done | eauto].
    + apply (IH acc'); [|by eauto|done].
      by apply (risk_file_no_inherited_key rules ign f acc).
  - intros Hall.
    destruct (risk_file_returns rules ign f empty_risk_report acc) as [acc' Hstep];
      [done | done | |].
    { rewrite <- classify_single. apply Hall, list_elem_of_here. }
    rewrite Hstep. cbn. apply IH.
    + by apply (risk_file_no_inherited_key rules ign f acc).
    + intros file Hin. apply Hall. by apply list_elem_of_further.
Qed.

Lemma classify_returns_iff `{GlobMatcher} (rules : list RiskRule.t)
    (ign : list JsPattern) (files : list ChangedFile.t) :
  (exists r, classify files rules ign = Ret r) <->
  (forall file, file ∈ files -> exists r, classify [file] rules ign = Ret r).
Proof. by apply for_of_risk_returns. Qed.

Lemma count_severity_perm (s : string) (fs fs' : list RiskFinding.t) :
  fs ≡ₚ fs' -> count_severity s fs = count_severity s fs'.
Proof. intros Hp. unfold count_severity. by rewrite Hp. Qed.

(** X8.  Exceptions are raised file by file: the classifier returns for a
    list of files exactly when it returns for each file on its own.  So
    the order of the files decides neither whether a report is returned
    nor its counters; the findings are listed in the order of the files. *)
Theorem exceptions_are_per_file `{GlobMatcher} (files files' : list ChangedFile.t)
    (rules : list RiskRule.t) (ign : list JsPattern) :
  ((exists r, classify files rules ign = Ret r) <->
   (forall file, file ∈ files -> exists r, classify [file] rules ign = Ret r)) /\
  (files ≡ₚ files' ->
   forall r, classify files rules ign = Ret r ->
   exists r',
     classify files' rules ign = Ret r' /\
     RiskReport.files r ≡ₚ RiskReport.files r' /\
     RiskReport.highRiskCount r = RiskReport.highRiskCount r' /\
     RiskReport.mediumRiskCount r = RiskReport.mediumRiskCount r' /\
     RiskReport.lowRiskCount r = RiskReport.lowRiskCount r').
Proof.
  split; [apply classify_returns_iff|].
  intros Hperm r Hrun.
  assert (Hret : exists r', classify files' rules ign = Ret r').
  { apply classify_returns_iff. intros file Hin.
    apply (proj1 (classify_returns_iff rules ign files)); [by eauto|].
    by rewrite Hperm. }
  destruct Hret as [r' Hrun']. exists r'. split; [done|].
  assert (Hfs : RiskReport.files r ≡ₚ RiskReport.files r').
  { rewrite (classify_files _ _ _ _ Hrun), (classify_files _ _ _ _ Hrun').
    by rewrite Hperm. }
  split; [done|].
  destruct (classify_counts _ _ _ _ Hrun) as (-> & -> & ->).
  destruct (classify_counts _ _ _ _ Hrun') as (-> & -> & ->).
  by rewrite !(count_severity_perm _ _ _ Hfs).
Qed.

Lemma exceptions_are_per_file_witness :
  [env_production; package_lock; checkout_js] ≡ₚ [package_lock; env_production; checkout_js] /\
  exists r r',
    classify (H := simple_glob) [env_production; package_lock; checkout_js]
      DEFAULT_RISK_PATTERNS [] = Ret r /\
    classify (H := simple_glob) [package_lock; env_production; checkout_js]
      DEFAULT_RISK_PATTERNS [] = Ret r' /\
    severities r = [(".env.production", "high"); ("package-lock.json", "low")] /\
    severities r' = [("package-lock.json", "low"); (".env.production", "high")] /\
    RiskReport.highRiskCount r = RiskReport.highRiskCount r'.
Proof.
  assert (Hp : [env_production; package_lock; checkout_js]
               ≡ₚ [package_lock; env_production; checkout_js]) by apply perm_swap.
  split; [exact Hp|].
  destruct (classify (H := simple_glob) [env_production; package_lock; checkout_js]
              DEFAULT_RISK_PATTERNS []) as [r|e] eqn:Hrun;
    [|vm_compute in Hrun; discriminate Hrun].
  destruct (proj2 (exceptions_are_per_file (H := simple_glob) _ _
                     DEFAULT_RISK_PATTERNS []) Hp r Hrun)
    as (r' & Hrun' & _ & Hhigh & _).
  exists r, r'. split; [reflexivity|]. split; [exact Hrun'|].
  split; [vm_compute in Hrun; injection Hrun as <-; reflexivity|].
  split; [vm_compute in Hrun'; injection Hrun' as <-; reflexivity|].
  exact Hhigh.
Defined.

(** ** Where the classifier throws *)



Section Exceptions.
Context `{GlobMatcher}.

Lemma rules_ok_split (fn : string) (rules : list RiskRule.t) :
  forallb (rule_ok fn) rules =
  (forallb (fun p => returns fn (RiskRule.pattern p)) rules
   && negb (existsb inherited
              (set_of (map RiskRule.category (matched_rules fn rules)))))%bool.
Proof.
  apply eq_true_iff_eq. rewrite andb_true_iff, negb_true_iff, !forallb_forall.
  rewrite <- not_true_iff_false, existsb_exists. unfold rule_ok. split.
  - intros Hok. split.
    + intros p Hp. by apply Hok, andb_true_iff in Hp as [? _].
    + intros (c & Hc & Hinh). apply list_elem_of_In in Hc.
      rewrite elem_of_set_of, list_elem_of_fmap in Hc.
      destruct Hc as (p & -> & [Hp Hm]%elem_of_matched_rules).
      apply list_elem_of_In, Hok, andb_true_iff in Hp as [_ Hp].
      rewrite Hm, Hinh in Hp. discriminate Hp.
  - intros [Hret Hcat] p Hp. rewrite (Hret p Hp). cbn [andb].
    destruct (matches fn (RiskRule.pattern p)) eqn:Hm; [|done]. cbn [negb orb].
    destruct (inherited (RiskRule.category p)) eqn:Hinh; [|done].
    destruct Hcat. exists (RiskRule.category p). split; [|done].
    apply list_elem_of_In. rewrite elem_of_set_of, list_elem_of_fmap. exists p.
    split; [done|]. apply elem_of_matched_rules. by apply list_elem_of_In in Hp.
Qed.

Lemma risk_file_returns_iff (rules : list RiskRule.t) (ign : list JsPattern)
    (file : ChangedFile.t) (res : RiskReport.t) :
  (forall c, inherited c = true -> RiskReport.byCategory res !! c = None) ->
  (exists r, risk_file rules ign file res = Ret r) <->
  (exists b, someM (minimatch (ChangedFile.filename file)) ign = Ret b) /\
  (not_ignored (ChangedFile.filename file) ign ->
   forallb (rule_ok (ChangedFile.filename file)) rules = true).
Proof.
  intros Hinv. rewrite risk_file_unfold, rules_ok_split. unfold not_ignored.
  destruct (someM _ ign) as [[|]|[]].
  - split; [|by eauto]. intros _. split; [by eauto | discriminate].
  - destruct (forallb _ rules).
    2:{ split; [by intros [? ?] | intros [_ Hf]; by specialize (Hf eq_refl)]. }
    cbn [andb]. destruct (matched_rules _ rules) eqn:Hms.
    { split; [|by eauto]. intros _. split; [by eauto | done]. }
    rewrite <- Hms.
    rewrite (for_of_add_to_category _ (RiskReport.byCategory res));
      [|apply set_of_NoDup|done].
    rewrite category_clash_inherited by done.
    cbn [finding_of RiskFinding.categories].
    destruct (existsb inherited _); cbn [mbind Exc_bind negb].
    + split; [by intros [? ?] | intros [_ Hf]; by specialize (Hf eq_refl)].
    + split; [|by eauto]. intros _. split; [by eauto | done].
  - split; [by intros [? ?] | by intros [[? ?] _]].
Qed.

Lemma classify_returns_rules (rules : list RiskRule.t) (ign : list JsPattern)
    (files : list ChangedFile.t) :
  (exists r, classify files rules ign = Ret r) <->
  (forall file, file ∈ files ->
     (exists b, someM (minimatch (ChangedFile.filename file)) ign = Ret b) /\
     (not_ignored (ChangedFile.filename file) ign ->
      forallb (rule_ok (ChangedFile.filename file)) rules = true)).
Proof.
  rewrite classify_returns_iff. split; intros Hall file Hin.
  - apply (risk_file_returns_iff rules ign file empty_risk_report); [done|].
    rewrite <- classify_single. by apply Hall.
  - rewrite classify_single. apply risk_file_returns_iff; [done|]. by apply Hall.
Qed.



End Exceptions.



(** ** Adding rules: statement *)

Lemma classify_fewer_rules `{GlobMatcher} (files : list ChangedFile.t)
    (rules extra : list RiskRule.t) (ign : list JsPattern) :
  (exists r', classify files (rules ++ extra) ign = Ret r') ->
  exists r, classify files rules ign = Ret r.
Proof.
  rewrite !classify_returns_rules. intros Hall file Hin.
  destruct (Hall file Hin) as [Hsome Hok]. split; [done|].
  intros Hign. specialize (Hok Hign). rewrite forallb_app in Hok.
  by apply andb_true_iff in Hok as [? _].
Qed.

(** X4.  Further rules take nothing away from a report.  Whenever the
    classifier returns for a rule list with further rules, it returns for
    the shorter list as well; every finding of the shorter list then has a
    finding for the same file under the longer one, of a severity at least
    as high and with at least its categories, and the number of high-risk
    files does not go down.  So a run with custom patterns that returns
    neither hides nor downgrades what the default rules report.  (A further
    rule can also make the classifier throw where it returned; then there
    is no report at all.) *)
Theorem more_rules_never_lower_a_verdict `{GlobMatcher}
    (files : list ChangedFile.t) (rules extra : list RiskRule.t)
    (customPatterns : list CustomPattern) (ign : list JsPattern) :
  (forall r',
     classify files (rules ++ extra) ign = Ret r' ->
     exists r,
       classify files rules ign = Ret r /\
       (forall fd, fd ∈ RiskReport.files r ->
          exists fd', fd' ∈ RiskReport.files r' /\
            RiskFinding.filename fd' = RiskFinding.filename fd /\
            rank (RiskFinding.severity fd) <= rank (RiskFinding.severity fd') /\
            RiskFinding.categories fd ⊆ RiskFinding.categories fd') /\
       RiskReport.highRiskCount r <= RiskReport.highRiskCount r') /\
  (forall r',
     analyzeRisk files customPatterns ign = Ret r' ->
     exists r,
       analyzeRisk files [] ign = Ret r /\
       (forall fd, fd ∈ RiskReport.files r ->
          exists fd', fd' ∈ RiskReport.files r' /\
            RiskFinding.filename fd' = RiskFinding.filename fd /\
            rank (RiskFinding.severity fd) <= rank (RiskFinding.severity fd') /\
            RiskFinding.categories fd ⊆ RiskFinding.categories fd') /\
       RiskReport.highRiskCount r <= RiskReport.highRiskCount r').
Proof.
  assert (Hc : forall rules extra r',
     classify files (rules ++ extra) ign = Ret r' ->
     exists r,
       classify files rules ign = Ret r /\
       (forall fd, fd ∈ RiskReport.files r ->
          exists fd', fd' ∈ RiskReport.files r' /\
            RiskFinding.filename fd' = RiskFinding.filename fd /\
            rank (RiskFinding.severity fd) <= rank (RiskFinding.severity fd') /\
            RiskFinding.categories fd ⊆ RiskFinding.categories fd') /\
       RiskReport.highRiskCount r <= RiskReport.highRiskCount r').
  { intros rs ex r' Hr'.
    destruct (classify_fewer_rules files rs ex ign (ex_intro _ r' Hr')) as [r Hr].
    exists r. split; [exact Hr|]. split.
    - intros fd (file & Hin & Hrep & ->)%(classify_finding _ _ _ _ _ Hr).
      exists (finding_of (rs ++ ex) file). split.
      + apply (classify_finding _ _ _ _ _ Hr'). exists file.
        split; [done|]. split; [by apply reported_more | done].
      + split; [done|]. apply finding_of_more.
    - destruct (classify_counts _ _ _ _ Hr) as [-> _].
      destruct (classify_counts _ _ _ _ Hr') as [-> _].
      rewrite (classify_files _ _ _ _ Hr), (classify_files _ _ _ _ Hr').
      apply count_high_more. }
  split; [apply Hc|].
  intros r' (custom & _ & Hr')%analyzeRisk_classify.
  destruct (Hc _ _ _ Hr') as (r & Hr & Hfd & Hcount).
  exists r. split; [|done]. unfold analyzeRisk. cbn [mapM mbind Exc_bind].
  by rewrite app_nil_r.
Qed.

Lemma more_rules_never_lower_a_verdict_witness :
  exists r r',
    analyzeRisk (H := simple_glob) [package_lock; checkout_js] [] [] = Ret r /\
    analyzeRisk (H := simple_glob) [package_lock; checkout_js]
      [CustomObject (Some (PatString "**/*.json")) (Some "data") (Some "high") None] []
      = Ret r' /\
    severities r = [("package-lock.json", "low")] /\
    severities r' = [("package-lock.json", "high")] /\
    map RiskFinding.categories (RiskReport.files r) = [["dependencies"]] /\
    map RiskFinding.categories (RiskReport.files r') = [["dependencies"; "data"]] /\
    RiskReport.highRiskCount r <= RiskReport.highRiskCount r'.
Proof.
  destruct (analyzeRisk (H := simple_glob) [package_lock; checkout_js]
              [CustomObject (Some (PatString "**/*.json")) (Some "data") (Some "high") None]
              []) as [r'|e] eqn:Hr'; [|vm_compute in Hr'; discriminate Hr'].
  destruct (proj2 (more_rules_never_lower_a_verdict (H := simple_glob)
              [package_lock; checkout_js] [] []
              [CustomObject (Some (PatString "**/*.json")) (Some "data") (Some "high") None]
              []) r' Hr') as (r & Hr & _ & Hcount).
  exists r, r'. split; [exact Hr|]. split; [reflexivity|].
  vm_compute in Hr. injection Hr as <-. vm_compute in Hr'. injection Hr' as <-.
  do 4 (split; [reflexivity|]). exact Hcount.
Defined.

(** ** Reports of a concatenated input *)

Lemma filed_under_app (c : string) (fs fs' : list RiskFinding.t) :
  filed_under c (fs ++ fs') = filed_under c fs ++ filed_under c fs'.
Proof. unfold filed_under. by rewrite filter_app, map_app. Qed.

Lemma category_index_default (fs : list RiskFinding.t) (c : string) :
  default [] (category_index fs c) = filed_under c fs.
Proof. unfold category_index. by destruct (filed_under c fs). Qed.

Lemma count_severity_append (s : string) (fs fs' : list RiskFinding.t) :
  count_severity s (fs ++ fs') = count_severity s fs + count_severity s fs'.
Proof. unfold count_severity. by rewrite filter_app, length_app. Qed.

(** X9.  The report of a concatenated input is put together from the
    reports of its two parts: when the classifier returns for [files ++
    files'], it returns for [files] and for [files']; the findings are
    those of the first report followed by those of the second, the
    counters add up, and under every category the names of the first
    report are followed by those of the second. *)
Theorem risk_report_of_concatenation `{GlobMatcher}
    (files files' : list ChangedFile.t) (rules : list RiskRule.t)
    (ign : list JsPattern) (r : RiskReport.t) :
  classify (files ++ files') rules ign = Ret r ->
  exists r1 r2,
    classify files rules ign = Ret r1 /\
    classify files' rules ign = Ret r2 /\
    RiskReport.files r = RiskReport.files r1 ++ RiskReport.files r2 /\
    RiskReport.highRiskCount r
      = RiskReport.highRiskCount r1 + RiskReport.highRiskCount r2 /\
    RiskReport.mediumRiskCount r
      = RiskReport.mediumRiskCount r1 + RiskReport.mediumRiskCount r2 /\
    RiskReport.lowRiskCount r
      = RiskReport.lowRiskCount r1 + RiskReport.lowRiskCount r2 /\
    forall c,
      default [] (RiskReport.byCategory r !! c)
      = default [] (RiskReport.byCategory r1 !! c)
        ++ default [] (RiskReport.byCategory r2 !! c).
Proof.
  intros Hrun.
  assert (Hall : forall file, file ∈ files ++ files' ->
                   exists r, classify [file] rules ign = Ret r).
  { apply classify_returns_iff. eauto. }
  destruct (proj2 (classify_returns_iff rules ign files)) as [r1 Hr1].
  { intros file Hin. apply Hall, elem_of_app. by left. }
  destruct (proj2 (classify_returns_iff rules ign files')) as [r2 Hr2].
  { intros file Hin. apply Hall, elem_of_app. by right. }
  exists r1, r2. do 2 (split; [done|]).
  assert (Hfs : RiskReport.files r = RiskReport.files r1 ++ RiskReport.files r2).
  { rewrite (classify_files _ _ _ _ Hrun), (classify_files _ _ _ _ Hr1),
      (classify_files _ _ _ _ Hr2).
    by rewrite filter_app, map_app. }
  split; [done|].
  destruct (classify_counts _ _ _ _ Hrun) as (-> & -> & ->).
  destruct (classify_counts _ _ _ _ Hr1) as (-> & -> & ->).
  destruct (classify_counts _ _ _ _ Hr2) as (-> & -> & ->).
  rewrite Hfs, !count_severity_append. do 3 (split; [done|]).
  intros c.
  assert (Hidx : forall files r, classify files rules ign = Ret r ->
            default [] (RiskReport.byCategory r !! c) = filed_under c (RiskReport.files r)).
  { intros fs r0 Hr0. rewrite <- category_index_default. f_equal.
    revert c. apply (for_of_invariant
             (fun res => forall c, RiskReport.byCategory res !! c
                                   = category_index (RiskReport.files res) c)
             (risk_file rules ign) fs empty_risk_report r0); [done| |done].
    intros file s s' _. apply risk_file_index. }
  rewrite (Hidx _ _ Hrun), (Hidx _ _ Hr1), (Hidx _ _ Hr2), Hfs.
  apply filed_under_app.
Qed.

Lemma risk_report_of_concatenation_witness :
  exists r r1 r2,
    classify (H := simple_glob) ([env_production; vendor_settings] ++ [package_lock])
      DEFAULT_RISK_PATTERNS [] = Ret r /\
    classify (H := simple_glob) [env_production; vendor_settings]
      DEFAULT_RISK_PATTERNS [] = Ret r1 /\
    classify (H := simple_glob) [package_lock] DEFAULT_RISK_PATTERNS [] = Ret r2 /\
    RiskReport.files r = RiskReport.files r1 ++ RiskReport.files r2 /\
    length (RiskReport.files r) = 3.
Proof.
  destruct (classify (H := simple_glob)
              ([env_production; vendor_settings] ++ [package_lock])
              DEFAULT_RISK_PATTERNS []) as [r|e] eqn:Hrun;
    [|vm_compute in Hrun; discriminate Hrun].
  destruct (risk_report_of_concatenation (H := simple_glob) _ _ _ _ _ Hrun)
    as (r1 & r2 & Hr1 & Hr2 & Hfs & _).
  exists r, r1, r2. do 4 (split; [done|]).
  vm_compute in Hrun. injection Hrun as <-. reflexivity.
Defined.

(** ** The report of the aggregator in closed form *)

Lemma analyzeFileComplexity_estimate (filename content : string) (σ : Store) :
  fst (analyzeFileComplexity filename content σ) = Ret (estimate_of filename content).
Proof.
  unfold analyzeFileComplexity, estimate_of, control_flow_matches, language_of.
  destruct (CONTROL_FLOW_PATTERNS
              (default "js" (langMap (remove_first_dot (toLowerCase (extname filename))))))
    as [R|]; cbn [default];
    unfold mbind, M_bind, match_shared;
    match goal with
    | |- context [String_match ?R content (σ ?id)] =>
        pose proof (String_match_result R content (σ id) 0) as Hres;
        destruct (String_match R content (σ id)) as [found li]
    end;
    cbn [fst] in Hres; subst found;
    destruct (fold_left _ _ _); reflexivity.
Qed.

Lemma detect_from_smells (catalogue : list CodeSmellPattern.t) (content : string) :
  forall i smells σ,
    fst (detect_from i catalogue content smells σ)
    = Ret (smells ++ flat_map (smell_of content) catalogue).
Proof.
  induction catalogue as [|sm cat IH]; intros i smells σ; cbn [detect_from flat_map].
  - by rewrite app_nil_r.
  - unfold mbind, M_bind, match_shared.
    pose proof (String_match_result (CodeSmellPattern.pattern sm) content
                  (σ (CodeSmell i)) 0) as Hres.
    destruct (String_match _ content (σ (CodeSmell i))) as [found li].
    cbn [fst] in Hres. rewrite IH. unfold smell_of. rewrite <- Hres.
    destruct found as [[|m ms]|]; by rewrite ?app_nil_r, <- ?app_assoc.
Qed.

Lemma M_run_fst {A} (m : M A) (σ σ' : Store) (a b : A) :
  m σ = (Ret a, σ') -> fst (m σ) = Ret b -> a = b.
Proof. intros ->. cbn. congruence. Qed.

Lemma analyze_content_shape `{GlobMatcher} (fn content : string)
    (res res' : ComplexityReport.t) (σ σ' : Store) :
  analyze_content fn content res σ = (Ret res', σ') ->
  res' =
    ComplexityReport.mk
      (ComplexityReport.warnings res ++ content_warnings fn (estimate_of fn content))
      (ComplexityReport.largeFiles res)
      (ComplexityReport.complexFiles res ++ complex_entries fn (estimate_of fn content))
      (ComplexityReport.codeSmells res ++ map (CodeSmell.mk fn) (smells_of content))
      (ComplexityReport.stats res).
Proof.
  intros Hrun. unfold analyze_content in Hrun.
  apply M_bind_Ret in Hrun as (est & σ1 & Hest & Hrun).
  pose proof (M_run_fst _ _ _ _ _ Hest (analyzeFileComplexity_estimate fn content σ))
    as Heq.
  rewrite <- Heq. clear Heq Hest.
  assert (Hsmells : forall smells σ2,
            detectCodeSmells content σ1 = (Ret smells, σ2) ->
            smells = smells_of content).
  { intros smells σ2 Hsm.
    exact (M_run_fst _ _ _ _ _ Hsm
             (detect_from_smells CODE_SMELL_PATTERNS content 0 [] σ1)). }
  unfold content_warnings, complex_entries.
  destruct (decide (THRESHOLDS.maxCyclomaticComplexity < _));
    apply M_bind_Ret in Hrun as (smells & σ2 & Hsm & Hrun);
    apply Hsmells in Hsm; rewrite <- Hsm;
    unfold mret, M_ret in Hrun; injection Hrun as <- _;
    repeat case_decide; by rewrite ?app_nil_r, <- ?app_assoc.
Qed.

Section ClosedForm.
Context `{GlobMatcher}.
Variables (diffContent : gmap string string) (ign : list JsPattern).

Lemma complexity_file_shape (file : ChangedFile.t)
    (res res' : ComplexityReport.t) (σ σ' : Store) :
  complexity_file diffContent ign file res σ = (Ret res', σ') ->
  res' = (if decide (analyzed ign file) then add_file diffContent file res else res) /\
  (~ analyzed ign file \/ content_of diffContent file = None -> σ' = σ).
Proof.
  intros Hrun. unfold complexity_file in Hrun.
  apply M_bind_Ret in Hrun as (ignored & σ1 & Hig & Hrun).
  unfold lift in Hig. injection Hig as Hig <-.
  destruct ignored.
  { unfold mret, M_ret in Hrun. simplify_eq. split; [|done].
    rewrite decide_False; [done|]. intros [Hn _]. unfold not_ignored in Hn. congruence. }
  destruct (isCodeFile (ChangedFile.filename file)) eqn:Hcode; cbn [negb] in Hrun.
  2:{ unfold mret, M_ret in Hrun. simplify_eq. split; [|done].
      rewrite decide_False; [done|]. intros [_ ?]. congruence. }
  rewrite decide_True by done.
  unfold add_file, file_warnings, file_complex, file_smells, content_of,
    size_warnings, large_entries.
  destruct (diffContent !! ChangedFile.filename file) as [content|] eqn:Hlook.
  2:{ unfold mret, M_ret in Hrun. simplify_eq. split; [|done].
      case_decide; cbn; by rewrite ?app_nil_r. }
  destruct (is_empty content) eqn:Hempty.
  { unfold mret, M_ret in Hrun. simplify_eq. split; [|done].
    case_decide; cbn; by rewrite ?app_nil_r. }
  split; [|by intros [[]|]].
  apply analyze_content_shape in Hrun as ->.
  generalize (content_warnings (ChangedFile.filename file)
                (estimate_of (ChangedFile.filename file) content))
             (complex_entries (ChangedFile.filename file)
                (estimate_of (ChangedFile.filename file) content))
             (map (CodeSmell.mk (ChangedFile.filename file)) (smells_of content)).
  intros ws cs sms.
  destruct (decide (THRESHOLDS.largeAdditions < ChangedFile.additions file)%Z);
    cbn [ComplexityReport.warnings ComplexityReport.largeFiles
         ComplexityReport.complexFiles ComplexityReport.codeSmells
         ComplexityReport.stats];
    rewrite ?app_nil_r, <- ?app_assoc; reflexivity.
Qed.

Lemma complexity_loop_closed_form (files : list ChangedFile.t) :
  forall (acc r : ComplexityReport.t) (σ σ' : Store),
    for_ofM (complexity_file diffContent ign) files acc σ = (Ret r, σ') ->
    r = fold_left (fun res file => add_file diffContent file res)
                  (filter (analyzed ign) files) acc.
Proof.
  induction files as [|f files IH]; intros acc r σ σ' Hrun.
  - cbn [for_ofM] in Hrun. unfold mret, M_ret in Hrun. by simplify_eq.
  - cbn [for_ofM] in Hrun. apply M_bind_Ret in Hrun as (acc' & σ1 & Hstep & Hrun).
    apply complexity_file_shape in Hstep as [-> _]. apply IH in Hrun as ->.
    rewrite filter_cons. by destruct (decide (analyzed ign f)).
Qed.

Lemma complexity_loop_filter (files : list ChangedFile.t) :
  forall (acc r : ComplexityReport.t) (σ σ' : Store),
    for_ofM (complexity_file diffContent ign) files acc σ = (Ret r, σ') ->
    for_ofM (complexity_file diffContent ign) (filter (analyzed ign) files) acc σ
    = (Ret r, σ').
Proof.
  induction files as [|f files IH]; intros acc r σ σ' Hrun; [done|].
  cbn [for_ofM] in Hrun. apply M_bind_Ret in Hrun as (acc' & σ1 & Hstep & Hrun).
  rewrite filter_cons. destruct (decide (analyzed ign f)) as [Hf|Hf].
  - cbn [for_ofM]. unfold mbind, M_bind. rewrite Hstep. by apply IH.
  - apply complexity_file_shape in Hstep as [-> Hσ].
    rewrite decide_False in Hrun by done. rewrite Hσ in Hrun by by left.
    by apply IH.
Qed.

Lemma fold_add_file (fs : list ChangedFile.t) :
  forall acc : ComplexityReport.t,
    let r := fold_left (fun res file => add_file diffContent file res) fs acc in
    ComplexityReport.warnings r
      = ComplexityReport.warnings acc ++ flat_map (file_warnings diffContent) fs /\
    ComplexityReport.largeFiles r
      = ComplexityReport.largeFiles acc ++ flat_map large_entries fs /\
    ComplexityReport.complexFiles r
      = ComplexityReport.complexFiles acc ++ flat_map (file_complex diffContent) fs /\
    ComplexityReport.codeSmells r
      = ComplexityReport.codeSmells acc ++ flat_map (file_smells diffContent) fs /\
    ComplexityReport.stats r
      = Stats.mk
          (Stats.totalAdditions (ComplexityReport.stats acc)
             + total (map ChangedFile.additions fs))
          (Stats.totalDeletions (ComplexityReport.stats acc)
             + total (map ChangedFile.deletions fs))
          (Stats.largestFile (ComplexityReport.stats acc))
          (Stats.averageFileSize (ComplexityReport.stats acc)).
Proof.
  induction fs as [|f fs IH]; intros acc.
  - cbn. rewrite !app_nil_r, !Z.add_0_r. by destruct acc as [? ? ? ? []].
  - cbn [fold_left]. destruct (IH (add_file diffContent f acc)) as (-> & -> & -> & -> & ->).
    cbn [add_file ComplexityReport.warnings ComplexityReport.largeFiles
         ComplexityReport.complexFiles ComplexityReport.codeSmells
         ComplexityReport.stats add_totals Stats.totalAdditions Stats.totalDeletions
         Stats.largestFile Stats.averageFileSize flat_map map total foldr].
    rewrite <- !app_assoc, <- !Z.add_assoc. done.
Qed.

Lemma loop_report_spec (files : list ChangedFile.t) (r : ComplexityReport.t)
    (σ σ' : Store) :
  for_ofM (complexity_file diffContent ign) files empty_complexity_report σ
    = (Ret r, σ') ->
  r = loop_report diffContent ign files.
Proof.
  intros ->%complexity_loop_closed_form.
  pose proof (fold_add_file (filter (analyzed ign) files) empty_complexity_report)
    as (Hw & Hl & Hc & Hs & Hst).
  destruct (fold_left _ _ _) as [w l c s st]. cbn in *. unfold loop_report.
  by rewrite Hw, Hl, Hc, Hs, Hst.
Qed.
End ClosedForm.

Lemma analyzeComplexity_closed_form `{GlobMatcher} (files : list ChangedFile.t)
    (diff : JsDiff) (ign : list JsPattern) (r : ComplexityReport.t) (σ σ' : Store) :
  analyzeComplexity files diff ign σ = (Ret r, σ') ->
  r = finish_stats files (loop_report (parseDiff diff) ign files).
Proof.
  intros Hrun. unfold analyzeComplexity in Hrun.
  apply M_bind_Ret in Hrun as (res & σ1 & Hloop & Hfin).
  unfold mret, M_ret in Hfin. simplify_eq.
  by rewrite (loop_report_spec _ _ _ _ _ _ Hloop).
Qed.

Lemma finish_stats_lists `{GlobMatcher} (files : list ChangedFile.t)
    (res : ComplexityReport.t) :
  ComplexityReport.warnings (finish_stats files res) = ComplexityReport.warnings res /\
  ComplexityReport.largeFiles (finish_stats files res) = ComplexityReport.largeFiles res /\
  ComplexityReport.complexFiles (finish_stats files res)
    = ComplexityReport.complexFiles res /\
  ComplexityReport.codeSmells (finish_stats files res) = ComplexityReport.codeSmells res /\
  Stats.totalAdditions (ComplexityReport.stats (finish_stats files res))
    = Stats.totalAdditions (ComplexityReport.stats res) /\
  Stats.totalDeletions (ComplexityReport.stats (finish_stats files res))
    = Stats.totalDeletions (ComplexityReport.stats res).
Proof. by destruct files. Qed.

(** ** The aggregator: statements *)

(** X10.  Every list of a complexity report is made of the entries of the
    analyzed files (not ignored, code files), in the order of the input.
    A file contributes its size warning first, then its complexity,
    nesting and formatting warnings.  For line counts that are not
    negative and add up to at most [MAX_SAFE_INTEGER], the totals are the
    sums over the analyzed files. *)
Theorem complexity_report_follows_the_input `{GlobMatcher}
    (files : list ChangedFile.t) (diff : JsDiff) (ign : list JsPattern)
    (r : ComplexityReport.t) (σ σ' : Store) :
  analyzeComplexity files diff ign σ = (Ret r, σ') ->
  let fs := filter (analyzed ign) files in
  ComplexityReport.warnings r = flat_map (file_warnings (parseDiff diff)) fs /\
  ComplexityReport.largeFiles r = flat_map large_entries fs /\
  ComplexityReport.complexFiles r = flat_map (file_complex (parseDiff diff)) fs /\
  ComplexityReport.codeSmells r = flat_map (file_smells (parseDiff diff)) fs /\
  (safe_counts fs ->
   Stats.totalAdditions (ComplexityReport.stats r) = total (map ChangedFile.additions fs) /\
   Stats.totalDeletions (ComplexityReport.stats r) = total (map ChangedFile.deletions fs)).
Proof.
  intros ->%analyzeComplexity_closed_form fs.
  destruct (finish_stats_lists files (loop_report (parseDiff diff) ign files))
    as (-> & -> & -> & -> & -> & ->).
  done.
Qed.

Lemma complexity_report_follows_the_input_witness :
  exists r σ',
    analyzeComplexity (H := simple_glob) [vendor_big_js; readme_md; app_js; small_js]
      (DiffText keywords_diff) [PatString "**/vendor/**"] fresh_store = (Ret r, σ') /\
    filter (analyzed (H := simple_glob) [PatString "**/vendor/**"])
           [vendor_big_js; readme_md; app_js; small_js] = [app_js; small_js] /\
    ComplexityReport.warnings r =
      flat_map (file_warnings (parseDiff (DiffText keywords_diff))) [app_js; small_js] /\
    Stats.totalAdditions (ComplexityReport.stats r) = 21%Z.
Proof.
  destruct (analyzeComplexity (H := simple_glob)
              [vendor_big_js; readme_md; app_js; small_js]
              (DiffText keywords_diff) [PatString "**/vendor/**"] fresh_store)
    as [[r|e] σ'] eqn:Hrun; [|vm_compute in Hrun; discriminate Hrun].
  exists r, σ'. split; [reflexivity|].
  assert (Hfs : filter (analyzed (H := simple_glob) [PatString "**/vendor/**"])
                  [vendor_big_js; readme_md; app_js; small_js] = [app_js; small_js])
    by reflexivity.
  split; [exact Hfs|].
  pose proof (complexity_report_follows_the_input (H := simple_glob)
                _ _ _ _ _ _ Hrun) as Hreport.
  cbv zeta in Hreport. rewrite Hfs in Hreport.
  destruct Hreport as (Hw & _ & _ & _ & Htotal).
  split; [exact Hw|].
  destruct Htotal as [-> _]; [|reflexivity].
  split; [|split; [vm_compute; discriminate | vm_compute; discriminate]].
  intros f [-> | [-> | []%elem_of_nil]%elem_of_cons]%elem_of_cons;
    split; vm_compute; discriminate.
Defined.

Lemma content_warnings_kinds (fn : string) (est : ComplexityEstimate.t) (w : Warning.t) :
  w ∈ content_warnings fn est ->
  Warning.filename w = fn /\
  ((Warning.type w = "complexity" /\ Warning.severity w = "high" /\
    exists c, THRESHOLDS.maxCyclomaticComplexity < c /\
              Warning.message w = ComplexityExceeds c THRESHOLDS.maxCyclomaticComplexity) \/
   (Warning.type w = "nesting" /\ Warning.severity w = "medium" /\
    exists n, THRESHOLDS.maxNestingDepth < n /\ Warning.message w = DeepNesting n) \/
   (Warning.type w = "formatting" /\ Warning.severity w = "low" /\
    exists n, 0 < n /\ Warning.message w = LongLines n THRESHOLDS.maxLineLength)).
Proof.
  unfold content_warnings. rewrite !elem_of_app.
  intros [Hw | [Hw | Hw]]; case_decide; try (by apply elem_of_nil in Hw);
    apply list_elem_of_singleton in Hw as ->; (split; [done|]).
  - left. eauto.
  - right. left. eauto.
  - right. right. eauto.
Qed.

Lemma filter_size_content_warnings (fn : string) (est : ComplexityEstimate.t) :
  filter (fun w => Warning.type w = "size") (content_warnings fn est) = [].
Proof.
  unfold content_warnings. rewrite !filter_app.
  repeat case_decide; by rewrite ?filter_cons, ?filter_nil.
Qed.

Lemma filter_size_file_warnings (dc : gmap string string) (file : ChangedFile.t) :
  filter (fun w => Warning.type w = "size") (file_warnings dc file) = size_warnings file.
Proof.
  unfold file_warnings. rewrite filter_app.
  destruct (content_of dc file);
    rewrite ?filter_size_content_warnings, ?filter_nil, app_nil_r;
    unfold size_warnings; case_decide; by rewrite ?filter_cons, ?filter_nil.
Qed.

Lemma filter_flat_map {A B} (P : B -> Prop) `{!forall x, Decision (P x)}
    (f : A -> list B) (l : list A) :
  filter P (flat_map f l) = flat_map (fun x => filter P (f x)) l.
Proof. induction l as [|x l IH]; [done|]. cbn. by rewrite filter_app, IH. Qed.

Lemma flat_map_ext_in {A B} (f g : A -> list B) (l : list A) :
  (forall x, x ∈ l -> f x = g x) -> flat_map f l = flat_map g l.
Proof.
  induction l as [|x l IH]; intros Hfg; [done|]. cbn.
  rewrite (Hfg x) by apply list_elem_of_here. f_equal.
  apply IH. intros y Hy. apply Hfg. by apply list_elem_of_further.
Qed.

Lemma flat_map_nil {A B} (f : A -> list B) (l : list A) :
  (forall x, x ∈ l -> f x = []) -> flat_map f l = [].
Proof.
  induction l as [|x l IH]; intros Hf; [done|]. cbn.
  rewrite (Hf x) by apply list_elem_of_here.
  apply IH. intros y Hy. apply Hf. by apply list_elem_of_further.
Qed.

Lemma elem_of_flat_map {A B} (f : A -> list B) (l : list A) (y : B) :
  y ∈ flat_map f l <-> exists x, x ∈ l /\ y ∈ f x.
Proof.
  rewrite list_elem_of_In, in_flat_map. split.
  - intros (x & Hx & Hy). exists x. by rewrite !list_elem_of_In.
  - intros (x & Hx & Hy). exists x. by rewrite <- !list_elem_of_In.
Qed.

(** X11.  The diff has no say in the size findings and the statistics: the
    list of large files, the warnings of type [size] and all four
    statistics are the same whatever diff accompanies the files. *)
Theorem size_findings_ignore_the_diff `{GlobMatcher}
    (files : list ChangedFile.t) (diff diff' : JsDiff) (ign : list JsPattern)
    (r r' : ComplexityReport.t) (σ σ1 τ τ1 : Store) :
  analyzeComplexity files diff ign σ = (Ret r, σ1) ->
  analyzeComplexity files diff' ign τ = (Ret r', τ1) ->
  ComplexityReport.largeFiles r = ComplexityReport.largeFiles r' /\
  filter (fun w => Warning.type w = "size") (ComplexityReport.warnings r)
    = filter (fun w => Warning.type w = "size") (ComplexityReport.warnings r') /\
  ComplexityReport.stats r = ComplexityReport.stats r' /\
  filter (fun w => Warning.type w = "size") (ComplexityReport.warnings r)
    = flat_map size_warnings (filter (analyzed ign) files).
Proof.
  intros ->%analyzeComplexity_closed_form ->%analyzeComplexity_closed_form.
  assert (Hsize : forall d,
    filter (fun w => Warning.type w = "size")
      (ComplexityReport.warnings (finish_stats files (loop_report (parseDiff d) ign files)))
    = flat_map size_warnings (filter (analyzed ign) files)).
  { intros d. destruct (finish_stats_lists files (loop_report (parseDiff d) ign files))
      as (-> & _).
    cbn [loop_report ComplexityReport.warnings]. rewrite filter_flat_map.
    apply flat_map_ext_in. intros file _. apply filter_size_file_warnings. }
  rewrite !Hsize. by destruct files.
Qed.

Lemma size_findings_ignore_the_diff_witness :
  exists r r' σ1 τ1,
    analyzeComplexity (H := simple_glob) [app_js; vendor_big_js]
      (DiffText keywords_diff) [] fresh_store = (Ret r, σ1) /\
    analyzeComplexity (H := simple_glob) [app_js; vendor_big_js]
      DiffUndefined [] fresh_store = (Ret r', τ1) /\
    map Warning.type (ComplexityReport.warnings r) = ["complexity"; "size"] /\
    map Warning.type (ComplexityReport.warnings r') = ["size"] /\
    ComplexityReport.largeFiles r = ComplexityReport.largeFiles r' /\
    ComplexityReport.stats r = ComplexityReport.stats r'.
Proof.
  destruct (analyzeComplexity (H := simple_glob) [app_js; vendor_big_js]
              (DiffText keywords_diff) [] fresh_store) as [[r|e] σ1] eqn:Hr;
    [|vm_compute in Hr; discriminate Hr].
  destruct (analyzeComplexity (H := simple_glob) [app_js; vendor_big_js]
              DiffUndefined [] fresh_store) as [[r'|e] τ1] eqn:Hr';
    [|vm_compute in Hr'; discriminate Hr'].
  exists r, r', σ1, τ1. do 2 (split; [reflexivity|]).
  pose proof (size_findings_ignore_the_diff (H := simple_glob) _ _ _ _ _ _ _ _ _ _ Hr Hr')
    as (Hl & _ & Hs & _).
  split; [vm_compute in Hr; injection Hr as <- _; reflexivity|].
  split; [vm_compute in Hr'; injection Hr' as <- _; reflexivity|].
  split; assumption.
Defined.

Lemma complexity_loop_store `{GlobMatcher} (dc : gmap string string)
    (ign : list JsPattern) (files : list ChangedFile.t) :
  (forall file, file ∈ files -> analyzed ign file -> content_of dc file = None) ->
  forall (acc r : ComplexityReport.t) (σ σ' : Store),
    for_ofM (complexity_file dc ign) files acc σ = (Ret r, σ') -> σ' = σ.
Proof.
  induction files as [|f files IH]; intros Hnone acc r σ σ' Hrun.
  - cbn [for_ofM] in Hrun. unfold mret, M_ret in Hrun. by simplify_eq.
  - cbn [for_ofM] in Hrun. apply M_bind_Ret in Hrun as (acc' & σ1 & Hstep & Hrun).
    apply complexity_file_shape in Hstep as [_ Hσ].
    rewrite Hσ in Hrun.
    + eapply IH; [|exact Hrun]. intros file Hin. apply Hnone.
      by apply list_elem_of_further.
    + destruct (decide (analyzed ign f)) as [Hf|Hf]; [right|by left].
      apply Hnone; [apply list_elem_of_here | done].
Qed.

(** X12.  Without added text nothing but size is reported: when the parsed
    diff has no entry, or an empty one, for every analyzed file (as when no
    diff is passed at all), the report has no code smells and no complex
    files, all its warnings are size warnings of severity [medium], and the
    shared expressions are left untouched. *)
Theorem without_added_text_only_size `{GlobMatcher}
    (files : list ChangedFile.t) (diff : JsDiff) (ign : list JsPattern)
    (r : ComplexityReport.t) (σ σ' : Store) :
  (forall file, file ∈ files -> analyzed ign file ->
     content_of (parseDiff diff) file = None) ->
  analyzeComplexity files diff ign σ = (Ret r, σ') ->
  ComplexityReport.codeSmells r = [] /\
  ComplexityReport.complexFiles r = [] /\
  ComplexityReport.warnings r = flat_map size_warnings (filter (analyzed ign) files) /\
  (forall w, w ∈ ComplexityReport.warnings r ->
     Warning.type w = "size" /\ Warning.severity w = "medium") /\
  σ' = σ.
Proof.
  intros Hnone Hrun.
  assert (Hσ : σ' = σ).
  { unfold analyzeComplexity in Hrun.
    apply M_bind_Ret in Hrun as (res & σ1 & Hloop & Hfin).
    unfold mret, M_ret in Hfin. simplify_eq.
    by apply (complexity_loop_store _ _ _ Hnone _ _ _ _ Hloop). }
  apply analyzeComplexity_closed_form in Hrun as ->.
  destruct (finish_stats_lists files (loop_report (parseDiff diff) ign files))
    as (-> & _ & -> & -> & _).
  cbn [loop_report ComplexityReport.warnings ComplexityReport.complexFiles
       ComplexityReport.codeSmells].
  assert (Hfs : forall file, file ∈ filter (analyzed ign) files ->
                  content_of (parseDiff diff) file = None).
  { intros file [Ha Hin]%list_elem_of_filter. by apply Hnone. }
  assert (Hw : flat_map (file_warnings (parseDiff diff)) (filter (analyzed ign) files)
               = flat_map size_warnings (filter (analyzed ign) files)).
  { apply flat_map_ext_in. intros file Hin. unfold file_warnings.
    by rewrite (Hfs file Hin), app_nil_r. }
  split.
  { apply flat_map_nil. intros file Hin. unfold file_smells. by rewrite (Hfs file Hin). }
  split.
  { apply flat_map_nil. intros file Hin. unfold file_complex. by rewrite (Hfs file Hin). }
  split; [exact Hw|]. split; [|exact Hσ].
  rewrite Hw. intros w (file & _ & Hin)%elem_of_flat_map.
  unfold size_warnings in Hin. case_decide; [|by apply elem_of_nil in Hin].
  by apply list_elem_of_singleton in Hin as ->.
Qed.

Lemma without_added_text_only_size_witness :
  exists r,
    analyzeComplexity (H := simple_glob) [vendor_big_js; small_js] DiffUndefined []
      (set_lastIndex (CodeSmell 0) 7 fresh_store)
    = (Ret r, set_lastIndex (CodeSmell 0) 7 fresh_store) /\
    map Warning.filename (ComplexityReport.warnings r) = ["vendor/lib/big.js"] /\
    ComplexityReport.codeSmells r = [].
Proof.
  destruct (analyzeComplexity (H := simple_glob) [vendor_big_js; small_js] DiffUndefined []
              (set_lastIndex (CodeSmell 0) 7 fresh_store)) as [[r|e] σ'] eqn:Hrun;
    [|vm_compute in Hrun; discriminate Hrun].
  exists r.
  destruct (without_added_text_only_size (H := simple_glob)
              [vendor_big_js; small_js] DiffUndefined [] r
              (set_lastIndex (CodeSmell 0) 7 fresh_store) σ')
    as (Hs & _ & Hw & _ & ->); [reflexivity | exact Hrun |].
  split; [reflexivity|]. split; [|exact Hs]. by rewrite Hw.
Defined.

(** X13.  The warnings of a report come in four kinds, each with its fixed
    severity and threshold: [size] (medium, more than 300 added lines of an
    analyzed file of the input), [complexity] (high, estimate above 10),
    [nesting] (medium, depth above 4) and [formatting] (low, at least one
    long line).  The complex files are the files of the [complexity]
    warnings, in the same order, and the large files those of the [size]
    warnings. *)
Theorem warnings_come_in_four_kinds `{GlobMatcher}
    (files : list ChangedFile.t) (diff : JsDiff) (ign : list JsPattern)
    (r : ComplexityReport.t) (σ σ' : Store) :
  analyzeComplexity files diff ign σ = (Ret r, σ') ->
  (forall w, w ∈ ComplexityReport.warnings r ->
     (Warning.type w = "size" /\ Warning.severity w = "medium" /\
      exists file, file ∈ files /\ analyzed ign file /\
        Warning.filename w = ChangedFile.filename file /\
        (THRESHOLDS.largeAdditions < ChangedFile.additions file)%Z /\
        Warning.message w = AddingLines (ChangedFile.additions file)) \/
     (Warning.type w = "complexity" /\ Warning.severity w = "high" /\
      exists c, THRESHOLDS.maxCyclomaticComplexity < c /\
        Warning.message w = ComplexityExceeds c THRESHOLDS.maxCyclomaticComplexity) \/
     (Warning.type w = "nesting" /\ Warning.severity w = "medium" /\
      exists n, THRESHOLDS.maxNestingDepth < n /\ Warning.message w = DeepNesting n) \/
     (Warning.type w = "formatting" /\ Warning.severity w = "low" /\
      exists n, 0 < n /\ Warning.message w = LongLines n THRESHOLDS.maxLineLength)) /\
  map ComplexFile.filename (ComplexityReport.complexFiles r)
    = map Warning.filename
        (filter (fun w => Warning.type w = "complexity") (ComplexityReport.warnings r)) /\
  map LargeFile.filename (ComplexityReport.largeFiles r)
    = map Warning.filename
        (filter (fun w => Warning.type w = "size") (ComplexityReport.warnings r)).
Proof.
  intros ->%analyzeComplexity_closed_form.
  destruct (finish_stats_lists files (loop_report (parseDiff diff) ign files))
    as (-> & -> & -> & _).
  cbn [loop_report ComplexityReport.warnings ComplexityReport.complexFiles
       ComplexityReport.largeFiles].
  split; [|split].
  - intros w (file & [Ha Hin]%list_elem_of_filter & Hw)%elem_of_flat_map.
    unfold file_warnings in Hw. apply elem_of_app in Hw as [Hw|Hw].
    + left. unfold size_warnings in Hw. case_decide; [|by apply elem_of_nil in Hw].
      apply list_elem_of_singleton in Hw as ->. do 2 (split; [done|]). by exists file.
    + right. destruct (content_of _ file); [|by apply elem_of_nil in Hw].
      by apply content_warnings_kinds in Hw as [_ Hw].
  - induction (filter (analyzed ign) files) as [|file fs IH]; [done|].
    cbn [flat_map]. rewrite filter_app, !map_app, IH. f_equal.
    unfold file_complex, file_warnings, size_warnings, complex_entries, content_warnings.
    rewrite filter_app.
    destruct (content_of _ file); repeat case_decide;
      by rewrite ?filter_app, ?filter_cons, ?filter_nil.
  - induction (filter (analyzed ign) files) as [|file fs IH]; [done|].
    cbn [flat_map]. rewrite filter_app, !map_app, IH. f_equal.
    rewrite filter_size_file_warnings. unfold large_entries, size_warnings.
    by case_decide.
Qed.

Lemma warnings_come_in_four_kinds_witness :
  exists r σ',
    analyzeComplexity (H := simple_glob) [vendor_big_js; app_js]
      (DiffText keywords_diff) [] fresh_store = (Ret r, σ') /\
    map Warning.type (ComplexityReport.warnings r) = ["size"; "complexity"] /\
    map ComplexFile.filename (ComplexityReport.complexFiles r)
      = map Warning.filename
          (filter (fun w => Warning.type w = "complexity") (ComplexityReport.warnings r)).
Proof.
  destruct (analyzeComplexity (H := simple_glob) [vendor_big_js; app_js]
              (DiffText keywords_diff) [] fresh_store) as [[r|e] σ'] eqn:Hrun;
    [|vm_compute in Hrun; discriminate Hrun].
  exists r, σ'. split; [reflexivity|]. split.
  - vm_compute in Hrun. injection Hrun as <- _. reflexivity.
  - exact (proj1 (proj2 (warnings_come_in_four_kinds (H := simple_glob)
                           _ _ _ _ _ _ Hrun))).
Defined.

Lemma filter_filter_same {A} (P : A -> Prop) `{!forall x, Decision (P x)} (l : list A) :
  filter P (filter P l) = filter P l.
Proof.
  induction l as [|x l IH]; [done|]. rewrite filter_cons.
  destruct (decide (P x)); [|done]. rewrite filter_cons, decide_True by done.
  by rewrite IH.
Qed.

(** X14.  Files that are ignored or are not code files can be left out of
    the input: the run without them returns as well, in the same state,
    and its report has the same warnings, large files, complex files, code
    smells and totals (it can differ only in the average and the largest
    file, which range over the whole input). *)
Theorem unanalyzed_files_can_be_left_out `{GlobMatcher}
    (files : list ChangedFile.t) (diff : JsDiff) (ign : list JsPattern)
    (r : ComplexityReport.t) (σ σ' : Store) :
  analyzeComplexity files diff ign σ = (Ret r, σ') ->
  exists r',
    analyzeComplexity (filter (analyzed ign) files) diff ign σ = (Ret r', σ') /\
    ComplexityReport.warnings r' = ComplexityReport.warnings r /\
    ComplexityReport.largeFiles r' = ComplexityReport.largeFiles r /\
    ComplexityReport.complexFiles r' = ComplexityReport.complexFiles r /\
    ComplexityReport.codeSmells r' = ComplexityReport.codeSmells r /\
    Stats.totalAdditions (ComplexityReport.stats r')
      = Stats.totalAdditions (ComplexityReport.stats r) /\
    Stats.totalDeletions (ComplexityReport.stats r')
      = Stats.totalDeletions (ComplexityReport.stats r).
Proof.
  intros Hrun. unfold analyzeComplexity in Hrun.
  apply M_bind_Ret in Hrun as (res & σ1 & Hloop & Hfin).
  unfold mret, M_ret in Hfin. simplify_eq.
  apply complexity_loop_filter in Hloop.
  exists (finish_stats (filter (analyzed ign) files) res). split.
  { unfold analyzeComplexity, mbind, M_bind. by rewrite Hloop. }
  destruct (finish_stats_lists (filter (analyzed ign) files) res)
    as (-> & -> & -> & -> & -> & ->).
  destruct (finish_stats_lists files res) as (-> & -> & -> & -> & -> & ->).
  done.
Qed.

Lemma unanalyzed_files_can_be_left_out_witness :
  exists r r' σ',
    analyzeComplexity (H := simple_glob) [small_js; readme_md] DiffUndefined []
      fresh_store = (Ret r, σ') /\
    filter (analyzed (H := simple_glob) []) [small_js; readme_md] = [small_js] /\
    analyzeComplexity (H := simple_glob) [small_js] DiffUndefined [] fresh_store
      = (Ret r', σ') /\
    Stats.totalAdditions (ComplexityReport.stats r')
      = Stats.totalAdditions (ComplexityReport.stats r) /\
    Stats.averageFileSize (ComplexityReport.stats r) = 5%Z /\
    Stats.averageFileSize (ComplexityReport.stats r') = 10%Z.
Proof.
  destruct (analyzeComplexity (H := simple_glob) [small_js; readme_md] DiffUndefined []
              fresh_store) as [[r|e] σ'] eqn:Hrun;
    [|vm_compute in Hrun; discriminate Hrun].
  destruct (unanalyzed_files_can_be_left_out (H := simple_glob) _ _ _ _ _ _ Hrun)
    as (r' & Hr' & _ & _ & _ & _ & Ha & _).
  exists r, r', σ'. split; [reflexivity|]. split; [reflexivity|].
  split; [exact Hr'|]. split; [exact Ha|].
  vm_compute in Hrun. injection Hrun as <- _.
  vm_compute in Hr'. injection Hr' as <- _.
  split; reflexivity.
Defined.

(** X15.  The complexity report of a concatenated input: its warnings,
    large files, complex files and code smells are those of the report of
    the first part followed by those of the second, whatever states the
    three runs start in; for line counts that are not negative and add up
    to at most [MAX_SAFE_INTEGER] its totals are the sums of the totals of
    the two reports. *)
Theorem complexity_report_of_concatenation `{GlobMatcher}
    (files files' : list ChangedFile.t) (diff : JsDiff) (ign : list JsPattern)
    (r r1 r2 : ComplexityReport.t) (σ σ' τ1 τ1' τ2 τ2' : Store) :
  analyzeComplexity (files ++ files') diff ign σ = (Ret r, σ') ->
  analyzeComplexity files diff ign τ1 = (Ret r1, τ1') ->
  analyzeComplexity files' diff ign τ2 = (Ret r2, τ2') ->
  ComplexityReport.warnings r
    = ComplexityReport.warnings r1 ++ ComplexityReport.warnings r2 /\
  ComplexityReport.largeFiles r
    = ComplexityReport.largeFiles r1 ++ ComplexityReport.largeFiles r2 /\
  ComplexityReport.complexFiles r
    = ComplexityReport.complexFiles r1 ++ ComplexityReport.complexFiles r2 /\
  ComplexityReport.codeSmells r
    = ComplexityReport.codeSmells r1 ++ ComplexityReport.codeSmells r2 /\
  (safe_counts (filter (analyzed ign) (files ++ files')) ->
   Stats.totalAdditions (ComplexityReport.stats r)
     = (Stats.totalAdditions (ComplexityReport.stats r1)
        + Stats.totalAdditions (ComplexityReport.stats r2))%Z /\
   Stats.totalDeletions (ComplexityReport.stats r)
     = (Stats.totalDeletions (ComplexityReport.stats r1)
        + Stats.totalDeletions (ComplexityReport.stats r2))%Z).
Proof.
  intros ->%analyzeComplexity_closed_form ->%analyzeComplexity_closed_form
         ->%analyzeComplexity_closed_form.
  destruct (finish_stats_lists (files ++ files')
              (loop_report (parseDiff diff) ign (files ++ files')))
    as (-> & -> & -> & -> & -> & ->).
  destruct (finish_stats_lists files (loop_report (parseDiff diff) ign files))
    as (-> & -> & -> & -> & -> & ->).
  destruct (finish_stats_lists files' (loop_report (parseDiff diff) ign files'))
    as (-> & -> & -> & -> & -> & ->).
  cbn [loop_report ComplexityReport.warnings ComplexityReport.largeFiles
       ComplexityReport.complexFiles ComplexityReport.codeSmells
       ComplexityReport.stats Stats.totalAdditions Stats.totalDeletions].
  rewrite filter_app, !flat_map_app, !map_app.
  assert (Htotal : forall a b, total (a ++ b) = (total a + total b)%Z).
  { intros a b. unfold total. induction a as [|x a IH]; cbn; [done | rewrite IH; lia]. }
  by rewrite !Htotal.
Qed.

Lemma complexity_report_of_concatenation_witness :
  exists r r1 r2 σ' τ1' τ2',
    analyzeComplexity (H := simple_glob) ([vendor_big_js] ++ [app_js])
      (DiffText keywords_diff) [] fresh_store = (Ret r, σ') /\
    analyzeComplexity (H := simple_glob) [vendor_big_js]
      (DiffText keywords_diff) [] fresh_store = (Ret r1, τ1') /\
    analyzeComplexity (H := simple_glob) [app_js]
      (DiffText keywords_diff) [] fresh_store = (Ret r2, τ2') /\
    map Warning.type (ComplexityReport.warnings r) = ["size"; "complexity"] /\
    ComplexityReport.warnings r
      = ComplexityReport.warnings r1 ++ ComplexityReport.warnings r2.
Proof.
  destruct (analyzeComplexity (H := simple_glob) ([vendor_big_js] ++ [app_js])
              (DiffText keywords_diff) [] fresh_store) as [[r|e] σ'] eqn:Hr;
    [|vm_compute in Hr; discriminate Hr].
  destruct (analyzeComplexity (H := simple_glob) [vendor_big_js]
              (DiffText keywords_diff) [] fresh_store) as [[r1|e] τ1'] eqn:Hr1;
    [|vm_compute in Hr1; discriminate Hr1].
  destruct (analyzeComplexity (H := simple_glob) [app_js]
              (DiffText keywords_diff) [] fresh_store) as [[r2|e] τ2'] eqn:Hr2;
    [|vm_compute in Hr2; discriminate Hr2].
  exists r, r1, r2, σ', τ1', τ2'. do 3 (split; [reflexivity|]).
  split.
  - vm_compute in Hr. injection Hr as <- _. reflexivity.
  - exact (proj1 (complexity_report_of_concatenation (H := simple_glob)
                    _ _ _ _ _ _ _ _ _ _ _ _ _ Hr Hr1 Hr2)).
Defined.

(** ** Ignore patterns and exceptions in the aggregator *)

Lemma complexity_file_returns `{GlobMatcher} (dc : gmap string string)
    (ign : list JsPattern) (file : ChangedFile.t) (res : ComplexityReport.t)
    (σ : Store) :
  (exists res' σ', complexity_file dc ign file res σ = (Ret res', σ')) <->
  (exists b, someM (minimatch (ChangedFile.filename file)) ign = Ret b).
Proof.
  unfold complexity_file, mbind at 1, M_bind at 1, lift.
  destruct (someM _ ign) as [b|e].
  2:{ split; [by intros (? & ? & ?) | by intros [? ?]]. }
  split; [by eauto|]. intros _.
  destruct b; [by eexists _, _|].
  destruct (negb _); [by eexists _, _|].
  destruct (dc !! _) as [content|]; [|by eexists _, _].
  destruct (is_empty content); [by eexists _, _|].
  match goal with
  | |- context [analyze_content ?fn ?c ?base σ] =>
      destruct (analyze_content_run fn c base σ) as (res' & σ' & Hrun & _)
  end.
  by exists res', σ'.
Qed.

Lemma complexity_loop_returns `{GlobMatcher} (dc : gmap string string)
    (ign : list JsPattern) (files : list ChangedFile.t) :
  forall acc σ,
    (exists r σ', for_ofM (complexity_file dc ign) files acc σ = (Ret r, σ')) <->
    (forall file, file ∈ files ->
       exists b, someM (minimatch (ChangedFile.filename file)) ign = Ret b).
Proof.
  induction files as [|f files IH]; intros acc σ.
  { split; [by intros _ file Hin%elem_of_nil | by eexists _, _]. }
  cbn [for_ofM]. split.
  - intros (r & σ' & Hrun). apply M_bind_Ret in Hrun as (acc' & σ1 & Hstep & Hrun).
    intros file [-> | Hin]%elem_of_cons.
    + apply (complexity_file_returns dc ign f acc σ). eauto.
    + apply (IH acc' σ1); [by eauto | done].
  - intros Hall.
    destruct (proj2 (complexity_file_returns dc ign f acc σ)) as (acc' & σ1 & Hstep).
    { apply Hall, list_elem_of_here. }
    destruct (proj2 (IH acc' σ1)) as (r & σ' & Hrun).
    { intros file Hin. apply Hall. by apply list_elem_of_further. }
    exists r, σ'. unfold mbind, M_bind. by rewrite Hstep.
Qed.

Lemma someM_throws `{GlobMatcher} (fn : string) (pre post : list JsPattern)
    (p : JsPattern) :
  (forall q, q ∈ pre -> minimatch fn q = Ret false) ->
  minimatch fn p = Throw TypeError ->
  someM (minimatch fn) (pre ++ p :: post) = Throw TypeError.
Proof.
  intros Hpre Hp. induction pre as [|q pre IH]; cbn [app someM].
  - by rewrite Hp.
  - rewrite (Hpre q) by apply list_elem_of_here. cbn.
    apply IH. intros q' Hq'. apply Hpre. by apply list_elem_of_further.
Qed.

(** X16.  Ignore patterns and exceptions.  The aggregator returns a report
    exactly when, for every file, the [some] over the ignore patterns does
    not throw, whatever the diff is; it consults no other pattern.  The
    pattern on which [minimatch] throws (any pattern that is not a string,
    for one) is reached for the first file unless an earlier pattern
    matches that file, and then both analyzers throw.  With no files
    nothing is matched and the empty report is returned. *)
Theorem ignore_patterns_and_exceptions `{GlobMatcher}
    (files : list ChangedFile.t) (diff : JsDiff) (ign : list JsPattern) (σ : Store) :
  ((exists r σ', analyzeComplexity files diff ign σ = (Ret r, σ')) <->
   (forall file, file ∈ files ->
      exists b, someM (minimatch (ChangedFile.filename file)) ign = Ret b)) /\
  (forall first pre p post rules,
     (forall q, q ∈ pre -> minimatch (ChangedFile.filename first) q = Ret false) ->
     minimatch (ChangedFile.filename first) p = Throw TypeError ->
     analyzeComplexity (first :: files) diff (pre ++ p :: post) σ = (Throw TypeError, σ) /\
     classify (first :: files) rules (pre ++ p :: post) = Throw TypeError) /\
  analyzeComplexity [] diff ign σ = (Ret empty_complexity_report, σ).
Proof.
  split; [|split; [|done]].
  - rewrite <- (complexity_loop_returns (parseDiff diff) ign files
                  empty_complexity_report σ).
    unfold analyzeComplexity. split.
    + intros (r & σ' & Hrun). apply M_bind_Ret in Hrun as (res & σ1 & Hloop & _).
      eauto.
    + intros (res & σ1 & Hloop). eexists _, _. unfold mbind, M_bind.
      by rewrite Hloop.
  - intros first pre p post rules Hpre Hp.
    pose proof (someM_throws _ pre post p Hpre Hp) as Hthrow. split.
    + unfold analyzeComplexity. cbn [for_ofM].
      unfold complexity_file, mbind, M_bind, lift. by rewrite Hthrow.
    + unfold classify. cbn [for_of]. by rewrite risk_file_unfold, Hthrow.
Qed.

Lemma ignore_patterns_and_exceptions_witness :
  (exists r σ',
     analyzeComplexity (H := simple_glob) [app_js] DiffNonString
       [PatString "**/vendor/**"] fresh_store = (Ret r, σ')) /\
  analyzeComplexity (H := simple_glob) [app_js; vendor_big_js] DiffUndefined
    [PatString "**/vendor/**"; PatOther] fresh_store = (Throw TypeError, fresh_store) /\
  exists r σ',
    analyzeComplexity (H := simple_glob) [vendor_big_js] DiffUndefined
      [PatString "**/vendor/**"; PatOther] fresh_store = (Ret r, σ').
Proof.
  split.
  { apply (proj1 (ignore_patterns_and_exceptions (H := simple_glob) [app_js]
                    DiffNonString [PatString "**/vendor/**"] fresh_store)).
    intros file ->%list_elem_of_singleton. by eexists. }
  split.
  - apply (proj1 (proj2 (ignore_patterns_and_exceptions (H := simple_glob)
                           [vendor_big_js] DiffUndefined [] fresh_store))
             app_js [PatString "**/vendor/**"] PatOther [] []); [|reflexivity].
    intros q ->%list_elem_of_singleton. reflexivity.
  - apply (proj1 (ignore_patterns_and_exceptions (H := simple_glob) [vendor_big_js]
                    DiffUndefined [PatString "**/vendor/**"; PatOther] fresh_store)).
    intros file ->%list_elem_of_singleton. by eexists.
Defined.

(** ** The code-smell catalogue *)

Lemma smell_of_spec (content : string) (sm : CodeSmellPattern.t) :
  smell_of content sm = [] \/
  exists n, 1 <= n /\
    smell_of content sm
    = [Smell.mk (CodeSmellPattern.type sm) n (CodeSmellPattern.message sm)].
Proof.
  unfold smell_of. destruct (fst _) as [[|m ms]|]; [by left| |by left].
  right. exists (length (m :: ms)). split; [cbn; lia | done].
Qed.

Lemma smells_sublist (content : string) (catalogue : list CodeSmellPattern.t) :
  map smell_kind (flat_map (smell_of content) catalogue)
    `sublist_of`
    map (fun sm => (CodeSmellPattern.type sm, CodeSmellPattern.message sm)) catalogue /\
  forall s, s ∈ flat_map (smell_of content) catalogue -> 1 <= Smell.count s.
Proof.
  induction catalogue as [|sm cat [IHs IHc]]; cbn [flat_map map].
  { split; [constructor|]. by intros s Hs%elem_of_nil. }
  destruct (smell_of_spec content sm) as [-> | (n & Hn & ->)]; cbn [app map].
  - split; [by apply sublist_cons | done].
  - split; [by apply sublist_skip|].
    intros s [-> | Hs]%elem_of_cons; [done | by apply IHc].
Qed.

(** ** The estimate of a file *)

Lemma nesting_fold (lang : string) (lines : list string) :
  forall m c, c <= m ->
    fst (fold_left (nesting_step lang) lines (m, c))
      <= m + length (filter (fun l => opens_block l = true) lines).
Proof.
  induction lines as [|line lines IH]; intros m c Hc; [cbn; lia|].
  cbn [fold_left]. rewrite filter_cons.
  assert (Hstep : exists m1 c1,
            nesting_step lang (m, c) line = (m1, c1) /\ c1 <= m1 /\
            m1 <= m + (if opens_block line then 1 else 0)).
  { unfold nesting_step, opens_block.
    destruct (includes "{" (trim line)
              || truthy (match_literal block_opener (trim line)))%bool;
      destruct (includes "}" (trim line) || _)%bool;
      eexists _, _; (split; [reflexivity|]); lia. }
  destruct Hstep as (m1 & c1 & -> & Hc1 & Hm1).
  specialize (IH m1 c1 Hc1).
  destruct (opens_block line); [rewrite decide_True by done | rewrite decide_False by done];
    cbn [length]; lia.
Qed.

(** X18.  [analyzeFileComplexity] always returns.  The complexity is at
    least 1; the nesting depth is at most the number of lines that contain
    an opening brace or end in a colon, so it is 0 for a text without such
    lines; the number of long lines is at most the number of lines. *)
Theorem estimate_bounds (filename content : string) (σ : Store) :
  exists est σ',
    analyzeFileComplexity filename content σ = (Ret est, σ') /\
    1 <= ComplexityEstimate.complexity est /\
    ComplexityEstimate.maxNesting est
      <= length (filter (fun l => opens_block l = true) (split_char "010" content)) /\
    ComplexityEstimate.longLines est <= length (split_char "010" content).
Proof.
  destruct (analyzeFileComplexity_run filename content σ) as (est & σ' & Hrun & _).
  exists est, σ'. split; [exact Hrun|].
  pose proof (M_run_fst _ _ _ _ _ Hrun
                (analyzeFileComplexity_estimate filename content σ)) as ->.
  cbn [estimate_of ComplexityEstimate.complexity ComplexityEstimate.maxNesting
       ComplexityEstimate.longLines].
  split; [lia|]. split.
  - apply (nesting_fold (language_of filename) (split_char "010" content) 0 0). lia.
  - apply length_filter.
Qed.

(** ** The largest file *)

Lemma largest_of_fold (rest : list ChangedFile.t) :
  forall (pre : list ChangedFile.t) (cur : ChangedFile.t) (mid : list ChangedFile.t),
    (forall g, g ∈ pre -> (ChangedFile.additions g < ChangedFile.additions cur)%Z) ->
    (forall g, g ∈ mid -> (ChangedFile.additions g <= ChangedFile.additions cur)%Z) ->
    exists pre' mid',
      pre ++ cur :: mid ++ rest = pre' ++ largest_of rest cur :: mid' /\
      (forall g, g ∈ pre' ->
         (ChangedFile.additions g < ChangedFile.additions (largest_of rest cur))%Z) /\
      (forall g, g ∈ mid' ->
         (ChangedFile.additions g <= ChangedFile.additions (largest_of rest cur))%Z).
Proof.
  induction rest as [|x rest IH]; intros pre cur mid Hpre Hmid.
  { exists pre, mid. by rewrite app_nil_r. }
  assert (Hl : largest_of (x :: rest) cur
               = largest_of rest
                   (if (ChangedFile.additions cur <? ChangedFile.additions x)%Z
                    then x else cur)) by reflexivity.
  rewrite Hl. clear Hl.
  destruct (ChangedFile.additions cur <? ChangedFile.additions x)%Z eqn:Hlt.
  - apply Z.ltb_lt in Hlt.
    destruct (IH (pre ++ cur :: mid) x []) as (pre' & mid' & Heq & Hp & Hm).
    + intros g [Hg | [-> | Hg]%elem_of_cons]%elem_of_app; [|done|].
      * specialize (Hpre g Hg). lia.
      * specialize (Hmid g Hg). lia.
    + by intros g Hg%elem_of_nil.
    + exists pre', mid'. split; [|done]. rewrite <- Heq. cbn [app].
      by rewrite <- app_assoc.
  - apply Z.ltb_ge in Hlt.
    destruct (IH pre cur (mid ++ [x])) as (pre' & mid' & Heq & Hp & Hm).
    + done.
    + intros g [Hg | ->%list_elem_of_singleton]%elem_of_app; [by apply Hmid | done].
    + exists pre', mid'. split; [|done]. rewrite <- Heq.
      by rewrite <- app_assoc.
Qed.

(** X19.  The largest file of the statistics is the first entry of the
    whole input (ignored and non-code files included) with the greatest
    number of added lines: every entry before it has fewer, no entry after
    it has more.  For an empty input there is none and the average is 0. *)
Theorem largest_file_is_first_maximum `{GlobMatcher}
    (files : list ChangedFile.t) (diff : JsDiff) (ign : list JsPattern)
    (r : ComplexityReport.t) (σ σ' : Store) :
  analyzeComplexity files diff ign σ = (Ret r, σ') ->
  (files = [] ->
   Stats.largestFile (ComplexityReport.stats r) = None /\
   Stats.averageFileSize (ComplexityReport.stats r) = 0%Z) /\
  (files <> [] ->
   exists before f after,
     files = before ++ f :: after /\
     Stats.largestFile (ComplexityReport.stats r)
       = Some (ChangedFile.filename f, ChangedFile.additions f) /\
     (forall g, g ∈ before -> (ChangedFile.additions g < ChangedFile.additions f)%Z) /\
     (forall g, g ∈ after -> (ChangedFile.additions g <= ChangedFile.additions f)%Z)).
Proof.
  intros ->%analyzeComplexity_closed_form. split.
  - intros ->. done.
  - destruct files as [|first rest]; [done|]. intros _.
    destruct (largest_of_fold rest [] first []) as (pre & mid & Heq & Hp & Hm);
      [by intros g Hg%elem_of_nil | by intros g Hg%elem_of_nil |].
    cbn [app] in Heq.
    assert (Hl : largest_of (first :: rest) first = largest_of rest first).
    { unfold largest_of. cbn [fold_left]. by rewrite Z.ltb_irrefl. }
    exists pre, (largest_of rest first), mid. split; [exact Heq|].
    split; [|done]. cbn [finish_stats ComplexityReport.stats Stats.largestFile].
    by rewrite Hl.
Qed.

Lemma largest_file_is_first_maximum_witness :
  exists r σ',
    analyzeComplexity (H := simple_glob)
      [small_js; readme_md; ChangedFile.mk "b.js" "added" 100 0]
      DiffUndefined [] fresh_store = (Ret r, σ') /\
    Stats.largestFile (ComplexityReport.stats r) = Some ("README.md", 100%Z) /\
    exists before f after,
      [small_js; readme_md; ChangedFile.mk "b.js" "added" 100 0] = before ++ f :: after /\
      Stats.largestFile (ComplexityReport.stats r)
        = Some (ChangedFile.filename f, ChangedFile.additions f).
Proof.
  destruct (analyzeComplexity (H := simple_glob)
              [small_js; readme_md; ChangedFile.mk "b.js" "added" 100 0]
              DiffUndefined [] fresh_store) as [[r|e] σ'] eqn:Hrun;
    [|vm_compute in Hrun; discriminate Hrun].
  exists r, σ'. split; [reflexivity|].
  destruct (proj2 (largest_file_is_first_maximum (H := simple_glob) _ _ _ _ _ _ Hrun))
    as (before & f & after & Heq & Hl & _); [discriminate|].
  split.
  - vm_compute in Hrun. injection Hrun as <- _. reflexivity.
  - exists before, f, after. split; assumption.
Defined.

(** ** What three entries of the catalogue detect *)

Lemma match_loop_keeps (R : RegExp) (subject : string) (fuel : nat) :
  forall lastIndex acc,
    length acc <= length (fst (match_loop fuel R subject lastIndex acc)).
Proof.
  induction fuel as [|fuel IH]; intros li acc; cbn [match_loop].
  - cbn [fst]. by rewrite length_rev.
  - destruct (RegExpBuiltinExec R subject li) as [[m|] li'].
    + etransitivity; [|apply IH]. cbn [length]. lia.
    + cbn [fst]. by rewrite length_rev.
Qed.

Lemma String_match_truthy (R : RegExp) (subject : string) :
  fl_global (re_flags R) = true ->
  match fst (String_match R subject 0) with
  | Some [] => False
  | Some (_ :: _) => search (re_flags R) (re_source R) None subject 0 <> None
  | None => search (re_flags R) (re_source R) None subject 0 = None
  end.
Proof.
  intros Hg. unfold String_match. rewrite Hg.
  replace (String.length subject + 2) with (S (String.length subject + 1)) by lia.
  cbn [match_loop]. unfold RegExpBuiltinExec. rewrite Hg. cbn [search_from].
  destruct (search (re_flags R) (re_source R) None subject 0) as [m|]; [|done].
  match goal with
  | |- context [match_loop ?f R subject ?li ?acc] =>
      pose proof (match_loop_keeps R subject f li acc) as Hlen;
      destruct (match_loop f R subject li acc) as [ms li']
  end.
  cbn [fst length] in *. destruct ms; [cbn in Hlen; lia | done].
Qed.

Lemma smell_of_hit (content : string) (sm : CodeSmellPattern.t) :
  fl_global (re_flags (CodeSmellPattern.pattern sm)) = true ->
  (exists s, s ∈ smell_of content sm) <->
  truthy (search (re_flags (CodeSmellPattern.pattern sm))
            (re_source (CodeSmellPattern.pattern sm)) None content 0) = true.
Proof.
  intros Hg. pose proof (String_match_truthy _ content Hg) as Hm.
  unfold smell_of. destruct (fst (String_match _ content 0)) as [[|m ms]|].
  - done.
  - destruct (search _ _ None content 0); [|done]. split; [done|].
    intros _. eexists. apply list_elem_of_here.
  - rewrite Hm. split; [|done]. by intros [s Hs%elem_of_nil].
Qed.

Lemma smell_of_message (content : string) (sm : CodeSmellPattern.t) (s : Smell.t) :
  s ∈ smell_of content sm -> Smell.message s = CodeSmellPattern.message sm.
Proof.
  unfold smell_of. destruct (fst _) as [[|m ms]|];
    try (by intros Hs%elem_of_nil).
  by intros ->%list_elem_of_singleton.
Qed.

Lemma existsb_pointwise {A} (f g : A -> bool) (l : list A) :
  (forall x, f x = g x) -> existsb f l = existsb g l.
Proof. intros Hfg. induction l as [|x l IH]; [done|]. cbn. by rewrite Hfg, IH. Qed.

Lemma existsb_fmap {A B} (f : B -> bool) (g : A -> B) (l : list A) :
  existsb f (map g l) = existsb (fun x => f (g x)) l.
Proof. induction l as [|x l IH]; [done|]. cbn. by rewrite IH. Qed.

Lemma existsb_orb {A} (f g : A -> bool) (l : list A) :
  (existsb f l || existsb g l)%bool = existsb (fun x => f x || g x)%bool l.
Proof.
  induction l as [|x l IH]; [done|]. cbn [existsb]. rewrite <- IH.
  destruct (f x), (g x), (existsb f l), (existsb g l); reflexivity.
Qed.

(** A pattern that matches at a position exactly when one of the words
    starts there is found exactly in the texts that include a word. *)
Lemma search_words (fl : Flags) (r : regex) (words : list string) :
  (forall prev s,
     truthy (rmatch fl r prev s [] accept) = existsb (fun w => startsWith w s) words) ->
  forall s prev i,
    truthy (search fl r prev s i) = existsb (fun w => includes w s) words.
Proof.
  intros Hhit. induction s as [|c s IH]; intros prev i; rewrite search_unfold;
    specialize (Hhit prev) as Hhere.
  - specialize (Hhere EmptyString).
    destruct (rmatch fl r prev EmptyString [] accept) as [[rest caps]|];
      cbn [truthy] in *; rewrite Hhere; apply existsb_pointwise;
      intros w; cbn [includes]; by rewrite orb_false_r.
  - specialize (Hhere (String c s)).
    transitivity (existsb (fun w => startsWith w (String c s)) words
                  || existsb (fun w => includes w s) words)%bool.
    + destruct (rmatch fl r prev (String c s) [] accept) as [[rest caps]|];
        cbn [truthy] in *; rewrite <- Hhere; [done|]. by rewrite IH.
    + rewrite existsb_orb. by apply existsb_pointwise.
Qed.

Lemma startsWith_app (a b s : string) :
  startsWith (a ++ b) s
  = (startsWith a s && startsWith b (substring_from (String.length a) s))%bool.
Proof.
  revert s. induction a as [|x a IH]; intros s; [done|].
  rewrite append_String. destruct s as [|y s]; [done|].
  cbn [startsWith String.length substring_from]. rewrite IH.
  by destruct (Ascii.eqb x y).
Qed.

Lemma hit_debugger (prev : option ascii) (s : string) :
  truthy (rmatch flags_g (Cats [Lit "debugger"; Opt (Chr ";")]) prev s [] accept)
  = existsb (fun w => startsWith w s) ["debugger"].
Proof.
  change (Cats [Lit "debugger"; Opt (Chr ";")])
    with (Cat (Lit "debugger") (Alt (Chr ";") Empty)).
  cbn [rmatch existsb]. rewrite rmatch_Lit; [|done|done]. rewrite orb_false_r.
  destruct (startsWith "debugger" s); [|done].
  destruct (substring_from _ s) as [|c rest]; [done|].
  unfold char_matches. cbn [flags_g fl_ignoreCase]. by destruct (Ascii.eqb ";" c).
Qed.

Lemma hit_words (words : list string) (prev : option ascii) (s : string)
    (caps : list string) (k : Continuation) :
  (forall p s' c, k p s' c <> None) ->
  (forall p p' s' c, k p s' c = k p' s' c) ->
  words <> [] ->
  truthy (rmatch flags_g (Alts (map Lit words)) prev s caps k)
  = existsb (fun w => startsWith w s) words.
Proof.
  intros Hk Hind. induction words as [|w words IH]; [done|]. intros _.
  destruct words as [|w' words].
  - cbn [map Alts existsb]. rewrite rmatch_Lit; [|done|done]. rewrite orb_false_r.
    destruct (startsWith w s); [|done].
    specialize (Hk None (substring_from (String.length w) s) caps).
    by destruct (k None _ caps).
  - change (Alts (map Lit (w :: w' :: words)))
      with (Alt (Lit w) (Alts (map Lit (w' :: words)))).
    cbn [rmatch]. rewrite rmatch_Lit; [|done|done].
    change (existsb (fun w0 => startsWith w0 s) (w :: w' :: words))
      with (startsWith w s || existsb (fun w0 => startsWith w0 s) (w' :: words))%bool.
    destruct (startsWith w s).
    + specialize (Hk None (substring_from (String.length w) s) caps).
      by destruct (k None _ caps).
    + by apply IH.
Qed.

Lemma hit_lint (prev : option ascii) (s : string) :
  truthy (rmatch flags_g
            (Alts (map Lit ["eslint-disable"; "@ts-ignore"; "@ts-nocheck"; "noqa"]))
            prev s [] accept)
  = existsb (fun w => startsWith w s)
      ["eslint-disable"; "@ts-ignore"; "@ts-nocheck"; "noqa"].
Proof. by apply hit_words. Qed.

Lemma hit_console (prev : option ascii) (s : string) :
  truthy (rmatch flags_g
            (Cats [Lit "console.";
                   Grp (Alts (map Lit ["log"; "debug"; "info"; "warn"; "error"]))])
            prev s [] accept)
  = existsb (fun w => startsWith w s)
      ["console.log"; "console.debug"; "console.info"; "console.warn"; "console.error"].
Proof.
  change (Cats [Lit "console.";
                Grp (Alts (map Lit ["log"; "debug"; "info"; "warn"; "error"]))])
    with (Cat (Lit "console.")
              (Grp (Alts (map Lit ["log"; "debug"; "info"; "warn"; "error"])))).
  cbn [rmatch].
  assert (Hgrp : forall p s' c,
            truthy (rmatch flags_g
                      (Alts (map Lit ["log"; "debug"; "info"; "warn"; "error"])) p s' c
                      (fun prev' s'' caps' =>
                         accept prev' s''
                           (caps' ++ [substring_to (String.length s' - String.length s'') s'])))
            = existsb (fun w => startsWith w s') ["log"; "debug"; "info"; "warn"; "error"]).
  { intros p s' c. by apply hit_words. }
  rewrite rmatch_Lit; [|done|].
  - change ["console.log"; "console.debug"; "console.info"; "console.warn";
            "console.error"]
      with (map (fun w => ("console." ++ w)%string)
              ["log"; "debug"; "info"; "warn"; "error"]).
    rewrite existsb_fmap.
    destruct (startsWith "console." s) eqn:Hc.
    + rewrite Hgrp. apply existsb_pointwise. intros w. by rewrite startsWith_app, Hc.
    + symmetry. apply not_true_is_false. intros (w & _ & Hw)%existsb_exists.
      rewrite startsWith_app, Hc in Hw. discriminate Hw.
  - intros p p' s' c.
    pose proof (Hgrp p s' c) as H1. pose proof (Hgrp p' s' c) as H2.
    cbn [map Alts rmatch] in *. rewrite !rmatch_Lit in * by done.
    reflexivity.
Qed.

Lemma fmap_NoDup_inj {A B} (f : A -> B) (l : list A) (x y : A) :
  NoDup (map f l) -> x ∈ l -> y ∈ l -> f x = f y -> x = y.
Proof.
  induction l as [|z l IH]; intros Hnd Hx Hy Hf; [by apply elem_of_nil in Hx|].
  cbn [map] in Hnd. apply NoDup_cons in Hnd as [Hz Hnd].
  apply elem_of_cons in Hx as [-> | Hx]; apply elem_of_cons in Hy as [-> | Hy].
  - done.
  - destruct Hz. rewrite Hf. apply list_elem_of_fmap. eauto.
  - destruct Hz. rewrite <- Hf. apply list_elem_of_fmap. eauto.
  - by apply IH.
Qed.

Lemma catalogue_messages_differ :
  NoDup (map CodeSmellPattern.message CODE_SMELL_PATTERNS).
Proof. apply (bool_decide_unpack _). vm_compute. reflexivity. Qed.

Lemma smells_of_entry (content : string) (sm : CodeSmellPattern.t) :
  sm ∈ CODE_SMELL_PATTERNS ->
  (exists s, s ∈ smells_of content /\ Smell.message s = CodeSmellPattern.message sm) <->
  (exists s, s ∈ smell_of content sm).
Proof.
  intros Hsm. unfold smells_of. split.
  - intros (s & (sm' & Hsm' & Hs)%elem_of_flat_map & Hmsg).
    rewrite (smell_of_message _ _ _ Hs) in Hmsg.
    apply (fmap_NoDup_inj _ _ _ _ catalogue_messages_differ Hsm' Hsm) in Hmsg as ->.
    eauto.
  - intros [s Hs]. exists s. split; [|by apply smell_of_message in Hs].
    apply elem_of_flat_map. eauto.
Qed.

(** X17.  [detectCodeSmells] always returns.  A pattern of the catalogue
    that matches the text has an entry, with the type and the message of
    the pattern and the number of its matches as count; a pattern that
    does not match has none.  The entries come one for each matching
    pattern (not one for each type), in the order of the catalogue: at
    most nine entries, each with a count of at least one.  The result does
    not depend on the state of the shared expressions. *)
Theorem code_smells_follow_the_catalogue (content : string) (σ : Store) :
  exists smells σ',
    detectCodeSmells content σ = (Ret smells, σ') /\
    smells = flat_map (smell_of content) CODE_SMELL_PATTERNS /\
    (forall sm, sm ∈ CODE_SMELL_PATTERNS ->
       match match_literal (CodeSmellPattern.pattern sm) content with
       | Some ((_ :: _) as found) =>
           Smell.mk (CodeSmellPattern.type sm) (length found)
                    (CodeSmellPattern.message sm) ∈ smells
       | _ => forall s, s ∈ smells -> Smell.message s <> CodeSmellPattern.message sm
       end) /\
    map smell_kind smells `sublist_of` catalogue_kinds /\
    length smells <= 9 /\
    (forall s, s ∈ smells -> 1 <= Smell.count s) /\
    (forall τ, fst (detectCodeSmells content τ) = Ret smells).
Proof.
  destruct (detect_from_run CODE_SMELL_PATTERNS content 0 [] σ) as (smells & σ' & Hrun).
  exists smells, σ'. split; [exact Hrun|].
  pose proof (M_run_fst _ _ _ _ _ Hrun
                (detect_from_smells CODE_SMELL_PATTERNS content 0 [] σ)) as ->.
  cbn [app]. destruct (smells_sublist content CODE_SMELL_PATTERNS) as [Hsub Hcount].
  split; [reflexivity|]. split.
  { intros sm Hsm.
    pose proof (smells_of_entry content sm Hsm) as Hentry.
    unfold smells_of in Hentry. unfold smell_of in Hentry at 2.
    unfold match_literal.
    destruct (fst (String_match (CodeSmellPattern.pattern sm) content 0))
      as [[|m ms]|] eqn:Hfound.
    - intros s Hs Hmsg. destruct (proj1 Hentry) as [s' Hs']; [by eauto|].
      by apply elem_of_nil in Hs'.
    - apply elem_of_flat_map. exists sm. split; [done|].
      unfold smell_of. rewrite Hfound. apply list_elem_of_here.
    - intros s Hs Hmsg. destruct (proj1 Hentry) as [s' Hs']; [by eauto|].
      by apply elem_of_nil in Hs'. }
  split; [exact Hsub|]. split; [|split; [exact Hcount|]].
  - apply sublist_length in Hsub. rewrite length_map in Hsub. exact Hsub.
  - intros τ. apply (detect_from_smells CODE_SMELL_PATTERNS content 0 [] τ).
Qed.

Lemma code_smells_follow_the_catalogue_witness :
  exists σ',
    detectCodeSmells "debugger; x = 1; // noqa debugger" fresh_store
    = (Ret [Smell.mk "debug" 2 "Contains debugger statement";
            Smell.mk "lint" 1 "Contains lint disable comments"], σ').
Proof.
  destruct (code_smells_follow_the_catalogue "debugger; x = 1; // noqa debugger"
              fresh_store) as (smells & σ' & Hrun & Hclosed & _).
  exists σ'. rewrite Hrun, Hclosed. reflexivity.
Defined.

(** X20.  What three entries of the catalogue detect.  The [debugger]
    smell is reported exactly for the texts that contain [debugger]; the
    console smell exactly for the texts that contain [console.] followed
    directly by [log], [debug], [info], [warn] or [error]; the lint smell
    exactly for the texts that contain [eslint-disable], [@ts-ignore],
    [@ts-nocheck] or [noqa].  No word boundary is required, so [noqa]
    inside a longer word counts as well. *)
Theorem literal_smells_are_detected (content : string) (σ σ' : Store)
    (smells : list Smell.t) :
  detectCodeSmells content σ = (Ret smells, σ') ->
  ((exists s, s ∈ smells /\ Smell.message s = "Contains debugger statement") <->
   includes "debugger" content = true) /\
  ((exists s, s ∈ smells /\ Smell.message s = "Contains console statements") <->
   existsb (fun w => includes w content)
     ["console.log"; "console.debug"; "console.info"; "console.warn"; "console.error"]
   = true) /\
  ((exists s, s ∈ smells /\ Smell.message s = "Contains lint disable comments") <->
   existsb (fun w => includes w content)
     ["eslint-disable"; "@ts-ignore"; "@ts-nocheck"; "noqa"] = true).
Proof.
  intros Hrun.
  pose proof (M_run_fst _ _ _ _ _ Hrun
                (detect_from_smells CODE_SMELL_PATTERNS content 0 [] σ)) as ->.
  cbn [app]. fold (smells_of content).
  split; [|split].
  - rewrite (smells_of_entry content
               (CodeSmellPattern.mk
                  (mkRegExp (Cats [Lit "debugger"; Opt (Chr ";")]) flags_g)
                  "debug" "Contains debugger statement")).
    2:{ do 2 apply list_elem_of_further. apply list_elem_of_here. }
    rewrite smell_of_hit by reflexivity.
    cbn [CodeSmellPattern.pattern re_flags re_source].
    rewrite (search_words _ _ ["debugger"] hit_debugger).
    cbn [existsb]. by rewrite orb_false_r.
  - rewrite (smells_of_entry content
               (CodeSmellPattern.mk
                  (mkRegExp
                     (Cats [Lit "console.";
                            Grp (Alts (map Lit ["log"; "debug"; "info"; "warn"; "error"]))])
                     flags_g)
                  "debug" "Contains console statements")).
    2:{ apply list_elem_of_further. apply list_elem_of_here. }
    rewrite smell_of_hit by reflexivity.
    cbn [CodeSmellPattern.pattern re_flags re_source].
    by rewrite (search_words _ _ _ hit_console).
  - rewrite (smells_of_entry content
               (CodeSmellPattern.mk
                  (mkRegExp
                     (Alts (map Lit ["eslint-disable"; "@ts-ignore"; "@ts-nocheck"; "noqa"]))
                     flags_g)
                  "lint" "Contains lint disable comments")).
    2:{ do 5 apply list_elem_of_further. apply list_elem_of_here. }
    rewrite smell_of_hit by reflexivity.
    cbn [CodeSmellPattern.pattern re_flags re_source].
    by rewrite (search_words _ _ _ hit_lint).
Qed.

Lemma literal_smells_are_detected_witness :
  exists smells σ',
    detectCodeSmells "x = 1; // noqa" fresh_store = (Ret smells, σ') /\
    map Smell.type smells = ["lint"] /\
    ((exists s, s ∈ smells /\ Smell.message s = "Contains debugger statement") <->
     includes "debugger" "x = 1; // noqa" = true).
Proof.
  destruct (detectCodeSmells "x = 1; // noqa" fresh_store) as [[smells|e] σ'] eqn:Hrun;
    [|vm_compute in Hrun; discriminate Hrun].
  exists smells, σ'. split; [reflexivity|]. split.
  - vm_compute in Hrun. injection Hrun as <- _. reflexivity.
  - exact (proj1 (literal_smells_are_detected _ _ _ _ Hrun)).
Defined.

(** ** The extension of a path *)

Lemma char_at_app (a b : string) (i : nat) :
  char_at (String.length a + i) (a ++ b) = char_at i b.
Proof.
  induction a as [|x a IH]; [done|]. rewrite append_String.
  cbn [String.length Nat.add]. unfold char_at in *. cbn [String.get]. exact IH.
Qed.

Lemma char_at_plain (s : string) (i : nat) :
  plain s = true -> i < String.length s -> plain_char (char_at i s) = true.
Proof.
  revert i. induction s as [|c s IH]; intros i Hs Hi; [cbn in Hi; lia|].
  unfold plain in Hs. cbn [list_ascii_of_string forallb] in Hs.
  apply andb_true_iff in Hs as [Hc Hs].
  destruct i as [|i]; [exact Hc|]. unfold char_at. cbn [String.get].
  apply IH; [exact Hs | cbn in Hi; lia].
Qed.

Lemma substring_from_app (a b : string) :
  substring_from (String.length a) (a ++ b) = b.
Proof. induction a as [|x a IH]; [done|]. rewrite append_String. exact IH. Qed.

Lemma substring_to_all (s : string) : substring_to (String.length s) s = s.
Proof. induction s as [|x s IH]; [done|]. cbn. by rewrite IH. Qed.

Section Extname.
Variable path : string.

(** Plain characters are passed over once the end of the extension is
    known and no dot has been seen. *)
Lemma extname_loop_plain (E : Z) (q k : nat) :
  E <> (-1)%Z ->
  (forall j, j < k -> plain_char (char_at (q + j) path) = true) ->
  extname_loop path (q + k) (mkExtScan (-1) 0 E false 0)
  = extname_loop path q (mkExtScan (-1) 0 E false 0).
Proof.
  intros HE. induction k as [|k IH]; intros Hplain.
  { by rewrite Nat.add_0_r. }
  rewrite Nat.add_succ_r. cbn [extname_loop].
  specialize (Hplain k ltac:(lia)) as Hk. unfold plain_char in Hk.
  apply andb_true_iff in Hk as [Hdot Hslash].
  apply negb_true_iff in Hdot, Hslash. rewrite Hslash, Hdot.
  cbn [scanEnd startDot]. apply Z.eqb_neq in HE. rewrite HE. cbn.
  apply IH. intros j Hj. apply Hplain. lia.
Qed.

(** Once a dot and a character before it have been seen, the rest of the
    path does not change the extension. *)
Lemma extname_loop_rest (n : nat) :
  forall st,
    startDot st <> (-1)%Z -> scanEnd st <> (-1)%Z -> matchedSlash st = false ->
    preDotState st <> 0%Z ->
    startDot (extname_loop path n st) = startDot st /\
    scanEnd (extname_loop path n st) = scanEnd st /\
    preDotState (extname_loop path n st) <> 0%Z.
Proof.
  induction n as [|n IH]; intros st Hd He Hm Hp; [done|].
  cbn [extname_loop]. destruct (Ascii.eqb (char_at n path) "/").
  { by rewrite Hm. }
  apply Z.eqb_neq in He as He'. rewrite He'.
  apply Z.eqb_neq in Hd as Hd'. rewrite Hd'. cbn [negb].
  destruct (Ascii.eqb (char_at n path) ".").
  - destruct (Z.eqb (preDotState st) 1) eqn:H1; cbn [negb].
    + by apply IH.
    + destruct (IH (mkExtScan (startDot st) (startPart st) (scanEnd st)
                      (matchedSlash st) 1)) as (? & ? & ?); done.
  - destruct (IH (mkExtScan (startDot st) (startPart st) (scanEnd st)
                    (matchedSlash st) (-1))) as (? & ? & ?); done.
Qed.
Lemma extname_loop_last (i : nat) :
  plain_char (char_at i path) = true ->
  extname_loop path (S i) (mkExtScan (-1) 0 (-1) true 0)
  = extname_loop path i (mkExtScan (-1) 0 (Z.of_nat i + 1) false 0).
Proof.
  intros Hl. unfold plain_char in Hl.
  apply andb_true_iff in Hl as [Hd Hs]. apply negb_true_iff in Hd, Hs.
  cbn [extname_loop]. rewrite Hs, Hd. cbn [scanEnd].
  change (-1 =? -1)%Z with true. cbn [startDot].
  change (-1 =? -1)%Z with true. reflexivity.
Qed.

Lemma extname_loop_dot (E : Z) (i : nat) :
  E <> (-1)%Z -> char_at i path = "."%char ->
  extname_loop path (S i) (mkExtScan (-1) 0 E false 0)
  = extname_loop path i (mkExtScan (Z.of_nat i) 0 E false 0).
Proof.
  intros HE Hd. apply Z.eqb_neq in HE.
  cbn [extname_loop]. rewrite Hd.
  change (Ascii.eqb "." "/") with false. change (Ascii.eqb "." ".") with true.
  cbn [scanEnd]. rewrite HE. cbn [startDot].
  change (-1 =? -1)%Z with true. reflexivity.
Qed.

Lemma extname_loop_before_dot (E : Z) (d i : nat) :
  E <> (-1)%Z -> Ascii.eqb (char_at i path) "/" = false ->
  extname_loop path (S i) (mkExtScan (Z.of_nat d) 0 E false 0)
  = extname_loop path i
      (mkExtScan (Z.of_nat d) 0 E false
         (if Ascii.eqb (char_at i path) "." then 1 else -1)).
Proof.
  intros HE Hs. apply Z.eqb_neq in HE.
  assert (Hd : (Z.of_nat d =? -1)%Z = false) by (apply Z.eqb_neq; lia).
  cbn [extname_loop]. rewrite Hs. cbn [scanEnd]. rewrite HE.
  cbn [startDot preDotState]. rewrite Hd. change (0 =? 1)%Z with false.
  by destruct (Ascii.eqb (char_at i path) ".").
Qed.
End Extname.

Lemma extname_of_extension (prefix : string) (c : ascii) (ext : string) :
  c <> "/"%char -> ext <> EmptyString -> plain ext = true ->
  extname (prefix ++ String c (String "." ext)) = String "." ext.
Proof.
  intros Hc Hext Hplain.
  set (path := (prefix ++ String c (String "." ext))%string).
  set (p := String.length prefix).
  assert (Hlen : String.length path = p + 2 + String.length ext).
  { unfold path, p. rewrite length_append. cbn [String.length]. lia. }
  assert (Hcp : char_at p path = c).
  { unfold path, p. rewrite <- (Nat.add_0_r (String.length prefix)).
    by rewrite char_at_app. }
  assert (Hdot : char_at (p + 1) path = "."%char).
  { unfold path, p. by rewrite char_at_app. }
  assert (Hch : forall j, j < String.length ext ->
                  plain_char (char_at (p + 2 + j) path) = true).
  { intros j Hj. unfold path, p. rewrite <- Nat.add_assoc, char_at_app.
    cbn [Nat.add]. change (char_at (S (S j)) (String c (String "." ext)))
      with (char_at j ext). by apply char_at_plain. }
  destruct ext as [|e ext']; [done|]. clear Hext.
  set (ext := String e ext') in *.
  assert (Hk : String.length ext = S (String.length ext')) by reflexivity.
  set (E := Z.of_nat (String.length path)).
  assert (HE : E <> (-1)%Z) by (unfold E; lia).
  (* the last character fixes the end; the other characters of the
     extension are passed over *)
  assert (Hfirst : extname_loop path (String.length path) (mkExtScan (-1) 0 (-1) true 0)
                   = extname_loop path (p + 2) (mkExtScan (-1) 0 E false 0)).
  { rewrite Hlen, Hk. rewrite Nat.add_succ_r.
    rewrite extname_loop_last by (apply Hch; lia).
    replace (Z.of_nat (p + 2 + String.length ext') + 1)%Z with E
      by (unfold E; rewrite Hlen, Hk; lia).
    apply extname_loop_plain; [exact HE|].
    intros j Hj. apply Hch. lia. }
  assert (Hsecond : extname_loop path (p + 2) (mkExtScan (-1) 0 E false 0)
                    = extname_loop path p
                        (mkExtScan (Z.of_nat (p + 1)) 0 E false
                           (if Ascii.eqb c "." then 1 else -1))).
  { replace (p + 2) with (S (p + 1)) by lia.
    rewrite extname_loop_dot by done.
    replace (p + 1) with (S p) at 1 by lia.
    rewrite extname_loop_before_dot;
      [by rewrite Hcp | exact HE | rewrite Hcp; by apply Ascii.eqb_neq]. }
  destruct (extname_loop_rest path p
              (mkExtScan (Z.of_nat (p + 1)) 0 E false (if Ascii.eqb c "." then 1 else -1)))
    as (Hsd & Hse & Hpd); cbn [startDot scanEnd matchedSlash preDotState];
    [lia | exact HE | done | by destruct (Ascii.eqb c ".") |].
  unfold extname. fold path. rewrite Hfirst, Hsecond.
  set (st := extname_loop path p _) in *. cbn [startDot scanEnd preDotState] in Hsd, Hse.
  rewrite Hsd, Hse.
  assert (H1 : (Z.of_nat (p + 1) =? -1)%Z = false) by (apply Z.eqb_neq; lia).
  assert (H2 : (E =? -1)%Z = false) by (by apply Z.eqb_neq).
  assert (H3 : (preDotState st =? 0)%Z = false) by (by apply Z.eqb_neq).
  assert (H4 : (Z.of_nat (p + 1) =? E - 1)%Z = false).
  { apply Z.eqb_neq. unfold E. rewrite Hlen, Hk. lia. }
  rewrite H1, H2, H3, H4, andb_false_r. cbn [orb andb].
  unfold E. rewrite !Nat2Z.id, substring_to_all. unfold path, p.
  replace (String.length prefix + 1) with (String.length (prefix ++ String c "")).
  2:{ rewrite length_append. cbn. lia. }
  change (prefix ++ String c (String "." ext))%string
    with (prefix ++ (String c "" ++ String "." ext))%string.
  rewrite <- append_assoc. apply substring_from_app.
Qed.

Lemma plain_chars_from (seg rest : string) (pre : string) (j : nat) :
  plain seg = true -> j < String.length seg ->
  plain_char (char_at (String.length pre + j) (pre ++ seg ++ rest)) = true.
Proof.
  intros Hseg Hj. rewrite char_at_app. revert j Hj.
  induction seg as [|x seg IH]; intros j Hj; [cbn in Hj; lia|].
  unfold plain in Hseg. cbn [list_ascii_of_string forallb] in Hseg.
  apply andb_true_iff in Hseg as [Hx Hseg]. rewrite append_String.
  destruct j as [|j]; [exact Hx|].
  change (char_at (S j) (String x (seg ++ rest))) with (char_at j (seg ++ rest)).
  apply IH; [exact Hseg | cbn in Hj; lia].
Qed.

(** The scan of a last segment without a dot: whatever precedes the
    segment, no dot is found. *)
Lemma extname_loop_segment (pre seg : string) :
  seg <> EmptyString -> plain seg = true ->
  extname_loop (pre ++ seg) (String.length (pre ++ seg)) (mkExtScan (-1) 0 (-1) true 0)
  = extname_loop (pre ++ seg) (String.length pre)
      (mkExtScan (-1) 0 (Z.of_nat (String.length (pre ++ seg))) false 0).
Proof.
  intros Hne Hseg.
  assert (Hch : forall j, j < String.length seg ->
            plain_char (char_at (String.length pre + j) (pre ++ seg)) = true).
  { intros j Hj. pose proof (plain_chars_from seg EmptyString pre j Hseg Hj) as Hp.
    assert (Hnil : forall s : string, (s ++ EmptyString)%string = s).
    { induction s as [|x s IH]; [done|]. by rewrite append_String, IH. }
    by rewrite Hnil in Hp. }
  rewrite length_append. destruct seg as [|x seg']; [done|].
  cbn [String.length]. rewrite Nat.add_succ_r.
  rewrite extname_loop_last by (apply Hch; cbn; lia).
  replace (Z.of_nat (String.length pre + String.length seg') + 1)%Z
    with (Z.of_nat (S (String.length pre + String.length seg'))) by lia.
  apply extname_loop_plain; [lia|]. intros j Hj. apply Hch. cbn. lia.
Qed.

Lemma extname_without_dot (dir seg : string) :
  seg <> EmptyString -> plain seg = true ->
  extname seg = EmptyString /\
  extname (dir ++ String "/" seg) = EmptyString.
Proof.
  intros Hne Hseg. split.
  - unfold extname.
    pose proof (extname_loop_segment EmptyString seg Hne Hseg) as Hs.
    rewrite !append_Empty in Hs. rewrite Hs. reflexivity.
  - unfold extname.
    change (dir ++ String "/" seg)%string with (dir ++ (String "/" "" ++ seg))%string.
    rewrite <- append_assoc.
    rewrite (extname_loop_segment (dir ++ String "/" "") seg Hne Hseg).
    rewrite (length_append dir). cbn [String.length]. rewrite Nat.add_succ_r, Nat.add_0_r.
    cbn [extname_loop].
    assert (Hs : char_at (String.length dir) ((dir ++ String "/" "") ++ seg) = "/"%char).
    { rewrite append_assoc, <- (Nat.add_0_r (String.length dir)).
      by rewrite char_at_app. }
    rewrite Hs. reflexivity.
Qed.

Lemma extname_dot_file (dir name : string) :
  name <> EmptyString -> plain name = true ->
  extname (String "." name) = EmptyString /\
  extname (dir ++ String "/" (String "." name)) = EmptyString.
Proof.
  intros Hne Hname. split.
  - unfold extname.
    change (String "." name) with (String "." "" ++ name)%string.
    rewrite (extname_loop_segment (String "." "") name Hne Hname).
    cbn [String.length]. rewrite extname_loop_dot; [reflexivity | lia | reflexivity].
  - unfold extname.
    change (dir ++ String "/" (String "." name))%string
      with (dir ++ (String "/" (String "." "") ++ name))%string.
    rewrite <- append_assoc.
    rewrite (extname_loop_segment (dir ++ String "/" (String "." "")) name Hne Hname).
    rewrite (length_append dir). cbn [String.length].
    rewrite !Nat.add_succ_r, Nat.add_0_r.
    assert (Hd : char_at (S (String.length dir))
                   ((dir ++ String "/" (String "." "")) ++ name) = "."%char).
    { rewrite append_assoc.
      replace (S (String.length dir)) with (String.length dir + 1) by lia.
      by rewrite char_at_app. }
    assert (Hs : char_at (String.length dir)
                   ((dir ++ String "/" (String "." "")) ++ name) = "/"%char).
    { rewrite append_assoc, <- (Nat.add_0_r (String.length dir)).
      by rewrite char_at_app. }
    rewrite extname_loop_dot; [|lia|exact Hd].
    cbn [extname_loop]. rewrite Hs. change (Ascii.eqb "/" "/") with true.
    cbn [matchedSlash negb startDot scanEnd preDotState startPart].
    change (0 =? 0)%Z with true. by rewrite orb_true_r.
Qed.

(** X21.  Whether a file is a code file is decided by the text after the
    last dot of the last path segment, compared without regard to case
    with the sixteen extensions; the same text selects the language of the
    control-flow pattern.  A last segment without a dot, or with its only
    dot in front (a dot file such as [.js]), has no extension, and the file
    is not a code file. *)
Theorem code_files_by_extension (dir : string) (c : ascii) (ext name : string) :
  (c <> "/"%char -> ext <> EmptyString -> plain ext = true ->
   extname (dir ++ String c (String "." ext)) = String "." ext /\
   isCodeFile (dir ++ String c (String "." ext))
     = bool_decide (String "." (toLowerCase ext) ∈ codeExtensions) /\
   language_of (dir ++ String c (String "." ext))
     = default "js" (langMap (toLowerCase ext))) /\
  (name <> EmptyString -> plain name = true ->
   isCodeFile name = false /\
   isCodeFile (dir ++ String "/" name) = false /\
   isCodeFile (String "." name) = false /\
   isCodeFile (dir ++ String "/" (String "." name)) = false).
Proof.
  split.
  - intros Hc Hext Hplain.
    pose proof (extname_of_extension dir c ext Hc Hext Hplain) as Hx.
    split; [exact Hx|]. unfold isCodeFile, language_of. rewrite Hx.
    cbn [toLowerCase]. change (lower_char ".") with "."%char. done.
  - intros Hne Hplain.
    destruct (extname_without_dot dir name Hne Hplain) as [H1 H2].
    destruct (extname_dot_file dir name Hne Hplain) as [H3 H4].
    unfold isCodeFile. by rewrite H1, H2, H3, H4.
Qed.

Lemma code_files_by_extension_witness :
  isCodeFile "src/Main.JAVA" = true /\
  language_of "src/Main.JAVA" = "java" /\
  isCodeFile "lib.v2/Makefile" = false /\
  isCodeFile "src/.py" = false.
Proof.
  pose proof (code_files_by_extension "src/Mai" "n" "JAVA" "Makefile") as [Hext _].
  destruct Hext as (_ & Hcode & Hlang); [discriminate | discriminate | reflexivity |].
  pose proof (code_files_by_extension "lib.v2" "n" "JAVA" "Makefile") as [_ Hno].
  destruct Hno as (_ & Hmake & _); [discriminate | reflexivity |].
  pose proof (code_files_by_extension "src" "n" "JAVA" "py") as [_ Hdot].
  destruct Hdot as (_ & _ & _ & Hpy); [discriminate | reflexivity |].
  split; [exact Hcode|]. split; [exact Hlang|]. split; [exact Hmake | exact Hpy].
Defined.

(** ** The splits of the diff parser lose no text *)

Lemma append_nil_r (s : string) : (s ++ EmptyString)%string = s.
Proof. induction s as [|x s IH]; [done|]. by rewrite append_String, IH. Qed.

Lemma join_cons (sep x : string) (l : list string) :
  l <> [] -> join sep (x :: l) = (x ++ sep ++ join sep l)%string.
Proof. by destruct l. Qed.

Lemma split_walk_nonempty (fl : Flags) (r : regex) (s : string) :
  forall prev cur skip, split_walk fl r prev s cur skip <> [].
Proof.
  induction s as [|c s IH]; intros prev cur skip; cbn [split_walk]; [done|].
  destruct skip as [|skip]; [|apply IH].
  destruct (rmatch fl r prev (String c s) [] accept) as [[rest caps]|]; [|apply IH].
  destruct (String.length (String c s) - String.length rest); [|done].
  destruct (is_empty cur); [apply IH | done].
Qed.

Lemma header_length (s : string) :
  startsWith "diff --git" s = true ->
  String.length s - String.length (substring_from 10 s) = 10 /\
  exists c s', s = String c s' /\
    ("diff --git" ++ substring_from 9 s')%string = s.
Proof.
  intros [rest ->]%startsWith_split.
  change ("diff --git" ++ rest)%string
    with (String "d" ("iff --git" ++ rest))%string.
  split.
  - change (substring_from 10 (String "d" ("iff --git" ++ rest))) with rest.
    cbn [String.length]. rewrite length_append. cbn [String.length]. lia.
  - exists "d"%char, ("iff --git" ++ rest)%string. split; [done|].
    by change (substring_from 9 ("iff --git" ++ rest)) with rest.
Qed.

Lemma split_walk_join (s : string) :
  forall prev cur skip,
    join "diff --git" (split_walk flags_m (re_source file_header) prev s cur skip)
    = (cur ++ substring_from skip s)%string.
Proof.
  induction s as [|c s IH]; intros prev cur skip.
  { cbn [split_walk join]. destruct skip; cbn [substring_from]; by rewrite append_nil_r. }
  cbn [split_walk]. destruct skip as [|skip]; [|by rewrite IH].
  rewrite rmatch_file_header.
  destruct (header_here prev (String c s)) eqn:Hh.
  - unfold header_here in Hh. apply andb_true_iff in Hh as [_ Hsw].
    destruct (header_length _ Hsw) as (Hlen & c' & s' & Heq & Hrest).
    rewrite Hlen. cbn [app]. rewrite join_cons by apply split_walk_nonempty.
    rewrite IH. injection Heq as -> ->. rewrite append_Empty. by rewrite Hrest.
  - rewrite IH. cbn [substring_from]. rewrite append_assoc. by rewrite append_String.
Qed.

Lemma split_char_nonempty (sep : ascii) (s : string) : split_char sep s <> [].
Proof.
  induction s as [|c s IH]; cbn [split_char]; [done|].
  destruct (Ascii.eqb c sep); [done|]. by destruct (split_char sep s).
Qed.

Lemma split_char_join (s : string) :
  join (String "010" EmptyString) (split_char "010" s) = s.
Proof.
  induction s as [|c s IH]; [done|]. cbn [split_char].
  destruct (Ascii.eqb c "010") eqn:Hc.
  - apply Ascii.eqb_eq in Hc as ->.
    rewrite join_cons by apply split_char_nonempty. by rewrite IH.
  - pose proof (split_char_nonempty "010" s) as Hne.
    destruct (split_char "010" s) as [|w ws]; [done|].
    destruct ws as [|w' ws].
    + cbn [join] in *. by rewrite IH.
    + rewrite join_cons in * by done. rewrite append_String. by rewrite IH.
Qed.

(** X22.  The two splits of the diff parser lose no text: the sections of
    a diff, put together again with [diff --git] between them, are the
    diff, and so are the lines of a section put together with line
    feeds. *)
Theorem splitting_loses_no_text (text : string) :
  join "diff --git" (sections text) = text /\
  join (String "010" EmptyString) (split_char "010" text) = text.
Proof.
  split; [|apply split_char_join].
  unfold sections, String_split. destruct text as [|c s]; [reflexivity|].
  change (re_flags file_header) with flags_m.
  by rewrite split_walk_join.
Qed.

(** ** The names of the parsed diff *)

Lemma lazy_dot_result (whole : string) :
  forall (n : nat) (prev : option ascii) (s : string) (caps : list string)
         (rest : string) (caps' : list string),
    rep_loop (rmatch flags_none Dot) false (after_group whole) n prev s caps
      = Some (rest, caps') ->
    exists q,
      s = (q ++ " b/" ++ rest)%string /\ no_line_terminator q = true /\
      caps' = caps ++ [substring_to (String.length whole - String.length (" b/" ++ rest))
                         whole].
Proof.
  induction n as [|n IH]; intros prev s caps rest caps' Hrun;
    cbn [rep_loop] in Hrun; rewrite after_group_spec in Hrun;
    destruct (startsWith " b/" s) eqn:Hsw.
  1,3: apply startsWith_split in Hsw as [rest0 ->];
       change (substring_from 3 (" b/" ++ rest0)) with rest0 in Hrun;
       injection Hrun as <- <-; by exists EmptyString.
  - discriminate Hrun.
  - unfold Dot in Hrun at 1. cbn [rmatch] in Hrun.
    destruct s as [|c s]; [discriminate Hrun|].
    destruct (negb (is_line_terminator c)) eqn:Hc; [|discriminate Hrun].
    assert (Hlt : Nat.ltb (String.length s) (String.length (String c s)) = true).
    { apply Nat.ltb_lt. cbn. lia. }
    rewrite Hlt in Hrun. apply IH in Hrun as (q & -> & Hq & ->).
    exists (String c q). split; [by rewrite append_String|]. split; [|done].
    unfold no_line_terminator. cbn [list_ascii_of_string forallb].
    by rewrite Hc.
Qed.

Lemma startsWith_append (w rest : string) : startsWith w (w ++ rest) = true.
Proof.
  induction w as [|c w IH]; [done|]. rewrite append_String. cbn [startsWith].
  by rewrite Ascii.eqb_refl, IH.
Qed.

Lemma includes_here (w s : string) : startsWith w s = true -> includes w s = true.
Proof. intros Hw. destruct s; cbn [includes]; by rewrite Hw. Qed.

Lemma includes_later (w : string) (c : ascii) (s : string) :
  includes w s = true -> includes w (String c s) = true.
Proof. intros Hw. cbn [includes]. by rewrite Hw, orb_true_r. Qed.

(** Where [file_name] matches, the text starts with [a/], the captured
    name and [ b/]. *)
Lemma rmatch_file_name (prev : option ascii) (s rest : string) (caps : list string) :
  rmatch flags_none (re_source file_name) prev s [] accept = Some (rest, caps) ->
  exists name,
    caps = [name] /\ name <> EmptyString /\ no_line_terminator name = true /\
    s = ("a/" ++ name ++ " b/" ++ rest)%string.
Proof.
  intros Hrun. destruct s as [|c0 s0]; [discriminate Hrun|].
  destruct (Ascii.eqb "a" c0) eqn:Hc0; [|by rewrite file_name_not_at in Hrun].
  apply Ascii.eqb_eq in Hc0 as <-.
  destruct s0 as [|c1 s1]; [discriminate Hrun|].
  change (rmatch flags_none (re_source file_name) prev (String "a" (String c1 s1))
            [] accept)
    with (if Ascii.eqb "/" c1
          then rmatch flags_none (Cat Dot (Rep false Dot)) (Some c1) s1 []
                 (after_group s1)
          else None) in Hrun.
  destruct (Ascii.eqb "/" c1) eqn:Hc1; [|discriminate Hrun].
  apply Ascii.eqb_eq in Hc1 as <-.
  destruct s1 as [|c s]; [discriminate Hrun|].
  rewrite lazy_plus_dot in Hrun.
  destruct (negb (is_line_terminator c)) eqn:Hc; [|discriminate Hrun].
  apply lazy_dot_result in Hrun as (q & -> & Hq & ->).
  exists (String c q).
  assert (Hcap : String.length (String c (q ++ " b/" ++ rest))
                   - String.length (" b/" ++ rest)
                 = String.length (String c q)).
  { cbn [String.length]. rewrite !length_append. lia. }
  rewrite Hcap. change (String c (q ++ " b/" ++ rest))%string
    with (String c q ++ " b/" ++ rest)%string.
  rewrite substring_to_append. split; [done|]. split; [done|]. split; [|done].
  unfold no_line_terminator. cbn [list_ascii_of_string forallb]. by rewrite Hc.
Qed.

Lemma search_file_name (s : string) :
  forall (prev : option ascii) (i : nat) (m : Match),
    search flags_none (re_source file_name) prev s i = Some m ->
    exists name,
      m_captures m = [name] /\ name <> EmptyString /\
      no_line_terminator name = true /\
      includes ("a/" ++ name ++ " b/") s = true.
Proof.
  assert (Hhere : forall prev s rest caps,
            rmatch flags_none (re_source file_name) prev s [] accept = Some (rest, caps) ->
            exists name,
              caps = [name] /\ name <> EmptyString /\
              no_line_terminator name = true /\
              includes ("a/" ++ name ++ " b/") s = true).
  { intros prev s0 rest caps (name & -> & Hne & Hlt & ->)%rmatch_file_name.
    exists name. do 3 (split; [done|]). apply includes_here.
    replace ("a/" ++ name ++ " b/" ++ rest)%string
      with (("a/" ++ name ++ " b/") ++ rest)%string
      by (by rewrite !append_assoc).
    apply startsWith_append. }
  induction s as [|c s IH]; intros prev i m; rewrite search_unfold;
    destruct (rmatch flags_none (re_source file_name) prev _ [] accept)
      as [[rest caps]|] eqn:Hm.
  1,3: intros Heq; injection Heq as <-; by apply Hhere in Hm.
  - discriminate.
  - intros (name & ? & ? & ? & Hinc)%IH. exists name.
    do 3 (split; [done|]). by apply includes_later.
Qed.

Lemma section_name_Some (part name : string) :
  section_name part = Some name ->
  name <> EmptyString /\ no_line_terminator name = true /\
  includes ("a/" ++ name ++ " b/") part = true.
Proof.
  unfold section_name. destruct (is_empty (trim part)); [discriminate|].
  unfold match_literal, String_match, RegExpBuiltinExec.
  change (fl_global (re_flags file_name)) with false. cbv iota.
  change (re_flags file_name) with flags_none.
  destruct (search flags_none (re_source file_name) None part 0) as [m|] eqn:Hs;
    [|discriminate].
  apply search_file_name in Hs as (name' & Hcaps & ? & ? & ?).
  cbn [fst option_map]. rewrite Hcaps. cbn [nth]. intros Heq. by simplify_eq.
Qed.

Lemma last_section_Some (name : string) (parts : list string) (part : string) :
  last_section name parts = Some part ->
  part ∈ parts /\ section_name part = Some name.
Proof.
  induction parts as [|p parts IH] using rev_ind; [discriminate|].
  rewrite last_section_snoc. destruct (decide (section_name p = Some name)) as [Hp|_].
  - intros Heq. simplify_eq. split; [|done].
    apply elem_of_app. right. apply list_elem_of_here.
  - intros [Hin Hn]%IH. split; [|done]. apply elem_of_app. by left.
Qed.

Lemma fold_parse_part_proto (parts : list string) :
  forall files : gmap string string,
    files !! "__proto__" = None ->
    fold_left parse_part parts files !! "__proto__" = None.
Proof.
  induction parts as [|p parts IH]; intros files Hf; [done|].
  cbn [fold_left]. apply IH. rewrite parse_part_section.
  destruct (section_name p) as [name|]; [|done].
  unfold set_property. destruct (decide (name = "__proto__")); [done|].
  by rewrite lookup_insert_ne.
Qed.

(** X23.  Every name under which the parsed diff holds text is well
    formed: it is not empty, lies on one line, is not [__proto__], and
    stands between [a/] and [ b/] in a section of the diff, whose added
    lines are the text held. *)
Theorem parsed_names_are_well_formed (diff : JsDiff) (name content : string) :
  parseDiff diff !! name = Some content ->
  exists text part,
    diff = DiffText text /\ part ∈ sections text /\
    name <> EmptyString /\ no_line_terminator name = true /\
    name <> "__proto__" /\
    includes ("a/" ++ name ++ " b/") part = true /\
    content = added_lines part.
Proof.
  destruct diff as [| |text]; [done | done |]. intros Hlook.
  assert (Hproto : name <> "__proto__").
  { intros ->. unfold parseDiff in Hlook.
    destruct (is_empty text); [done|].
    by rewrite fold_parse_part_proto in Hlook. }
  rewrite parseDiff_lookup in Hlook by done.
  destruct (last_section name (sections text)) as [part|] eqn:Hlast; [|done].
  apply last_section_Some in Hlast as [Hin Hname].
  apply section_name_Some in Hname as (Hne & Hlt & Hinc).
  exists text, part. by simplify_eq.
Qed.

Lemma parsed_names_are_well_formed_witness :
  parseDiff (DiffText renamed_diff) !! "old.js" = Some "const b = 2;" /\
  exists text part,
    DiffText renamed_diff = DiffText text /\ part ∈ sections text /\
    includes "a/old.js b/" part = true /\
    "const b = 2;" = added_lines part.
Proof.
  assert (Hlook : parseDiff (DiffText renamed_diff) !! "old.js" = Some "const b = 2;")
    by (vm_compute; reflexivity).
  split; [exact Hlook|].
  destruct (parsed_names_are_well_formed _ _ _ Hlook)
    as (text & part & Heq & Hin & _ & _ & _ & Hinc & Hc).
  exists text, part. split; [exact Heq|]. split; [exact Hin|]. split; assumption.
Defined.

(** ** Files that the diff does not name *)

Lemma last_section_of_None (name : string) (secs : list DiffSection.t) :
  (forall sec, sec ∈ secs -> DiffSection.old_path sec <> name) ->
  last_section_of name secs = None.
Proof.
  unfold last_section_of.
  induction secs as [|sec secs IH] using rev_ind; intros Hall; [done|].
  rewrite fold_left_app. cbn [fold_left].
  rewrite decide_False.
  - apply IH. intros s Hs. apply Hall, elem_of_app. by left.
  - apply Hall, elem_of_app. right. apply list_elem_of_here.
Qed.

Lemma parseDiff_unnamed (secs : list DiffSection.t) (name : string) :
  forallb well_formed_section secs = true ->
  (forall sec, sec ∈ secs -> DiffSection.old_path sec <> name) ->
  parseDiff (DiffText (render_diff secs)) !! name = None.
Proof.
  intros Hwf Hall. destruct (decide (name = "__proto__")) as [-> | Hne].
  - unfold parseDiff. destruct (is_empty _); [done|].
    by apply fold_parse_part_proto.
  - by rewrite parseDiff_render, last_section_of_None.
Qed.

Lemma file_entries_filename (dc : gmap string string) (file : ChangedFile.t) :
  (forall w, w ∈ file_warnings dc file ->
     Warning.filename w = ChangedFile.filename file) /\
  (forall c, c ∈ file_complex dc file ->
     ComplexFile.filename c = ChangedFile.filename file) /\
  (forall s, s ∈ file_smells dc file ->
     CodeSmell.filename s = ChangedFile.filename file).
Proof.
  split; [|split].
  - intros w [Hw | Hw]%elem_of_app.
    + unfold size_warnings in Hw. case_decide; [|by apply elem_of_nil in Hw].
      apply list_elem_of_singleton in Hw as ->. reflexivity.
    + destruct (content_of dc file) as [content|]; [|by apply elem_of_nil in Hw].
      revert Hw. generalize (estimate_of (ChangedFile.filename file) content).
      intros est Hw. apply content_warnings_kinds in Hw as [Hfn _]. exact Hfn.
  - intros c Hc. unfold file_complex in Hc.
    destruct (content_of dc file) as [content|]; [|by apply elem_of_nil in Hc].
    revert Hc. generalize (estimate_of (ChangedFile.filename file) content).
    intros est Hc. unfold complex_entries in Hc.
    case_decide; [|by apply elem_of_nil in Hc].
    apply list_elem_of_singleton in Hc as ->. reflexivity.
  - intros s Hs. unfold file_smells in Hs.
    destruct (content_of dc file) as [content|]; [|by apply elem_of_nil in Hs].
    revert Hs. generalize (smells_of content). intros sms Hs.
    apply list_elem_of_fmap in Hs as (sm & -> & _). reflexivity.
Qed.

(** X24.  A file that no section of the diff names on its [a/] side gets
    no content analysis: the report has no complexity, nesting or
    formatting warning, no complex-file entry and no code smell for it,
    whatever the section of the diff contains; only the size warning
    remains.  This is the case of the new path of a renamed file. *)
Theorem unnamed_files_get_no_content_analysis `{GlobMatcher}
    (secs : list DiffSection.t) (files : list ChangedFile.t)
    (ign : list JsPattern) (name : string)
    (r : ComplexityReport.t) (σ σ' : Store) :
  forallb well_formed_section secs = true ->
  (forall sec, sec ∈ secs -> DiffSection.old_path sec <> name) ->
  analyzeComplexity files (DiffText (render_diff secs)) ign σ = (Ret r, σ') ->
  (forall w, w ∈ ComplexityReport.warnings r -> Warning.filename w = name ->
     Warning.type w = "size") /\
  (forall c, c ∈ ComplexityReport.complexFiles r -> ComplexFile.filename c <> name) /\
  (forall s, s ∈ ComplexityReport.codeSmells r -> CodeSmell.filename s <> name).
Proof.
  intros Hwf Hall ->%analyzeComplexity_closed_form.
  pose proof (parseDiff_unnamed secs name Hwf Hall) as Hnone.
  destruct (finish_stats_lists files
              (loop_report (parseDiff (DiffText (render_diff secs))) ign files))
    as (-> & _ & -> & -> & _).
  cbn [loop_report ComplexityReport.warnings ComplexityReport.complexFiles
       ComplexityReport.codeSmells].
  assert (Hc : forall file, ChangedFile.filename file = name ->
             content_of (parseDiff (DiffText (render_diff secs))) file = None).
  { intros file Hfn. unfold content_of. by rewrite Hfn, Hnone. }
  split; [|split].
  - intros w (file & _ & Hw)%elem_of_flat_map Hname.
    rewrite (proj1 (file_entries_filename _ file) w Hw) in Hname.
    unfold file_warnings in Hw. rewrite (Hc file Hname), app_nil_r in Hw.
    unfold size_warnings in Hw. case_decide; [|by apply elem_of_nil in Hw].
    by apply list_elem_of_singleton in Hw as ->.
  - intros c (file & _ & Hin)%elem_of_flat_map Hname.
    rewrite (proj1 (proj2 (file_entries_filename _ file)) c Hin) in Hname.
    unfold file_complex in Hin. rewrite (Hc file Hname) in Hin.
    by apply elem_of_nil in Hin.
  - intros s (file & _ & Hin)%elem_of_flat_map Hname.
    rewrite (proj2 (proj2 (file_entries_filename _ file)) s Hin) in Hname.
    unfold file_smells in Hin. rewrite (Hc file Hname) in Hin.
    by apply elem_of_nil in Hin.
Qed.

Lemma unnamed_files_get_no_content_analysis_witness :
  exists r σ',
    analyzeComplexity (H := simple_glob)
      [ChangedFile.mk "new.js" "renamed" 400 1; ChangedFile.mk "old.js" "removed" 0 3]
      (DiffText (render_diff renamed_sections)) [] fresh_store = (Ret r, σ') /\
    map Warning.type (ComplexityReport.warnings r) = ["size"] /\
    forall s, s ∈ ComplexityReport.codeSmells r -> CodeSmell.filename s <> "new.js".
Proof.
  eexists _, _. split; [run|]. split; [reflexivity|].
  refine (proj2 (proj2 (unnamed_files_get_no_content_analysis (H := simple_glob)
            renamed_sections
            [ChangedFile.mk "new.js" "renamed" 400 1; ChangedFile.mk "old.js" "removed" 0 3]
            [] "new.js" _ fresh_store _ _ _ _))).
  - run.
  - intros sec Hsec.
    repeat (apply elem_of_cons in Hsec as [-> | Hsec]; [discriminate|]).
    by apply elem_of_nil in Hsec.
  - run.
Defined.

(** ** Texts without word characters *)

Lemma control_flow_pattern_shape (lang : string) :
  exists words,
    default (default (mkRegExp Empty flags_g) (CONTROL_FLOW_PATTERNS "js"))
            (CONTROL_FLOW_PATTERNS lang)
    = keyword_pattern words.
Proof.
  unfold CONTROL_FLOW_PATTERNS. repeat case_decide; try done; cbn [default]; eauto.
Qed.

Lemma search_keyword_none (words : list string) (s : string) :
  forallb (fun c => negb (is_word_char c)) (list_ascii_of_string s) = true ->
  forall prev i,
    is_word_at prev = false ->
    search flags_g (re_source (keyword_pattern words)) prev s i = None.
Proof.
  induction s as [|c s IH]; intros Hs prev i Hprev; rewrite search_unfold;
    change (re_source (keyword_pattern words))
      with (Cat WordB (Cat (Grp (Alts (map Lit words))) WordB));
    cbn [rmatch next_char is_word_at]; rewrite Hprev.
  - reflexivity.
  - cbn [list_ascii_of_string forallb] in Hs.
    apply andb_true_iff in Hs as [Hc Hs]. apply negb_true_iff in Hc.
    rewrite Hc. cbn [xorb]. apply IH; [exact Hs | exact Hc].
Qed.

(** X25.  Symbols alone add no complexity: for a text without any letter,
    digit or underscore the estimate is 1 in every language, whatever
    operators ([&&], [||], [?]) it contains, because every token has to
    begin and end at a word boundary. *)
Theorem symbols_alone_add_no_complexity (filename content : string) (σ : Store) :
  forallb (fun c => negb (is_word_char c)) (list_ascii_of_string content) = true ->
  exists est σ',
    analyzeFileComplexity filename content σ = (Ret est, σ') /\
    ComplexityEstimate.complexity est = 1.
Proof.
  intros Hs.
  destruct (analyzeFileComplexity_run filename content σ) as (est & σ' & Hrun & Hc).
  exists est, σ'. split; [exact Hrun|]. rewrite Hc.
  unfold control_flow_matches.
  destruct (control_flow_pattern_shape
              (default "js" (langMap (remove_first_dot (toLowerCase (extname filename))))))
    as [words ->].
  pose proof (String_match_truthy (keyword_pattern words) content eq_refl) as Hm.
  destruct (fst (String_match (keyword_pattern words) content 0)) as [[|m ms]|];
    [done | | done].
  destruct Hm. by apply search_keyword_none.
Qed.

Lemma symbols_alone_add_no_complexity_witness :
  exists est σ',
    analyzeFileComplexity "app.js" "(&& || ? :) <= !" fresh_store = (Ret est, σ') /\
    ComplexityEstimate.complexity est = 1.
Proof.
  apply (symbols_alone_add_no_complexity "app.js" "(&& || ? :) <= !" fresh_store).
  reflexivity.
Defined.

(** ** The details of a complexity report *)

Lemma count_type_keys (type : string) (byType : list (string * nat)) :
  map fst (count_type type byType) = set_add (map fst byType) type.
Proof.
  unfold set_add. induction byType as [|[t n] byType IH]; [done|].
  cbn [count_type map fst]. destruct (decide (t = type)) as [-> | Hne].
  - rewrite bool_decide_eq_true_2 by apply list_elem_of_here. done.
  - cbn [map fst]. rewrite IH.
    destruct (bool_decide (type ∈ map fst byType)) eqn:Hin.
    + apply bool_decide_eq_true in Hin.
      rewrite bool_decide_eq_true_2 by (by apply list_elem_of_further). done.
    + apply bool_decide_eq_false in Hin.
      rewrite bool_decide_eq_false_2; [done|].
      intros [Heq | Hin']%elem_of_cons; [by destruct Hne | by destruct Hin].
Qed.

Lemma by_type_snoc (l : list CodeSmell.t) (s : CodeSmell.t) :
  by_type (l ++ [s]) = count_type (Smell.type (CodeSmell.smell s)) (by_type l).
Proof. unfold by_type. by rewrite fold_left_app. Qed.

Lemma by_type_keys (l : list CodeSmell.t) :
  map fst (by_type l) = set_of (map (fun s => Smell.type (CodeSmell.smell s)) l).
Proof.
  induction l as [|s l IH] using rev_ind; [done|].
  rewrite by_type_snoc, count_type_keys, IH, map_app.
  unfold set_of. by rewrite fold_left_app.
Qed.

Lemma smells_of_type_snoc (t : string) (l : list CodeSmell.t) (s : CodeSmell.t) :
  smells_of_type t (l ++ [s]) =
  smells_of_type t l + (if decide (Smell.type (CodeSmell.smell s) = t) then 1 else 0).
Proof.
  unfold smells_of_type. rewrite filter_app, length_app, filter_cons, filter_nil.
  by destruct (decide _).
Qed.

(** The entries of [byType] as a function of the key. *)
Lemma count_type_lookup (type : string) (byType : list (string * nat)) (f : string -> nat) :
  NoDup (map fst byType) ->
  (forall t n, (t, n) ∈ byType <-> n = f t /\ 1 <= n) ->
  forall t n,
    (t, n) ∈ count_type type byType <->
    n = f t + (if decide (type = t) then 1 else 0) /\ 1 <= n.
Proof.
  revert f. induction byType as [|[t0 n0] byType IH]; intros f Hnd Hf t n.
  - cbn [count_type]. rewrite list_elem_of_singleton.
    assert (Hzero : forall t', f t' = 0).
    { intros t'. destruct (f t') as [|k] eqn:Hk; [done|].
      assert (Hin : (t', S k) ∈ @nil (string * nat)) by (apply Hf; lia).
      by apply elem_of_nil in Hin. }
    rewrite Hzero. split.
    + intros Heq. simplify_eq. by rewrite decide_True.
    + intros [-> Hn]. destruct (decide (type = t)) as [-> | ]; [done | lia].
  - cbn [map fst] in Hnd. apply NoDup_cons in Hnd as [Hnotin Hnd].
    assert (Hhead : n0 = f t0 /\ 1 <= n0) by (apply Hf, list_elem_of_here).
    destruct Hhead as [Hn0 Hpos].
    assert (Htail : forall t' n', (t', n') ∈ byType <->
              n' = (if decide (t' = t0) then 0 else f t') /\ 1 <= n').
    { intros t' n'. split.
      - intros Hin. destruct (decide (t' = t0)) as [-> | Hne].
        + destruct Hnotin. apply list_elem_of_fmap. by exists (t0, n').
        + apply Hf. by apply list_elem_of_further.
      - intros [-> Hn']. destruct (decide (t' = t0)) as [-> | Hne]; [lia|].
        assert (Hin : (t', f t') ∈ (t0, n0) :: byType) by (by apply Hf).
        apply elem_of_cons in Hin as [Heq | Hin]; [by simplify_eq | done]. }
    cbn [count_type]. destruct (decide (t0 = type)) as [-> | Hne].
    + rewrite elem_of_cons. split.
      * intros [Heq | Hin].
        -- simplify_eq. rewrite decide_True by done. lia.
        -- apply Htail in Hin as [-> Hn].
           destruct (decide (t = type)) as [-> | Hne]; [lia|].
           rewrite decide_False by done. lia.
      * intros [-> Hn]. destruct (decide (type = t)) as [<- | Hne].
        -- left. f_equal. lia.
        -- right. apply Htail. rewrite decide_False by done. lia.
    + rewrite elem_of_cons.
      rewrite (IH (fun t' => if decide (t' = t0) then 0 else f t') Hnd Htail).
      split.
      * intros [Heq | [-> Hn]].
        -- simplify_eq. rewrite decide_False by done. lia.
        -- destruct (decide (t = t0)) as [-> | Hne'].
           ++ rewrite decide_False in Hn by done. lia.
           ++ done.
      * intros [-> Hn]. destruct (decide (t = t0)) as [-> | Hne'].
        -- left. rewrite decide_False by done. f_equal. lia.
        -- right. done.
Qed.

Lemma by_type_elem (l : list CodeSmell.t) (t : string) (n : nat) :
  (t, n) ∈ by_type l <-> n = smells_of_type t l /\ 1 <= n.
Proof.
  revert t n. induction l as [|s l IH] using rev_ind; intros t n.
  - split; [by intros Hin%elem_of_nil | cbn; lia].
  - rewrite by_type_snoc.
    rewrite (count_type_lookup _ _ (fun t => smells_of_type t l)); [|
      rewrite by_type_keys; apply set_of_NoDup | exact IH].
    by rewrite smells_of_type_snoc.
Qed.

(** Membership in a list of warnings that is written out. *)
Ltac kinds :=
  repeat setoid_rewrite elem_of_cons; repeat setoid_rewrite elem_of_nil;
  first
    [ let w := fresh "w" in let Hw := fresh "Hw" in
      intros w Hw;
      repeat (destruct Hw as [Hw | Hw]); try contradiction; subst; cbn; auto
    | split;
      [ first [ intros _; solve [eauto 10] | intros Hne; by destruct Hne ]
      | let w := fresh "w" in let Hw := fresh "Hw" in let Hty := fresh "Hty" in
        intros (w & Hw & Hty);
        repeat (destruct Hw as [Hw | Hw]); try contradiction; subst;
        first [ discriminate Hty | discriminate ] ] ].

Lemma report_lists_agree `{GlobMatcher} (files : list ChangedFile.t) (diff : JsDiff)
    (ign : list JsPattern) (r : ComplexityReport.t) (σ σ' : Store) :
  analyzeComplexity files diff ign σ = (Ret r, σ') ->
  (forall w, w ∈ ComplexityReport.warnings r ->
     Warning.type w = "size" \/ Warning.type w = "complexity" \/
     Warning.type w = "nesting" \/ Warning.type w = "formatting") /\
  (ComplexityReport.largeFiles r <> [] <->
   exists w, w ∈ ComplexityReport.warnings r /\ Warning.type w = "size") /\
  (ComplexityReport.complexFiles r <> [] <->
   exists w, w ∈ ComplexityReport.warnings r /\ Warning.type w = "complexity").
Proof.
  intros ->%analyzeComplexity_closed_form.
  destruct (finish_stats_lists files (loop_report (parseDiff diff) ign files))
    as (-> & -> & -> & _).
  cbn [loop_report ComplexityReport.warnings ComplexityReport.complexFiles
       ComplexityReport.largeFiles].
  assert (Hfile : forall file,
    (forall w, w ∈ file_warnings (parseDiff diff) file ->
       Warning.type w = "size" \/ Warning.type w = "complexity" \/
       Warning.type w = "nesting" \/ Warning.type w = "formatting") /\
    (large_entries file <> [] <->
     exists w, w ∈ file_warnings (parseDiff diff) file /\ Warning.type w = "size") /\
    (file_complex (parseDiff diff) file <> [] <->
     exists w, w ∈ file_warnings (parseDiff diff) file /\ Warning.type w = "complexity")).
  { intros file. unfold file_warnings, file_complex, size_warnings, large_entries.
    destruct (content_of _ file) as [content|].
    - generalize (estimate_of (ChangedFile.filename file) content). intros est.
      unfold content_warnings, complex_entries.
      repeat case_decide; cbn [app]; (split; [|split]); kinds.
    - case_decide; cbn [app]; (split; [|split]); kinds. }
  induction (filter (analyzed ign) files) as [|file fs (IHw & IHl & IHc)].
  { cbn. split; [by intros w Hw%elem_of_nil|].
    split; (split; [done | by intros (w & Hw%elem_of_nil & _)]). }
  destruct (Hfile file) as (Hw & Hl & Hc). cbn [flat_map].
  split; [|split].
  - intros w [Hin | Hin]%elem_of_app; [by apply Hw | by apply IHw].
  - split.
    + intros Hne. destruct (large_entries file) as [|l ls] eqn:Hle.
      * destruct (proj1 IHl Hne) as (w & Hin & Hty). exists w.
        split; [apply elem_of_app; by right | done].
      * destruct (proj1 Hl ltac:(done)) as (w & Hin & Hty). exists w.
        split; [apply elem_of_app; by left | done].
    + intros (w & [Hin | Hin]%elem_of_app & Hty).
      * assert (Hne : large_entries file <> []) by (apply Hl; eauto).
        destruct (large_entries file); done.
      * assert (Hne : flat_map large_entries fs <> []) by (apply IHl; eauto).
        intros [_ Hnil]%app_eq_nil. done.
  - split.
    + intros Hne. destruct (file_complex (parseDiff diff) file) as [|c cs] eqn:Hce.
      * destruct (proj1 IHc Hne) as (w & Hin & Hty). exists w.
        split; [apply elem_of_app; by right | done].
      * destruct (proj1 Hc ltac:(done)) as (w & Hin & Hty). exists w.
        split; [apply elem_of_app; by left | done].
    + intros (w & [Hin | Hin]%elem_of_app & Hty).
      * assert (Hne : file_complex (parseDiff diff) file <> []) by (apply Hc; eauto).
        destruct (file_complex (parseDiff diff) file); done.
      * assert (Hne : flat_map (file_complex (parseDiff diff)) fs <> [])
          by (apply IHc; eauto).
        intros [_ Hnil]%app_eq_nil. done.
Qed.

Lemma details_cases (ws : list Warning.t) (ls : list LargeFile.t)
    (cs : list ComplexFile.t) (ss : list CodeSmell.t) (st : Stats.t) :
  let lines :=
    map (fun '(type, count) => SmellsDetail (getSmellIcon type) count type) (by_type ss) in
  complexity_details (ComplexityReport.mk ws ls cs ss st) =
    (match ls with
     | [] => []
     | _ => [LargeChangesDetail (length ls) THRESHOLDS.largeAdditions]
     end)
    ++ (match cs with [] => [] | _ => [HighComplexityDetail (length cs)] end)
    ++ (match ss with [] => [] | _ => lines end)
    ++ (match ws, ss with [], [] => [NoIssuesDetail] | _, _ => [] end).
Proof.
  intros lines. unfold complexity_details.
  cbn [ComplexityReport.warnings ComplexityReport.largeFiles
       ComplexityReport.complexFiles ComplexityReport.codeSmells].
  fold lines. clearbody lines.
  destruct ls, cs, ss, ws; cbn [length Nat.ltb Nat.leb Nat.eqb andb app];
    by rewrite ?app_nil_r, <- ?app_assoc.
Qed.

Lemma by_type_nonempty (ss : list CodeSmell.t) : ss <> [] -> by_type ss <> [].
Proof.
  intros Hne Hnil. destruct ss as [|s ss]; [done|].
  assert (Hin : (Smell.type (CodeSmell.smell s),
                 smells_of_type (Smell.type (CodeSmell.smell s)) (s :: ss))
                ∈ by_type (s :: ss)).
  { apply by_type_elem. split; [done|]. unfold smells_of_type.
    rewrite filter_cons, decide_True by done. cbn. lia. }
  rewrite Hnil in Hin. by apply elem_of_nil in Hin.
Qed.

(** X26.  The details of a complexity report.  The line that no
    significant issue was detected is the only line exactly when the
    report has neither warnings nor code smells.  The details are empty
    exactly when the report has warnings, all of them nesting or
    formatting warnings, and no code smell: such a report gets no line at
    all.  There is one line for each type of smell that occurs, with the
    number of smells of that type; the types come in the order of their
    first occurrence. *)
Theorem details_of_a_complexity_report `{GlobMatcher}
    (files : list ChangedFile.t) (diff : JsDiff) (ign : list JsPattern)
    (r : ComplexityReport.t) (σ σ' : Store) :
  analyzeComplexity files diff ign σ = (Ret r, σ') ->
  (complexity_details r = [NoIssuesDetail] <->
   ComplexityReport.warnings r = [] /\ ComplexityReport.codeSmells r = []) /\
  (complexity_details r = [] <->
   ComplexityReport.codeSmells r = [] /\ ComplexityReport.warnings r <> [] /\
   forall w, w ∈ ComplexityReport.warnings r ->
     Warning.type w = "nesting" \/ Warning.type w = "formatting") /\
  (forall icon n type,
     SmellsDetail icon n type ∈ complexity_details r <->
     icon = getSmellIcon type /\ 1 <= n /\
     n = smells_of_type type (ComplexityReport.codeSmells r)) /\
  map fst (by_type (ComplexityReport.codeSmells r))
    = set_of (map (fun s => Smell.type (CodeSmell.smell s))
                  (ComplexityReport.codeSmells r)).
Proof.
  intros Hrun. destruct (report_lists_agree _ _ _ _ _ _ Hrun) as (Hkinds & Hl & Hc).
  clear Hrun. destruct r as [ws ls cs ss st]. rewrite details_cases.
  cbn [ComplexityReport.warnings ComplexityReport.largeFiles
       ComplexityReport.complexFiles ComplexityReport.codeSmells] in *.
  assert (Hsm : forall icon n type,
            SmellsDetail icon n type
              ∈ map (fun '(type, count) => SmellsDetail (getSmellIcon type) count type)
                    (by_type ss) <->
            icon = getSmellIcon type /\ 1 <= n /\ n = smells_of_type type ss).
  { intros icon n type. rewrite list_elem_of_fmap. split.
    - intros ([t k] & Heq & [-> Hk]%by_type_elem). by simplify_eq.
    - intros (-> & Hn & ->). exists (type, smells_of_type type ss).
      split; [done|]. by apply by_type_elem. }
  assert (Hlines : ss <> [] ->
            exists t k rest,
              map (fun '(type, count) => SmellsDetail (getSmellIcon type) count type)
                  (by_type ss)
              = SmellsDetail (getSmellIcon t) k t :: rest).
  { intros Hne%by_type_nonempty. destruct (by_type ss) as [|[t k] rest]; [done|].
    by exists t, k, (map (fun '(type, count) => SmellsDetail (getSmellIcon type) count type)
                      rest). }
  assert (Hnone : ws = [] -> ls = [] /\ cs = []).
  { intros ->. split.
    - destruct ls; [done|]. destruct (proj1 Hl ltac:(done)) as (w & Hw%elem_of_nil & _).
      done.
    - destruct cs; [done|]. destruct (proj1 Hc ltac:(done)) as (w & Hw%elem_of_nil & _).
      done. }
  split; [|split; [|split; [|apply by_type_keys]]].
  - split.
    + intros Hd. destruct ss as [|s ss].
      * destruct ws as [|w ws]; [done|]. exfalso.
        rewrite !app_nil_r in Hd. destruct ls, cs; discriminate Hd.
      * exfalso. destruct (Hlines ltac:(done)) as (t & k & rest & Heq).
        rewrite Heq in Hd. destruct ls, cs; discriminate Hd.
    + intros [-> ->]. by destruct (Hnone eq_refl) as [-> ->].
  - split.
    + intros Hd. destruct ss as [|s ss].
      2:{ exfalso. destruct (Hlines ltac:(done)) as (t & k & rest & Heq).
          rewrite Heq in Hd. destruct ls, cs; discriminate Hd. }
      split; [done|]. destruct ws as [|w0 ws].
      { exfalso. destruct ls, cs; discriminate Hd. }
      split; [done|]. intros w Hw.
      assert (Hls : ls = []) by (destruct ls; [done | destruct cs; discriminate Hd]).
      assert (Hcs : cs = []) by (destruct cs; [done | destruct ls; discriminate Hd]).
      subst ls cs.
      destruct (Hkinds w Hw) as [Hty | [Hty | Hty]]; [| |done].
      * exfalso. apply (proj2 Hl); [eauto | done].
      * exfalso. apply (proj2 Hc); [eauto | done].
    + intros (-> & Hne & Hall).
      assert (Hls : ls = []).
      { destruct ls; [done|]. destruct (proj1 Hl ltac:(done)) as (w & Hw & Hty).
        destruct (Hall w Hw) as [Hn | Hn]; rewrite Hn in Hty; discriminate Hty. }
      assert (Hcs : cs = []).
      { destruct cs; [done|]. destruct (proj1 Hc ltac:(done)) as (w & Hw & Hty).
        destruct (Hall w Hw) as [Hn | Hn]; rewrite Hn in Hty; discriminate Hty. }
      subst ls cs. by destruct ws.
  - intros icon n type. rewrite <- Hsm. rewrite !elem_of_app.
    destruct ss as [|s ss].
    + split.
      * intros [Hin | [Hin | [Hin | Hin]]].
        -- destruct ls; [by apply elem_of_nil in Hin|].
           apply list_elem_of_singleton in Hin. discriminate Hin.
        -- destruct cs; [by apply elem_of_nil in Hin|].
           apply list_elem_of_singleton in Hin. discriminate Hin.
        -- by apply elem_of_nil in Hin.
        -- destruct ws; [|by apply elem_of_nil in Hin].
           apply list_elem_of_singleton in Hin. discriminate Hin.
      * by intros Hin%elem_of_nil.
    + split.
      * intros [Hin | [Hin | [Hin | Hin]]].
        -- destruct ls; [by apply elem_of_nil in Hin|].
           apply list_elem_of_singleton in Hin. discriminate Hin.
        -- destruct cs; [by apply elem_of_nil in Hin|].
           apply list_elem_of_singleton in Hin. discriminate Hin.
        -- done.
        -- destruct ws; by apply elem_of_nil in Hin.
      * intros Hin. right. right. by left.
Qed.

Lemma details_of_a_complexity_report_witness :
  exists r σ',
    analyzeComplexity (H := simple_glob) [ChangedFile.mk "app.js" "modified" 5 0]
      (DiffText braces_diff) [] fresh_store = (Ret r, σ') /\
    map Warning.type (ComplexityReport.warnings r) = ["nesting"] /\
    complexity_details r = [] /\
    (complexity_details r = [NoIssuesDetail] <->
     ComplexityReport.warnings r = [] /\ ComplexityReport.codeSmells r = []).
Proof.
  eexists _, _. split; [run|]. split; [reflexivity|]. split; [reflexivity|].
  refine (proj1 (details_of_a_complexity_report (H := simple_glob)
                   [ChangedFile.mk "app.js" "modified" 5 0]
                   (DiffText braces_diff) [] _ fresh_store _ _)).
  run.
Defined.
